(** * nodeSEO: the analysis engine of [server/services/seo-analyzer.ts]

    A shallow embedding of the [SEOAnalyzer] class and the properties of its
    fetcher, scorer, robots.txt parser, link analyzer and AMP resolver.

    Conventions of the embedding.
    - A JavaScript string is a [string]: the sequence of its bytes.  The
      helpers of module [Js] follow ECMAScript on ASCII text; bytes above 127
      are carried unchanged and only compared for equality.
    - A JavaScript number that holds a count, a length or a status code is a
      [Z]; the divisions of the scorer and of the comparison are computed
      on binary64 floats.
    - [T | null] (and [T | undefined]) is [option T].
    - The libraries the class calls (axios, cheerio, url, JSON, Date) are the
      fields of the class [Platform]; asynchronous methods are run one after
      the other in a state-and-exception monad over the network. *)

From Stdlib Require Import ZArith List String Ascii Bool Lia Floats Uint63 DecimalString.
Import ListNotations.
Open Scope string_scope.
Open Scope list_scope.
Open Scope Z_scope.
Set Warnings "-register-all".

(** ** ECMAScript helpers *)

Module Js.

(** Truthiness of a [string | null | undefined] value. *)
Definition truthy (v : option string) : bool :=
  match v with
  | Some s => negb (s =? "")%string
  | None => false
  end.

(** The string held by a value already tested truthy. *)
Definition the (v : option string) : string :=
  match v with
  | Some s => s
  | None => ""
  end.

(** [v || null] on such a value. *)
Definition or_null (v : option string) : option string :=
  if truthy v then v else None.

Definition startsWith (s p : string) : bool := String.prefix p s.

(** [s.includes(needle)]. *)
Fixpoint includes (s needle : string) : bool :=
  String.prefix needle s ||
  match s with
  | EmptyString => false
  | String _ t => includes t needle
  end.

(** [arr.includes(x)] on an array of strings. *)
Definition array_includes (arr : list string) (x : string) : bool :=
  existsb (String.eqb x) arr.

(** White space and line terminators removed by [trim] (ASCII range). *)
Definition isWhiteSpace (c : ascii) : bool :=
  let n := N_of_ascii c in
  ((9 <=? n) && (n <=? 13) || (n =? 32))%N.

Fixpoint trimStart (s : string) : string :=
  match s with
  | EmptyString => EmptyString
  | String c t => if isWhiteSpace c then trimStart t else s
  end.

Fixpoint trimEnd (s : string) : string :=
  match s with
  | EmptyString => EmptyString
  | String c t =>
      match trimEnd t with
      | EmptyString => if isWhiteSpace c then EmptyString else String c EmptyString
      | t' => String c t'
      end
  end.

Definition trim (s : string) : string := trimEnd (trimStart s).

Definition lower_char (c : ascii) : ascii :=
  let n := N_of_ascii c in
  if ((65 <=? n) && (n <=? 90))%N then ascii_of_N (n + 32) else c.

Fixpoint toLowerCase (s : string) : string :=
  match s with
  | EmptyString => EmptyString
  | String c t => String (lower_char c) (toLowerCase t)
  end.

(** [s.split(sep)] for a one-character separator: never the empty array. *)
Fixpoint split (sep : ascii) (s : string) : list string :=
  match s with
  | EmptyString => [EmptyString]
  | String c t =>
      if Ascii.eqb c sep then EmptyString :: split sep t
      else match split sep t with
           | h :: r => String c h :: r
           | [] => [String c EmptyString]
           end
  end.

(** [parts.join(sep)]. *)
Definition join (sep : string) (parts : list string) : string :=
  String.concat sep parts.

(** A number inside a template literal, for integers. *)
Definition string_of_Z (z : Z) : string := NilZero.string_of_int (Z.to_int z).

(** [arr.slice(0, n)]. *)
Definition slice0 {A} (n : nat) (arr : list A) : list A := firstn n arr.

(** The binary64 value of an integer below 2^53 in absolute value. *)
Definition of_Z (z : Z) : float :=
  if z <? 0 then PrimFloat.opp (PrimFloat.of_uint63 (Uint63.of_Z (- z)))
  else PrimFloat.of_uint63 (Uint63.of_Z z).

(** [Math.round]: the nearest integer, ties towards +infinity.  The argument
    is finite wherever the analyzer calls it; the other cases give 0. *)
Definition Math_round (x : float) : Z :=
  match Prim2SF x with
  | S754_finite s m e =>
      let num := if s then Z.neg m else Z.pos m in
      if 0 <=? e then num * 2 ^ e
      else (2 * num + 2 ^ (- e)) / (2 * 2 ^ (- e))
  | _ => 0
  end.

End Js.

(** ** Data model: the fact bundles of [SEOAnalysisResult] *)

Module MetaTags.
Record t := mk {
  title : option string;
  titleLength : Z;
  description : option string;
  descriptionLength : Z;
  keywords : option string;
  keywordsLength : Z;
  canonical : option string;
  canonicalMatches : bool;
  robots : option string;
  robotsValid : bool;
  htmlLang : option string;
  maxImagePreview : bool
}.
End MetaTags.

Module Rule.
Record t := mk { userAgent : string; directive : string; path : string }.
End Rule.

Module RobotsTxt.
Record t := mk { found : bool; content : option string; rules : list Rule.t }.
End RobotsTxt.

Module BrokenLink.
Record t := mk { url : string; text : string; status : Z; error : option string }.
End BrokenLink.

Module ExternalLink.
Record t := mk { url : string; text : string; nofollow : bool; status : Z }.
End ExternalLink.

Module Links.
Record t := mk {
  total : Z;
  internal : Z;
  external : Z;
  broken : list BrokenLink.t;
  externalLinks : list ExternalLink.t
}.
End Links.

Module Performance.
Record t := mk {
  loadTime : Z;
  responseTime : Z;
  redirects : Z;
  ssl : bool;
  pageSize : option Z
}.
End Performance.

(** A value produced by [JSON.parse]. *)
Inductive Json :=
| JNull
| JBool (b : bool)
| JNum (x : float)
| JStr (s : string)
| JArr (items : list Json)
| JObj (members : list (string * Json)).

Module Breadcrumbs.
Record t := mk { found : bool; type : option string; data : list Json }.
End Breadcrumbs.

Module SchemaType.
Record t := mk { type : Json; format : string; data : Json }.
End SchemaType.

Module Schema.
Record t := mk { found : bool; types : list SchemaType.t }.
End Schema.

(** The argument of [calculateScore]: the result without its four tallies.
    The bundles the scorer and the orchestrator never read back (dates,
    author, Open Graph, Twitter Card, accessibility, timestamp) are left out. *)
Module AnalysisData.
Record t := mk {
  url : string;
  metaTags : MetaTags.t;
  breadcrumbs : Breadcrumbs.t;
  schema : Schema.t;
  robotsTxt : RobotsTxt.t;
  links : Links.t;
  performance : Performance.t
}.
End AnalysisData.

Module Scores.
Record t := mk { score : Z; issues : Z; warnings : Z; passed : Z }.
End Scores.

(** ** Scorer *)

(** The four running variables of [calculateScore]; [score] holds the raw
    points until the last step. *)
Definition tally0 : Scores.t := Scores.mk 0 0 0 0.

Definition earn (pts : Z) (t : Scores.t) : Scores.t :=
  Scores.mk (Scores.score t + pts) (Scores.issues t) (Scores.warnings t)
            (Scores.passed t + 1).

Definition warn (pts : Z) (t : Scores.t) : Scores.t :=
  Scores.mk (Scores.score t + pts) (Scores.issues t) (Scores.warnings t + 1)
            (Scores.passed t).

Definition issue (n : Z) (t : Scores.t) : Scores.t :=
  Scores.mk (Scores.score t) (Scores.issues t + n) (Scores.warnings t)
            (Scores.passed t).

(** The rubric, rule after rule, before normalisation. *)
Definition rubric (data : AnalysisData.t) : Scores.t :=
  let m := AnalysisData.metaTags data in
  let t := tally0 in
  (* Title (10 points) *)
  let t :=
    if Js.truthy (MetaTags.title m) then
      if (50 <=? MetaTags.titleLength m) && (MetaTags.titleLength m <=? 60)
      then earn 10 t else warn 5 t
    else issue 1 t in
  (* Description (10 points) *)
  let t :=
    if Js.truthy (MetaTags.description m) then
      if (150 <=? MetaTags.descriptionLength m) && (MetaTags.descriptionLength m <=? 160)
      then earn 10 t else warn 5 t
    else issue 1 t in
  (* Canonical (5 points) *)
  let t :=
    if Js.truthy (MetaTags.canonical m) then
      if MetaTags.canonicalMatches m then earn 5 t else warn 0 t
    else warn 0 t in
  (* Robots (5 points) *)
  let t :=
    if Js.truthy (MetaTags.robots m) && MetaTags.robotsValid m
    then earn 5 t else warn 0 t in
  (* HTML Lang (5 points) *)
  let t := if Js.truthy (MetaTags.htmlLang m) then earn 5 t else warn 0 t in
  (* Schema (15 points) *)
  let t :=
    if Schema.found (AnalysisData.schema data) then earn 15 t else issue 1 t in
  (* Robots.txt (5 points) *)
  let t :=
    if RobotsTxt.found (AnalysisData.robotsTxt data) then earn 5 t else warn 0 t in
  (* Broken links (10 points) *)
  let nbroken := Z.of_nat (List.length (Links.broken (AnalysisData.links data))) in
  let t := if nbroken =? 0 then earn 10 t else issue nbroken t in
  (* Breadcrumbs (5 points) *)
  let t :=
    if Breadcrumbs.found (AnalysisData.breadcrumbs data) then earn 5 t else warn 0 t in
  t.

(** [Math.round((score / 70) * 100)] on binary64 numbers. *)
Definition normalize (score : Z) : Z :=
  Js.Math_round (PrimFloat.mul (PrimFloat.div (Js.of_Z score) (Js.of_Z 70)) (Js.of_Z 100)).

Definition calculateScore (data : AnalysisData.t) : Scores.t :=
  let t := rubric data in
  let normalizedScore := normalize (Scores.score t) in
  Scores.mk (Z.max 0 (Z.min 100 normalizedScore))
            (Scores.issues t) (Scores.warnings t) (Scores.passed t).

(** ** robots.txt rules *)

Definition recognised : list string := ["allow"; "disallow"; "sitemap"].

(** One turn of the loop over the lines: the state is [currentUserAgent] and
    the [rules] pushed so far. *)
Definition parse_line (st : string * list Rule.t) (line : string)
  : string * list Rule.t :=
  let '(currentUserAgent, rules) := st in
  let trimmed := Js.trim line in
  if (trimmed =? "")%string || Js.startsWith trimmed "#" then st
  else
    match Js.split ":" trimmed with
    | directive :: pathParts =>
        let path := Js.trim (Js.join ":" pathParts) in
        if (Js.toLowerCase directive =? "user-agent")%string then (path, rules)
        else if Js.array_includes recognised (Js.toLowerCase directive)
        then (currentUserAgent,
              rules ++ [Rule.mk currentUserAgent (Js.toLowerCase directive) path])
        else st
    | [] => st
    end.

Definition parseRobotsTxt (content : string) : list Rule.t :=
  if (content =? "")%string then []
  else
    let lines := Js.split "010" content in
    snd (fold_left parse_line lines ("*", [])).

(** The parsing policy in the words of the specification, to compare with
    [parseRobotsTxt]: the text before and after the first colon of a line. *)
Fixpoint before_first_colon (s : string) : string :=
  match s with
  | EmptyString => EmptyString
  | String c t => if Ascii.eqb c ":" then EmptyString else String c (before_first_colon t)
  end.

Fixpoint after_first_colon (s : string) : string :=
  match s with
  | EmptyString => EmptyString
  | String c t => if Ascii.eqb c ":" then t else after_first_colon t
  end.

Definition ignored_line (l : string) : bool :=
  (Js.trim l =? "")%string || Js.startsWith (Js.trim l) "#".

Fixpoint policy_rules (group : string) (lines : list string) : list Rule.t :=
  match lines with
  | [] => []
  | l :: rest =>
      if ignored_line l then policy_rules group rest
      else
        let key := Js.toLowerCase (before_first_colon (Js.trim l)) in
        let value := Js.trim (after_first_colon (Js.trim l)) in
        if (key =? "user-agent")%string then policy_rules value rest
        else if Js.array_includes recognised key
        then Rule.mk group key value :: policy_rules group rest
        else policy_rules group rest
  end.

(** ** The platform: axios, cheerio, url, JSON and the clock *)

(** A thrown value: an [Error] with its message, or anything else. *)
Inductive Thrown :=
| ErrorObj (message : string)
| NonError.

(** [error instanceof Error ? error.message : 'Unknown error']. *)
Definition message_of (e : Thrown) : string :=
  match e with
  | ErrorObj m => m
  | NonError => "Unknown error"
  end.

Inductive Method := GET | HEAD.

(** An axios request; an option the caller leaves out is [None]. *)
Module Request.
Record t := mk {
  method : Method;
  url : string;
  timeout : Z;
  userAgent : option string;
  maxRedirects : option Z;
  validateStatus : Z -> bool
}.
End Request.

(** What the code reads of an axios response; [redirectCount] is the number
    of redirects the transport followed, which the code never reads.
    [data] is the body as text: a body that axios would hand over parsed
    (JSON) is outside the embedding. *)
Module Response.
Record t := mk {
  status : Z;
  statusText : string;
  data : string;
  contentLength : option string;
  responseUrl : option string;
  redirectCount : nat
}.
End Response.

(** A parsed [URL] object. *)
Module Url.
Record t := mk {
  href : string;
  origin : string;
  pathname : string;
  search : string;
  hostname : string
}.
End Url.

(** An element of a parsed document: its tag, attributes and text content. *)
Module Element.
Record t := mk {
  tag : string;
  attribs : list (string * string);
  text : string
}.
End Element.

(** A cheerio document: its elements in document order. *)
Definition Document := list Element.t.

Class Platform := {
  World : Type;
  (** One HTTP exchange: a response of any status, or a transport failure
      (DNS, connect, timeout, too many redirects). *)
  transport : Request.t -> World -> (Response.t + Thrown) * World;
  (** [Date.now()]. *)
  Date_now : World -> Z;
  (** [parseInt(s)]; [None] is NaN. *)
  parseInt : string -> option Z;
  (** cheerio's [load]. *)
  load : string -> Document;
  (** [new URL(input, base)]; [None] is the TypeError of an invalid URL. *)
  URL_new : string -> option string -> option Url.t;
  (** [JSON.parse]; [None] is its SyntaxError. *)
  JSON_parse : string -> option Json
}.

(** ** Selections *)

(** The selectors the analyzer uses: [tag], [tag[attr]], [tag[attr="v"]],
    [[attr]] and [[attr="v"]]. *)
Module Selector.
Record t := mk {
  tag : option string;
  attr : option (string * option string)
}.
End Selector.

Fixpoint get_attr (name : string) (attribs : list (string * string)) : option string :=
  match attribs with
  | [] => None
  | (k, v) :: rest => if (k =? name)%string then Some v else get_attr name rest
  end.

(** Attribute values are compared as written; the selector engine's
    case-insensitive comparison of some values ([rel], [type]) is outside
    the embedding. *)
Definition matches (sel : Selector.t) (e : Element.t) : bool :=
  match Selector.tag sel with
  | Some t => (Element.tag e =? t)%string
  | None => true
  end &&
  match Selector.attr sel with
  | Some (name, want) =>
      match get_attr name (Element.attribs e), want with
      | Some v, Some w => (v =? w)%string
      | Some _, None => true
      | None, _ => false
      end
  | None => true
  end.

(** [$(selector)]. *)
Definition select (doc : Document) (sel : Selector.t) : list Element.t :=
  filter (matches sel) doc.

Definition by_tag (t : string) : Selector.t := Selector.mk (Some t) None.
Definition by_tag_attr (t name value : string) : Selector.t :=
  Selector.mk (Some t) (Some (name, Some value)).
Definition having_attr (t : option string) (name : string) : Selector.t :=
  Selector.mk t (Some (name, None)).

(** [selection.attr(name)]: the attribute of the first matched element. *)
Definition attr (selection : list Element.t) (name : string) : option string :=
  match selection with
  | [] => None
  | e :: _ => get_attr name (Element.attribs e)
  end.

(** [selection.text()]: the texts of all matched elements, concatenated. *)
Definition text (selection : list Element.t) : string :=
  String.concat "" (map Element.text selection).

(** [x?.trim() || null]. *)
Definition trimmed_or_null (v : option string) : option string :=
  Js.or_null (option_map Js.trim v).

(** ** The monad of asynchronous methods *)

Inductive Outcome (A : Type) :=
| Ok (a : A)
| Throw (e : Thrown).
Arguments Ok {A} a.
Arguments Throw {A} e.

(** The network and the requests sent so far, oldest first. *)
Record Net `{Platform} := mkNet { world : World; sent : list Request.t }.
Arguments mkNet {_} world sent.

Definition M `{Platform} (A : Type) : Type := Net -> Outcome A * Net.

Definition ret `{Platform} {A} (a : A) : M A := fun s => (Ok a, s).

Definition bind `{Platform} {A B} (c : M A) (k : A -> M B) : M B :=
  fun s =>
    match c s with
    | (Ok a, s') => k a s'
    | (Throw e, s') => (Throw e, s')
    end.

Definition throw `{Platform} {A} (e : Thrown) : M A := fun s => (Throw e, s).

(** [try { c } catch (error) { handler error }]. *)
Definition try_catch `{Platform} {A} (c : M A) (handler : Thrown -> M A) : M A :=
  fun s =>
    match c s with
    | (Ok a, s') => (Ok a, s')
    | (Throw e, s') => handler e s'
    end.

(** A synchronous computation that may throw, run inside a method. *)
Definition lift `{Platform} {A} (o : Outcome A) : M A := fun s => (o, s).

Definition now `{Platform} : M Z := fun s => (Ok (Date_now (world s)), s).

Declare Scope js_scope.
Delimit Scope js_scope with js.
Notation "x <- c ;; k" := (bind c (fun x => k))
  (at level 61, c at next level, right associativity) : js_scope.
Notation "c ;;; k" := (bind c (fun _ => k))
  (at level 61, right associativity) : js_scope.
Open Scope js_scope.

(** [new URL(input, base)] as a synchronous computation. *)
Definition new_URL `{Platform} (input : string) (base : option string) : Outcome Url.t :=
  match URL_new input base with
  | Some u => Ok u
  | None => Throw (ErrorObj "Invalid URL")
  end.

(** axios: send the request, then throw unless [validateStatus] accepts. *)
Definition default_validateStatus (status : Z) : bool :=
  (200 <=? status) && (status <? 300).

Definition axios `{Platform} (req : Request.t) : M Response.t :=
  fun s =>
    let s1 := mkNet (world s) (sent s ++ [req]) in
    match transport req (world s1) with
    | (inl resp, w) =>
        if Request.validateStatus req (Response.status resp)
        then (Ok resp, mkNet w (sent s1))
        else (Throw (ErrorObj ("Request failed with status code " ++
                               Js.string_of_Z (Response.status resp))%string),
              mkNet w (sent s1))
    | (inr e, w) => (Throw e, mkNet w (sent s1))
    end.

(** ** Values exchanged between the methods *)

Module FetchOutcome.
Record t := mk { html : string; performance : Performance.t }.
End FetchOutcome.

Module ProbeResult.
Record t := mk { status : Z; error : option string }.
End ProbeResult.

Module LinkInfo.
Record t := mk { url : string; text : string; isExternal : bool; nofollow : bool }.
End LinkInfo.

Inductive Impact := positive | negative | neutral.

Module Difference.
Record t := mk {
  category : string;
  ampValue : string;
  regularValue : string;
  impact : Impact
}.
End Difference.

Module AmpComparison.
Record t := mk {
  ampScore : Z;
  regularScore : Z;
  ampIssues : Z;
  regularIssues : Z;
  differences : list Difference.t
}.
End AmpComparison.

Module SEOAnalysisResult.
Record t := mk {
  data : AnalysisData.t;
  overallScore : Z;
  issues : Z;
  warnings : Z;
  passed : Z;
  isAmp : bool;
  ampUrl : option string;
  regularUrl : option string;
  ampComparison : option AmpComparison.t
}.
Definition url (r : t) : string := AnalysisData.url (data r).
End SEOAnalysisResult.

(** Synchronous code that may throw. *)
Definition and_then {A B} (o : Outcome A) (k : A -> Outcome B) : Outcome B :=
  match o with
  | Ok a => k a
  | Throw e => Throw e
  end.

(** [try { return o } catch { return fallback }]. *)
Definition or_else {A} (o : Outcome A) (fallback : A) : A :=
  match o with
  | Ok a => a
  | Throw _ => fallback
  end.

Definition is_defined {A} (v : option A) : bool :=
  match v with
  | Some _ => true
  | None => false
  end.

Definition quote : string := String "034" EmptyString.

(** The attribute name U+26A1, as its UTF-8 bytes. *)
Definition lightning : string := "⚡".

(** ** JSON-LD helpers *)

(** [v['@type']]: a TypeError on [null], [undefined] on a missing property
    and on values that are not objects. *)
Fixpoint lookup_member (k : string) (members : list (string * Json)) : option Json :=
  match members with
  | [] => None
  | (k', v) :: rest => if (k' =? k)%string then Some v else lookup_member k rest
  end.

Definition at_type (v : Json) : Outcome (option Json) :=
  match v with
  | JNull => Throw (ErrorObj "Cannot read properties of null (reading '@type')")
  | JObj members => Ok (lookup_member "@type" members)
  | _ => Ok None
  end.

Definition is_BreadcrumbList (t : option Json) : bool :=
  match t with
  | Some (JStr s) => (s =? "BreadcrumbList")%string
  | _ => false
  end.

Definition json_truthy (t : option Json) : bool :=
  match t with
  | None => false
  | Some JNull => false
  | Some (JBool b) => b
  | Some (JNum x) => negb (PrimFloat.eqb x PrimFloat.zero) && PrimFloat.eqb x x
  | Some (JStr s) => negb (s =? "")%string
  | Some (JArr _) => true
  | Some (JObj _) => true
  end.

(** [Array.isArray(data) ? data : [data]]. *)
Definition as_array (data : Json) : list Json :=
  match data with
  | JArr items => items
  | _ => [data]
  end.

(** [items.some(item => item['@type'] === 'BreadcrumbList')]. *)
Fixpoint some_BreadcrumbList (items : list Json) : Outcome bool :=
  match items with
  | [] => Ok false
  | item :: rest =>
      and_then (at_type item) (fun t =>
        if is_BreadcrumbList t then Ok true else some_BreadcrumbList rest)
  end.

(** The [forEach] of [extractSchema]: a TypeError ends the block and keeps
    what was pushed before it. *)
Fixpoint push_typed (schemas : list Json) (types : list SchemaType.t)
  : list SchemaType.t :=
  match schemas with
  | [] => types
  | schema :: rest =>
      match at_type schema with
      | Throw _ => types
      | Ok t =>
          if json_truthy t
          then push_typed rest
                 (types ++ [SchemaType.mk (match t with Some v => v | None => JNull end)
                                          "JSON-LD" schema])
          else push_typed rest types
      end
  end.

(** [arr.pop()] of a non-empty array. *)
Definition pop (arr : list string) : string := last arr "".

Definition lt_num (a b : option Z) : bool :=
  match a, b with
  | Some x, Some y => x <? y
  | _, _ => false
  end.

(** [`${Math.round(pageSize / 1024)}KB`]. *)
Definition kilobytes (pageSize : option Z) : string :=
  match pageSize with
  | Some p =>
      (Js.string_of_Z (Js.Math_round (PrimFloat.div (Js.of_Z p) (Js.of_Z 1024))) ++ "KB")%string
  | None => "NaNKB"
  end.

Definition presence (found : bool) : string :=
  if found then "Present" else "Missing".

(** ** The methods of [SEOAnalyzer] *)

Section Analyzer.
Context `{Platform}.

(** [!== url] on [response.request.res?.responseUrl]. *)
Definition differs (responseUrl : option string) (url : string) : bool :=
  match responseUrl with
  | Some u => negb (u =? url)%string
  | None => true
  end.

Definition page_request (url : string) : Request.t :=
  Request.mk GET url 15000 (Some "Mozilla/5.0 (compatible; SEO-Analyzer/1.0)") (Some 5)
             (fun _ => true).

Definition fetchPage (url : string) : M FetchOutcome.t :=
  try_catch
    (startTime <- now ;;
     response <- axios (page_request url) ;;
     endTime <- now ;;
     let loadTime := endTime - startTime in
     let contentLength :=
       if Js.truthy (Response.contentLength response)
       then parseInt (Js.the (Response.contentLength response))
       else Some (Z.of_nat (String.length (Response.data response))) in
     if 400 <=? Response.status response
     then throw (ErrorObj ("HTTP " ++ Js.string_of_Z (Response.status response) ++ ": "
                           ++ Response.statusText response)%string)
     else ret (FetchOutcome.mk (Response.data response)
                 (Performance.mk loadTime loadTime
                    (if differs (Response.responseUrl response) url then 1 else 0)
                    (Js.startsWith url "https://")
                    contentLength)))
    (fun error => throw (ErrorObj ("Failed to fetch page: " ++ message_of error)%string)).

Definition fetchRobotsTxt (baseUrl : string) : M (option string) :=
  try_catch
    (robotsUrl <- lift (new_URL "/robots.txt" (Some baseUrl)) ;;
     response <- axios (Request.mk GET (Url.href robotsUrl) 5000 None None
                                   default_validateStatus) ;;
     ret (Some (Response.data response)))
    (fun _ => ret None).

Definition probe_request (url : string) : Request.t :=
  Request.mk HEAD url 5000 None None (fun _ => true).

Definition checkLinkStatus (url : string) : M ProbeResult.t :=
  try_catch
    (response <- axios (probe_request url) ;;
     ret (ProbeResult.mk (Response.status response) None))
    (fun error => ret (ProbeResult.mk 0 (Some (message_of error)))).

(** The test shared by [isAmpPage] and [detectAmpUrl]. *)
Definition html_is_amp (doc : Document) : bool :=
  is_defined (attr (select doc (by_tag "html")) "amp") ||
  is_defined (attr (select doc (by_tag "html")) lightning).

Definition isAmpPage (html : string) : M bool :=
  ret (html_is_amp (load html)).

(** The loop of [detectAmpUrl] over the candidate patterns. *)
Fixpoint probe_patterns (ampPatterns : list string) : M (option string) :=
  match ampPatterns with
  | [] => ret None
  | ampUrl :: rest =>
      hit <- try_catch
               (response <- axios (Request.mk HEAD ampUrl 3000 None None (fun _ => true)) ;;
                ret (Response.status response =? 200))
               (fun _ => ret false) ;;
      if hit then ret (Some ampUrl) else probe_patterns rest
  end.

Definition ampPatterns (url : Url.t) : list string :=
  [(Url.origin url ++ "/amp" ++ Url.pathname url)%string;
   (Url.origin url ++ Url.pathname url ++ "/amp/")%string;
   (Url.origin url ++ Url.pathname url ++ "?amp=1")%string;
   (Url.origin url ++ "/amp" ++ Url.pathname url ++ Url.search url)%string].

Definition detectAmpUrl (html originalUrl : string) : M (option string) :=
  let doc := load html in
  let ampLink := attr (select doc (by_tag_attr "link" "rel" "amphtml")) "href" in
  if Js.truthy ampLink then
    u <- lift (new_URL (Js.the ampLink) (Some originalUrl)) ;;
    ret (Some (Url.href u))
  else if html_is_amp doc then ret (Some originalUrl)
  else
    url <- lift (new_URL originalUrl None) ;;
    probe_patterns (ampPatterns url).

(** [extractMetaTags]: the block that compares the canonical URL. *)
Definition canonical_block (canonical originalUrl : string) : Outcome bool :=
  and_then (new_URL canonical (Some originalUrl)) (fun canonicalUrl =>
  and_then (new_URL originalUrl None) (fun inputUrl =>
  Ok (Url.href canonicalUrl =? Url.href inputUrl)%string)).

(** [v?.length || 0], counted in bytes of the string (UTF-16 units in
    JavaScript: the same on ASCII text). *)
Definition length_or_0 (v : option string) : Z :=
  if Js.truthy v then Z.of_nat (String.length (Js.the v)) else 0.

Definition extractMetaTags (html originalUrl : string) : MetaTags.t :=
  let doc := load html in
  let title := Js.or_null (Some (Js.trim (text (select doc (by_tag "title"))))) in
  let description :=
    trimmed_or_null (attr (select doc (by_tag_attr "meta" "name" "description")) "content") in
  let keywords :=
    trimmed_or_null (attr (select doc (by_tag_attr "meta" "name" "keywords")) "content") in
  let canonical :=
    Js.or_null (attr (select doc (by_tag_attr "link" "rel" "canonical")) "href") in
  let robots :=
    trimmed_or_null (attr (select doc (by_tag_attr "meta" "name" "robots")) "content") in
  let htmlLang := trimmed_or_null (attr (select doc (by_tag "html")) "lang") in
  let canonicalMatches :=
    if Js.truthy canonical
    then or_else (canonical_block (Js.the canonical) originalUrl) false
    else false in
  let robotsValid :=
    if Js.truthy robots
    then Js.includes (Js.the robots) "index" || Js.includes (Js.the robots) "noindex"
    else false in
  let maxImagePreview :=
    if Js.truthy robots then Js.includes (Js.the robots) "max-image-preview:large"
    else false in
  MetaTags.mk title (length_or_0 title)
              description (length_or_0 description)
              keywords (length_or_0 keywords)
              canonical canonicalMatches robots robotsValid htmlLang maxImagePreview.

Definition ld_json : Selector.t := by_tag_attr "script" "type" "application/ld+json".

(** The predicate of the [find] in [extractBreadcrumbs]. *)
Definition is_breadcrumb_script (script : Element.t) : bool :=
  match JSON_parse (Element.text script) with
  | None => false
  | Some data =>
      or_else
        (and_then (at_type data) (fun t =>
           if is_BreadcrumbList t then Ok true
           else match data with
                | JArr items => some_BreadcrumbList items
                | _ => Ok false
                end))
        false
  end.

Definition aria_breadcrumb (doc : Document) : Breadcrumbs.t :=
  if negb (Nat.eqb (List.length (select doc (Selector.mk None (Some ("aria-label", Some "breadcrumb"))))) 0)
  then Breadcrumbs.mk true (Some ("aria-label=" ++ quote ++ "breadcrumb" ++ quote)%string) []
  else Breadcrumbs.mk false None [].

Definition extractBreadcrumbs (html : string) : Breadcrumbs.t :=
  let doc := load html in
  match find is_breadcrumb_script (select doc ld_json) with
  | Some breadcrumbScript =>
      match JSON_parse (Element.text breadcrumbScript) with
      | Some data => Breadcrumbs.mk true (Some "schema.org/BreadcrumbList") (as_array data)
      | None => aria_breadcrumb doc
      end
  | None => aria_breadcrumb doc
  end.

(** The two [each] loops of [extractSchema]. *)
Definition push_script (types : list SchemaType.t) (script : Element.t)
  : list SchemaType.t :=
  match JSON_parse (Element.text script) with
  | Some data => push_typed (as_array data) types
  | None => types
  end.

Definition push_microdata (types : list SchemaType.t) (element : Element.t)
  : list SchemaType.t :=
  let itemtype := get_attr "itemtype" (Element.attribs element) in
  if Js.truthy itemtype then
    let last_part := pop (Js.split "/" (Js.the itemtype)) in
    let type := if (last_part =? "")%string then Js.the itemtype else last_part in
    types ++ [SchemaType.mk (JStr type) "Microdata"
                            (JObj [("itemtype", JStr (Js.the itemtype))])]
  else types.

Definition extractSchema (html : string) : Schema.t :=
  let doc := load html in
  let types := fold_left push_script (select doc ld_json) [] in
  let types := fold_left push_microdata (select doc (having_attr None "itemtype")) types in
  Schema.mk (negb (Nat.eqb (List.length types) 0)) types.

(** The body of the [each] over [a[href]]: the link pushed, if any. *)
Definition collect_link (base : Url.t) (baseUrl : string) (link : Element.t)
  : option LinkInfo.t :=
  let href := get_attr "href" (Element.attribs link) in
  let text := Js.trim (Element.text link) in
  let nofollow :=
    match get_attr "rel" (Element.attribs link) with
    | Some rel => Js.includes rel "nofollow"
    | None => false
    end in
  if negb (Js.truthy href) || Js.startsWith (Js.the href) "#"
     || Js.startsWith (Js.the href) "mailto:" || Js.startsWith (Js.the href) "tel:"
  then None
  else
    match new_URL (Js.the href) (Some baseUrl) with
    | Ok absoluteUrl =>
        let isExternal := negb (Url.hostname absoluteUrl =? Url.hostname base)%string in
        Some (LinkInfo.mk (Url.href absoluteUrl) text isExternal nofollow)
    | Throw _ => None
    end.

Fixpoint collect_links (base : Url.t) (baseUrl : string) (anchors : list Element.t)
  : list LinkInfo.t :=
  match anchors with
  | [] => []
  | link :: rest =>
      match collect_link base baseUrl link with
      | Some l => l :: collect_links base baseUrl rest
      | None => collect_links base baseUrl rest
      end
  end.

(** [linksToCheck] of a list of collected links. *)
Definition linksToCheck (allLinks : list LinkInfo.t) : list LinkInfo.t :=
  let internalLinks := filter (fun link => negb (LinkInfo.isExternal link)) allLinks in
  let externalLinks := filter (fun link => LinkInfo.isExternal link) allLinks in
  internalLinks ++ Js.slice0 10 externalLinks.

Definition is_broken (result : ProbeResult.t) : bool :=
  (400 <=? ProbeResult.status result) || (ProbeResult.status result =? 0).

(** The loop that probes the links and pushes the broken ones. *)
Fixpoint check_links (links : list LinkInfo.t) (broken : list BrokenLink.t)
  : M (list BrokenLink.t) :=
  match links with
  | [] => ret broken
  | link :: rest =>
      result <- checkLinkStatus (LinkInfo.url link) ;;
      if is_broken result
      then check_links rest
             (broken ++ [BrokenLink.mk (LinkInfo.url link) (LinkInfo.text link)
                                       (ProbeResult.status result)
                                       (ProbeResult.error result)])
      else check_links rest broken
  end.

(** [analyzeLinks] once the links are collected. *)
Definition analyze_collected (allLinks : list LinkInfo.t) : M Links.t :=
  let internalLinks := filter (fun link => negb (LinkInfo.isExternal link)) allLinks in
  let externalLinks := filter (fun link => LinkInfo.isExternal link) allLinks in
  broken <- check_links (Js.slice0 20 (linksToCheck allLinks)) [] ;;
  ret (Links.mk (Z.of_nat (List.length allLinks))
                (Z.of_nat (List.length internalLinks))
                (Z.of_nat (List.length externalLinks))
                broken
                (map (fun link => ExternalLink.mk (LinkInfo.url link) (LinkInfo.text link)
                                                  (LinkInfo.nofollow link) 200)
                     externalLinks)).

Definition analyzeLinks (html baseUrl : string) : M Links.t :=
  let doc := load html in
  base <- lift (new_URL baseUrl None) ;;
  analyze_collected (collect_links base baseUrl (select doc (having_attr (Some "a") "href"))).

(** [Promise.all] of two methods: both are started, and the first failure
    is the one rethrown.  The model runs them one after the other. *)
Definition both {A B} (c1 : M A) (c2 : M B) : M (A * B) :=
  fun s =>
    let '(o1, s1) := c1 s in
    let '(o2, s2) := c2 s1 in
    match o1, o2 with
    | Ok a, Ok b => (Ok (a, b), s2)
    | Throw e, _ => (Throw e, s2)
    | Ok _, Throw e => (Throw e, s2)
    end.

(** The bundle [compareAmpAndRegular] scores for one side. *)
Definition side_data (url : string) (page : FetchOutcome.t) : AnalysisData.t :=
  let html := FetchOutcome.html page in
  AnalysisData.mk url
    (extractMetaTags html url)
    (extractBreadcrumbs html)
    (extractSchema html)
    (RobotsTxt.mk false None [])
    (Links.mk 0 0 0 [] [])
    (FetchOutcome.performance page).

Definition compareAmpAndRegular (ampUrl regularUrl : string) : M AmpComparison.t :=
  try_catch
    (pages <- both (fetchPage ampUrl) (fetchPage regularUrl) ;;
     let '(ampData, regularData) := pages in
     let amp := side_data ampUrl ampData in
     let regular := side_data regularUrl regularData in
     let ampScores := calculateScore amp in
     let regularScores := calculateScore regular in
     let ampPerf := FetchOutcome.performance ampData in
     let regularPerf := FetchOutcome.performance regularData in
     let ampFound := Schema.found (AnalysisData.schema amp) in
     let regularFound := Schema.found (AnalysisData.schema regular) in
     let differences :=
       [Difference.mk "Load Time"
          (Js.string_of_Z (Performance.loadTime ampPerf) ++ "ms")%string
          (Js.string_of_Z (Performance.loadTime regularPerf) ++ "ms")%string
          (if Performance.loadTime ampPerf <? Performance.loadTime regularPerf
           then positive else negative);
        Difference.mk "Page Size"
          (kilobytes (Performance.pageSize ampPerf))
          (kilobytes (Performance.pageSize regularPerf))
          (if lt_num (Performance.pageSize ampPerf) (Performance.pageSize regularPerf)
           then positive else negative);
        Difference.mk "Schema Markup"
          (presence ampFound) (presence regularFound)
          (if Bool.eqb ampFound regularFound then neutral
           else if ampFound then positive else negative)] in
     ret (AmpComparison.mk (Scores.score ampScores) (Scores.score regularScores)
                           (Scores.issues ampScores) (Scores.issues regularScores)
                           differences))
    (fun error => throw (ErrorObj ("AMP comparison failed: " ++ message_of error)%string)).

(** [url.startsWith('http') ? url : `https://${url}`]. *)
Definition normalizeUrl (url : string) : string :=
  if Js.startsWith url "http" then url else ("https://" ++ url)%string.

(** The AMP branch of [analyzeWebsite]: the pair [(ampUrl, regularUrl)]. *)
Definition resolve_amp (isCurrentAmp : bool) (html normalizedUrl : string)
  : M (option string * option string) :=
  if isCurrentAmp then
    let canonicalLink :=
      attr (select (load html) (by_tag_attr "link" "rel" "canonical")) "href" in
    if Js.truthy canonicalLink then
      u <- lift (new_URL (Js.the canonicalLink) (Some normalizedUrl)) ;;
      ret (Some normalizedUrl, Some (Url.href u))
    else ret (Some normalizedUrl, None)
  else
    ampUrl <- detectAmpUrl html normalizedUrl ;;
    ret (ampUrl, Some normalizedUrl).

(** The comparison step: skipped unless both URLs are set and differ, and
    left [null] when it fails. *)
Definition compare_step (ampUrl regularUrl : option string) : M (option AmpComparison.t) :=
  if Js.truthy ampUrl && Js.truthy regularUrl
     && negb (Js.the ampUrl =? Js.the regularUrl)%string
  then try_catch
         (c <- compareAmpAndRegular (Js.the ampUrl) (Js.the regularUrl) ;; ret (Some c))
         (fun _ => ret None)
  else ret None.

Definition analyzeWebsite (url : string) : M SEOAnalysisResult.t :=
  try_catch
    (let normalizedUrl := normalizeUrl url in
     page <- fetchPage normalizedUrl ;;
     let html := FetchOutcome.html page in
     let performance := FetchOutcome.performance page in
     isCurrentAmp <- isAmpPage html ;;
     urls <- resolve_amp isCurrentAmp html normalizedUrl ;;
     let '(ampUrl, regularUrl) := urls in
     let metaTags := extractMetaTags html normalizedUrl in
     let breadcrumbs := extractBreadcrumbs html in
     let schema := extractSchema html in
     links <- analyzeLinks html normalizedUrl ;;
     robotsTxtContent <- fetchRobotsTxt normalizedUrl ;;
     let robotsTxt :=
       RobotsTxt.mk (Js.truthy robotsTxtContent) robotsTxtContent
                    (if Js.truthy robotsTxtContent
                     then parseRobotsTxt (Js.the robotsTxtContent) else []) in
     let analysisData :=
       AnalysisData.mk normalizedUrl metaTags breadcrumbs schema robotsTxt links
                       performance in
     let scores := calculateScore analysisData in
     ampComparison <- compare_step ampUrl regularUrl ;;
     ret (SEOAnalysisResult.mk analysisData
            (Scores.score scores) (Scores.issues scores)
            (Scores.warnings scores) (Scores.passed scores)
            isCurrentAmp (Js.or_null ampUrl) (Js.or_null regularUrl) ampComparison))
    (fun error => throw (ErrorObj ("SEO analysis failed: " ++ message_of error)%string)).

End Analyzer.

(** ** A scripted platform, for running the analyzer on examples *)

Module Demo.

Definition site : string := "https://example.com".

(** A toy resolver: absolute http(s) URLs and paths from the root of
    [site]; everything else, and the bare scheme, is invalid. *)
Definition absolute (href : string) : Url.t :=
  Url.mk href site "/" ""
         (if Js.startsWith href site then "example.com" else "other.com").

Definition resolve (input : string) (base : option string) : option Url.t :=
  if (input =? "http://")%string then None
  else if Js.startsWith input "http://" || Js.startsWith input "https://"
  then Some (absolute input)
  else if Js.startsWith input "/" then
    match base with
    | Some _ => Some (absolute (site ++ input)%string)
    | None => None
    end
  else None.

Definition html_el (attribs : list (string * string)) : Element.t :=
  Element.mk "html" attribs "".
Definition link_el (rel href : string) : Element.t :=
  Element.mk "link" [("rel", rel); ("href", href)] "".
Definition a_el (href text : string) : Element.t :=
  Element.mk "a" [("href", href)] text.

(** Thirty internal anchors followed by fifteen external ones. *)
Definition many_anchors : list Element.t :=
  map (fun n => a_el ("/page/" ++ Js.string_of_Z (Z.of_nat n))%string "in") (seq 0 30) ++
  map (fun n => a_el ("https://other.com/" ++ Js.string_of_Z (Z.of_nat n))%string "out")
      (seq 0 15).

(** A toy parser: the documents of five page bodies. *)
Definition parse (html : string) : Document :=
  if (html =? "amp")%string then
    [html_el [("amp", "")]; link_el "amphtml" "/other-amp"; link_el "canonical" "/article"]
  else if (html =? "amp-bare")%string then [html_el [(lightning, "")]]
  else if (html =? "amp-bad")%string then
    [html_el [("amp", "")]; link_el "canonical" "http://"]
  else if (html =? "article")%string then
    [html_el [("lang", "en")]; Element.mk "title" [] " An article ";
     link_el "canonical" "/article"; a_el "/missing" "gone"; a_el "/down" "slow";
     a_el "#top" "top"; a_el "https://other.com/x" "out"]
  else if (html =? "hub")%string then html_el [] :: many_anchors
  else [].

Definition ok (body : string) (final : string) (hops : nat) : Response.t + Thrown :=
  inl (Response.mk 200 "OK" body None (Some final) hops).

(** A toy network: the answer depends on the URL alone. *)
Definition serve (req : Request.t) : Response.t + Thrown :=
  let u := Request.url req in
  if (u =? "https://example.com/amp")%string then ok "amp" u 0
  else if (u =? "https://example.com/amp-bare")%string then ok "amp-bare" u 0
  else if (u =? "https://example.com/amp-bad")%string then ok "amp-bad" u 0
  else if (u =? "https://example.com/article")%string then ok "article" u 0
  else if (u =? "https://example.com/hub")%string then ok "hub" u 0
  else if (u =? "https://example.com/moved")%string
  then ok "article" "https://example.com/article" 3
  else if (u =? "https://example.com/missing")%string
  then inl (Response.mk 404 "Not Found" "gone" (Some "4") (Some u) 0)
  else if (u =? "https://example.com/down")%string
  then inr (ErrorObj "timeout of 5000ms exceeded")
  else if (u =? "https://example.com/robots.txt")%string
  then ok ("User-agent: *" ++ String "010" "Disallow: /admin")%string u 0
  else ok "" u 0.

#[local] Instance platform : Platform := {|
  World := Z;
  transport := fun req w => (serve req, w + 1);
  Date_now := fun w => w;
  parseInt := fun _ => None;
  load := parse;
  URL_new := resolve;
  JSON_parse := fun _ => None
|}.

Definition start : Net := mkNet (0 : World) [].

(** The fact bundle of the scoring example. *)
Definition example_data : AnalysisData.t :=
  AnalysisData.mk "https://example.com/article"
    (MetaTags.mk (Some "An article whose title is exactly fifty-five chars long") 55
                 None 0 None 0
                 (Some "https://example.com/article") true
                 (Some "index, follow") true
                 (Some "en") false)
    (Breadcrumbs.mk false None [])
    (Schema.mk true [SchemaType.mk (JStr "Article") "JSON-LD"
                                   (JObj [("@type", JStr "Article")])])
    (RobotsTxt.mk true (Some "User-agent: *") [])
    (Links.mk 0 0 0 [] [])
    (Performance.mk 120 120 0 true (Some 2048)).

End Demo.

(** ** Vocabulary of the properties *)

(** The three tallies of a score are not negative. *)
Definition nonneg_tallies (t : Scores.t) : Prop :=
  0 <= Scores.issues t /\ 0 <= Scores.warnings t /\ 0 <= Scores.passed t.

(** The fact bundles of the scoring example of the specification. *)
Definition scoring_example (data : AnalysisData.t) : Prop :=
  let m := AnalysisData.metaTags data in
  Js.truthy (MetaTags.title m) = true /\
  MetaTags.titleLength m = 55 /\
  Js.truthy (MetaTags.description m) = false /\
  Js.truthy (MetaTags.canonical m) = true /\
  MetaTags.canonicalMatches m = true /\
  MetaTags.robots m = Some "index, follow" /\
  MetaTags.robotsValid m = true /\
  Js.truthy (MetaTags.htmlLang m) = true /\
  Schema.found (AnalysisData.schema data) = true /\
  RobotsTxt.found (AnalysisData.robotsTxt data) = true /\
  Links.broken (AnalysisData.links data) = [] /\
  Breadcrumbs.found (AnalysisData.breadcrumbs data) = false.


(** What a probe makes of the answer of the transport. *)
Definition result_of (answer : Response.t + Thrown) : ProbeResult.t :=
  match answer with
  | inl resp => ProbeResult.mk (Response.status resp) None
  | inr e => ProbeResult.mk 0 (Some (message_of e))
  end.

(** The answers of the transport to the probes of [links], sent in turn
    starting from the world [w], and the world left behind. *)
Fixpoint probe_answers `{Platform} (links : list LinkInfo.t) (w : World)
  : list (Response.t + Thrown) * World :=
  match links with
  | [] => ([], w)
  | link :: rest =>
      let '(answer, w1) := transport (probe_request (LinkInfo.url link)) w in
      let '(answers, w2) := probe_answers rest w1 in
      (answer :: answers, w2)
  end.

(** The entries the loop of [analyzeLinks] pushes, given the answers. *)
Definition pushed (link : LinkInfo.t) (answer : Response.t + Thrown) : list BrokenLink.t :=
  if is_broken (result_of answer)
  then [BrokenLink.mk (LinkInfo.url link) (LinkInfo.text link)
                      (ProbeResult.status (result_of answer))
                      (ProbeResult.error (result_of answer))]
  else [].

Fixpoint pushed_all (links : list LinkInfo.t) (answers : list (Response.t + Thrown))
  : list BrokenLink.t :=
  match links, answers with
  | link :: links', answer :: answers' => pushed link answer ++ pushed_all links' answers'
  | _, _ => []
  end.

(** Broken-link accounting in the words of the specification: an HTTP status
    of 400 or more is recorded with that status and no error, a transport
    failure with status 0 and its message, and nothing else is recorded. *)
Definition recorded (link : LinkInfo.t) (answer : Response.t + Thrown) : list BrokenLink.t :=
  match answer with
  | inl resp =>
      if 400 <=? Response.status resp
      then [BrokenLink.mk (LinkInfo.url link) (LinkInfo.text link) (Response.status resp) None]
      else []
  | inr e =>
      [BrokenLink.mk (LinkInfo.url link) (LinkInfo.text link) 0 (Some (message_of e))]
  end.

Fixpoint recorded_all (links : list LinkInfo.t) (answers : list (Response.t + Thrown))
  : list BrokenLink.t :=
  match links, answers with
  | link :: links', answer :: answers' => recorded link answer ++ recorded_all links' answers'
  | _, _ => []
  end.

(** HTTP status codes have three digits. *)
Definition http_statuses `{Platform} : Prop :=
  forall req w resp w',
    transport req w = (inl resp, w') -> 100 <= Response.status resp <= 999.

(** The href of a parsed URL is never empty. *)
Definition hrefs_not_empty `{Platform} : Prop :=
  forall input base u, URL_new input base = Some u -> Url.href u <> "".

(** A method that only adds to the requests already sent. *)
Definition appends `{Platform} {A} (c : M A) : Prop :=
  forall s, exists l, sent (snd (c s)) = sent s ++ l.

(** A method that never throws. *)
Definition total `{Platform} {A} (c : M A) : Prop :=
  forall s, exists a s', c s = (Ok a, s').

(** The performance record [fetchPage] builds from a response. *)
Definition performance_of `{Platform} (url : string) (resp : Response.t) (loadTime : Z)
  : Performance.t :=
  Performance.mk loadTime loadTime
    (if differs (Response.responseUrl resp) url then 1 else 0)
    (Js.startsWith url "https://")
    (if Js.truthy (Response.contentLength resp)
     then parseInt (Js.the (Response.contentLength resp))
     else Some (Z.of_nat (String.length (Response.data resp)))).

(** ** The other extractors of [SEOAnalyzer] *)

Module Dates.
Record t := mk {
  published : option string;
  publishedSource : option string;
  modified : option string;
  modifiedSource : option string
}.
End Dates.

Module Author.
Record t := mk { name : option string; link : option string; source : option string }.
End Author.

Module OpenGraph.
Record t := mk {
  title : option string;
  description : option string;
  image : option string;
  type : option string
}.
End OpenGraph.

Module TwitterCard.
Record t := mk {
  card : option string;
  title : option string;
  description : option string;
  image : option string
}.
End TwitterCard.

(** [$('s1, s2')]: the elements matching either selector, in document order. *)
Definition select_any (doc : Document) (sels : list Selector.t) : list Element.t :=
  filter (fun e => existsb (fun sel => matches sel e) sels) doc.

(** [selection.first()]. *)
Definition first_of (selection : list Element.t) : list Element.t := firstn 1 selection.

Definition extractDates `{Platform} (html : string) : Dates.t :=
  let doc := load html in
  let ogPublished :=
    attr (select doc (by_tag_attr "meta" "property" "article:published_time")) "content" in
  let published := if Js.truthy ogPublished then ogPublished else None in
  let publishedSource :=
    if Js.truthy ogPublished then Some "article:published_time meta tag" else None in
  let ogModified :=
    attr (select doc (by_tag_attr "meta" "property" "article:modified_time")) "content" in
  let modified := if Js.truthy ogModified then ogModified else None in
  let modifiedSource :=
    if Js.truthy ogModified then Some "article:modified_time meta tag" else None in
  let timeTag := first_of (select doc (having_attr (Some "time") "datetime")) in
  if negb (Js.truthy published) && negb (Nat.eqb (List.length timeTag) 0)
  then Dates.mk (Js.or_null (attr timeTag "datetime")) (Some "time tag")
                modified modifiedSource
  else Dates.mk published publishedSource modified modifiedSource.

Definition extractAuthor `{Platform} (html : string) : Author.t :=
  let doc := load html in
  let authorLink :=
    first_of (select_any doc [by_tag_attr "link" "rel" "author";
                              by_tag_attr "a" "rel" "author"]) in
  let found := negb (Nat.eqb (List.length authorLink) 0) in
  let name :=
    if found then
      Js.or_null (if Js.truthy (Some (Js.trim (text authorLink)))
                  then Some (Js.trim (text authorLink))
                  else attr authorLink "title")
    else None in
  let link := if found then Js.or_null (attr authorLink "href") else None in
  let source := if found then Some ("rel=" ++ quote ++ "author" ++ quote ++ " link")%string
                else None in
  let metaAuthor := attr (select doc (by_tag_attr "meta" "name" "author")) "content" in
  if negb (Js.truthy name) && Js.truthy metaAuthor
  then Author.mk metaAuthor link (Some "meta author tag")
  else Author.mk name link source.

Definition extractOpenGraph `{Platform} (html : string) : OpenGraph.t :=
  let doc := load html in
  OpenGraph.mk
    (trimmed_or_null (attr (select doc (by_tag_attr "meta" "property" "og:title")) "content"))
    (trimmed_or_null (attr (select doc (by_tag_attr "meta" "property" "og:description")) "content"))
    (trimmed_or_null (attr (select doc (by_tag_attr "meta" "property" "og:image")) "content"))
    (trimmed_or_null (attr (select doc (by_tag_attr "meta" "property" "og:type")) "content")).

Definition extractTwitterCard `{Platform} (html : string) : TwitterCard.t :=
  let doc := load html in
  TwitterCard.mk
    (trimmed_or_null (attr (select doc (by_tag_attr "meta" "name" "twitter:card")) "content"))
    (trimmed_or_null (attr (select doc (by_tag_attr "meta" "name" "twitter:title")) "content"))
    (trimmed_or_null (attr (select doc (by_tag_attr "meta" "name" "twitter:description")) "content"))
    (trimmed_or_null (attr (select doc (by_tag_attr "meta" "name" "twitter:image")) "content")).

(** ** More vocabulary of the properties *)

(** A method that issues at most [n] axios calls; the redirects a call
    follows are part of that call's exchange and are not counted. *)
Definition sends_at_most `{Platform} {A} (n : nat) (c : M A) : Prop :=
  forall s, exists l, sent (snd (c s)) = sent s ++ l /\ (List.length l <= n)%nat.

(** The probe [detectAmpUrl] sends for a candidate URL. *)
Definition amp_probe (ampUrl : string) : Request.t :=
  Request.mk HEAD ampUrl 3000 None None (fun _ => true).

(** The request of [fetchRobotsTxt]. *)
Definition robots_request (robotsUrl : Url.t) : Request.t :=
  Request.mk GET (Url.href robotsUrl) 5000 None None default_validateStatus.

(** A text field of a fact bundle: absent, or a non-empty trimmed string. *)
Definition clean_text (v : option string) : Prop :=
  match v with
  | None => True
  | Some s => s <> "" /\ Js.trim s = s
  end.

(** The scores [calculateScore] can return. *)
Definition score_values : list Z :=
  [0; 7; 14; 21; 29; 36; 43; 50; 57; 64; 71; 79; 86; 93; 100].

(** A rule as [parseRobotsTxt] builds them. *)
Definition rule_wf (r : Rule.t) : Prop :=
  In (Rule.directive r) recognised /\
  Js.trim (Rule.path r) = Rule.path r /\
  Js.trim (Rule.userAgent r) = Rule.userAgent r.


(** The nine rules of [calculateScore], one at a time, as functions of the
    running tally. *)
Definition rule_title (data : AnalysisData.t) (t : Scores.t) : Scores.t :=
  let m := AnalysisData.metaTags data in
  if Js.truthy (MetaTags.title m) then
    if (50 <=? MetaTags.titleLength m) && (MetaTags.titleLength m <=? 60)
    then earn 10 t else warn 5 t
  else issue 1 t.

Definition rule_description (data : AnalysisData.t) (t : Scores.t) : Scores.t :=
  let m := AnalysisData.metaTags data in
  if Js.truthy (MetaTags.description m) then
    if (150 <=? MetaTags.descriptionLength m) && (MetaTags.descriptionLength m <=? 160)
    then earn 10 t else warn 5 t
  else issue 1 t.

Definition rule_canonical (data : AnalysisData.t) (t : Scores.t) : Scores.t :=
  let m := AnalysisData.metaTags data in
  if Js.truthy (MetaTags.canonical m) then
    if MetaTags.canonicalMatches m then earn 5 t else warn 0 t
  else warn 0 t.

Definition rule_robots (data : AnalysisData.t) (t : Scores.t) : Scores.t :=
  let m := AnalysisData.metaTags data in
  if Js.truthy (MetaTags.robots m) && MetaTags.robotsValid m
  then earn 5 t else warn 0 t.

Definition rule_htmlLang (data : AnalysisData.t) (t : Scores.t) : Scores.t :=
  if Js.truthy (MetaTags.htmlLang (AnalysisData.metaTags data))
  then earn 5 t else warn 0 t.

Definition rule_schema (data : AnalysisData.t) (t : Scores.t) : Scores.t :=
  if Schema.found (AnalysisData.schema data) then earn 15 t else issue 1 t.

Definition rule_robotsTxt (data : AnalysisData.t) (t : Scores.t) : Scores.t :=
  if RobotsTxt.found (AnalysisData.robotsTxt data) then earn 5 t else warn 0 t.

Definition broken_count (data : AnalysisData.t) : Z :=
  Z.of_nat (List.length (Links.broken (AnalysisData.links data))).

Definition rule_broken (data : AnalysisData.t) (t : Scores.t) : Scores.t :=
  if broken_count data =? 0 then earn 10 t else issue (broken_count data) t.

Definition rule_breadcrumbs (data : AnalysisData.t) (t : Scores.t) : Scores.t :=
  if Breadcrumbs.found (AnalysisData.breadcrumbs data) then earn 5 t else warn 0 t.

(** What one rule worth [points] does to the tally: it passes, or warns
    with fewer points, or raises issues. *)
Definition rule_step (points : Z) (t t' : Scores.t) : Prop :=
  t' = earn points t \/
  (exists q j, 0 <= q < points /\ q = 5 * j /\ t' = warn q t) \/
  (exists n, 1 <= n /\ t' = issue n t).

(** The tally after [k] rules worth [M] points in all. *)
Definition tally_inv (k M : Z) (t : Scores.t) : Prop :=
  0 <= Scores.score t <= M /\
  (exists j, Scores.score t = 5 * j) /\
  0 <= Scores.passed t <= k /\
  0 <= Scores.issues t /\
  0 <= Scores.warnings t /\
  (Scores.score t = M <-> Scores.passed t = k) /\
  (Scores.passed t = k <-> Scores.issues t = 0 /\ Scores.warnings t = 0).
(** ** Storage: [MemStorage] of [server/storage.ts] *)

Module User.
Record t := mk { id : Z; username : string; password : string }.
End User.

Module InsertUser.
Record t := mk { username : string; password : string }.
End InsertUser.

Module InsertSeoAnalysis.
Record t := mk { url : string; analysisData : SEOAnalysisResult.t }.
End InsertSeoAnalysis.

Module SeoAnalysis.
Record t := mk {
  url : string;
  analysisData : SEOAnalysisResult.t;
  id : Z;
  createdAt : Z;
  isAmp : bool;
  ampUrl : option string;
  regularUrl : option string;
  score : option Z;
  issues : option Z;
  warnings : option Z;
  passed : option Z
}.
End SeoAnalysis.

Module InsertScheduledScan.
Record t := mk {
  url : string;
  userEmail : string;
  frequency : option string;
  customTime : option string;
  customDays : option (list Z);
  timeZone : option string
}.
End InsertScheduledScan.

Module ScheduledScan.
Record t := mk {
  url : string;
  userEmail : string;
  frequency : option string;
  customTime : option string;
  customDays : option (list Z);
  timeZone : option string;
  id : Z;
  isActive : bool;
  lastScan : option Z;
  nextScan : Z;
  createdAt : Z;
  lastResults : option Json
}.
(** [scan.isActive = false] on the stored object. *)
Definition deactivate (scan : t) : t :=
  mk (url scan) (userEmail scan) (frequency scan) (customTime scan) (customDays scan)
     (timeZone scan) (id scan) false (lastScan scan) (nextScan scan) (createdAt scan)
     (lastResults scan).
End ScheduledScan.

Module ScanAlert.
Record t := mk {
  id : Z;
  scheduledScanId : Z;
  url : string;
  changeType : string;
  changeDetails : Json;
  severity : string;
  isRead : bool;
  createdAt : Z
}.
Definition read (alert : t) : t :=
  mk (id alert) (scheduledScanId alert) (url alert) (changeType alert)
     (changeDetails alert) (severity alert) true (createdAt alert).
End ScanAlert.

(** A JavaScript [Map] with number keys: its entries in insertion order. *)
Module JsMap.
Section WithValue.
Variable V : Type.

Definition t := list (Z * V).

Fixpoint get (k : Z) (m : t) : option V :=
  match m with
  | [] => None
  | (k', v) :: rest => if k' =? k then Some v else get k rest
  end.

(** [set]: an existing key keeps its place, a new one goes last. *)
Fixpoint set (k : Z) (v : V) (m : t) : t :=
  match m with
  | [] => [(k, v)]
  | (k', v') :: rest => if k' =? k then (k, v) :: rest else (k', v') :: set k v rest
  end.

Definition values (m : t) : list V := map snd m.
Definition keys (m : t) : list Z := map fst m.

End WithValue.
Arguments get {V} k m.
Arguments set {V} k v m.
Arguments values {V} m.
Arguments keys {V} m.
End JsMap.

(** [date.setDate(date.getDate() + n)]: the calendar of the host's time
    zone, which the embedding does not fix. *)
Class Calendar := { add_days : Z -> Z -> Z }.

(** Ids are JavaScript numbers, exact on the integers below 2^53; the
    counters, which start at 1 and grow by one, are modelled as integers.
    The methods are [async] without an [await] inside: each runs to its end
    before anything else touches the storage. *)
Module MemStorage.

Record t := mk {
  users : JsMap.t User.t;
  seoAnalyses : JsMap.t SeoAnalysis.t;
  scheduledScans : JsMap.t ScheduledScan.t;
  scanAlerts : JsMap.t ScanAlert.t;
  currentUserId : Z;
  currentAnalysisId : Z;
  currentScanId : Z;
  currentAlertId : Z
}.

(** The constructor. *)
Definition empty : t := mk [] [] [] [] 1 1 1 1.

Definition getUser (id : Z) (st : t) : option User.t := JsMap.get id (users st).

Definition getUserByUsername (username : string) (st : t) : option User.t :=
  find (fun user => (User.username user =? username)%string) (JsMap.values (users st)).

Definition createUser (insertUser : InsertUser.t) (st : t) : User.t * t :=
  let id := currentUserId st in
  let user := User.mk id (InsertUser.username insertUser) (InsertUser.password insertUser) in
  (user,
   mk (JsMap.set id user (users st)) (seoAnalyses st) (scheduledScans st) (scanAlerts st)
      (id + 1) (currentAnalysisId st) (currentScanId st) (currentAlertId st)).

(** [now] is what [new Date()] reads. *)
Definition createSeoAnalysis (insertAnalysis : InsertSeoAnalysis.t) (now : Z) (st : t)
  : SeoAnalysis.t * t :=
  let id := currentAnalysisId st in
  let analysis :=
    SeoAnalysis.mk (InsertSeoAnalysis.url insertAnalysis)
                   (InsertSeoAnalysis.analysisData insertAnalysis)
                   id now false None None None None None None in
  (analysis,
   mk (users st) (JsMap.set id analysis (seoAnalyses st)) (scheduledScans st)
      (scanAlerts st)
      (currentUserId st) (id + 1) (currentScanId st) (currentAlertId st)).

Definition getSeoAnalysis (id : Z) (st : t) : option SeoAnalysis.t :=
  JsMap.get id (seoAnalyses st).

Definition getSeoAnalysesByUrl (url : string) (st : t) : list SeoAnalysis.t :=
  filter (fun analysis => (SeoAnalysis.url analysis =? url)%string)
         (JsMap.values (seoAnalyses st)).

(** [now1] and [now2] are the two readings of [new Date()]. *)
Definition createScheduledScan `{Calendar} (insertScan : InsertScheduledScan.t)
           (now1 now2 : Z) (st : t) : ScheduledScan.t * t :=
  let id := currentScanId st in
  let nextScan := add_days now1 1 in
  let scan :=
    ScheduledScan.mk (InsertScheduledScan.url insertScan)
                     (InsertScheduledScan.userEmail insertScan)
                     (InsertScheduledScan.frequency insertScan)
                     (InsertScheduledScan.customTime insertScan)
                     (InsertScheduledScan.customDays insertScan)
                     (InsertScheduledScan.timeZone insertScan)
                     id true None nextScan now2 None in
  (scan,
   mk (users st) (seoAnalyses st) (JsMap.set id scan (scheduledScans st)) (scanAlerts st)
      (currentUserId st) (currentAnalysisId st) (id + 1) (currentAlertId st)).

Definition getScheduledScans (userEmail : string) (st : t) : list ScheduledScan.t :=
  filter (fun scan => (ScheduledScan.userEmail scan =? userEmail)%string
                      && ScheduledScan.isActive scan)
         (JsMap.values (scheduledScans st)).

Definition deleteScheduledScan (id : Z) (userEmail : string) (st : t) : bool * t :=
  match JsMap.get id (scheduledScans st) with
  | Some scan =>
      if (ScheduledScan.userEmail scan =? userEmail)%string then
        (true,
         mk (users st) (seoAnalyses st)
            (JsMap.set id (ScheduledScan.deactivate scan) (scheduledScans st))
            (scanAlerts st)
            (currentUserId st) (currentAnalysisId st) (currentScanId st)
            (currentAlertId st))
      else (false, st)
  | None => (false, st)
  end.

(** The scan of an alert belongs to the user. *)
Definition owned_by (userEmail : string) (st : t) (alert : ScanAlert.t) : bool :=
  match JsMap.get (ScanAlert.scheduledScanId alert) (scheduledScans st) with
  | Some scan => (ScheduledScan.userEmail scan =? userEmail)%string
  | None => false
  end.

Definition getScanAlerts (userEmail : string) (st : t) : list ScanAlert.t :=
  filter (owned_by userEmail st) (JsMap.values (scanAlerts st)).

Definition markAlertAsRead (alertId : Z) (userEmail : string) (st : t) : bool * t :=
  match JsMap.get alertId (scanAlerts st) with
  | Some alert =>
      if owned_by userEmail st alert then
        (true,
         mk (users st) (seoAnalyses st) (scheduledScans st)
            (JsMap.set alertId (ScanAlert.read alert) (scanAlerts st))
            (currentUserId st) (currentAnalysisId st) (currentScanId st)
            (currentAlertId st))
      else (false, st)
  | None => (false, st)
  end.

(** A call that may change the storage. *)
Inductive Call :=
| CreateUser (insertUser : InsertUser.t)
| CreateSeoAnalysis (insertAnalysis : InsertSeoAnalysis.t) (now : Z)
| CreateScheduledScan (insertScan : InsertScheduledScan.t) (now1 now2 : Z)
| DeleteScheduledScan (id : Z) (userEmail : string)
| MarkAlertAsRead (alertId : Z) (userEmail : string).

Definition perform `{Calendar} (st : t) (call : Call) : t :=
  match call with
  | CreateUser u => snd (createUser u st)
  | CreateSeoAnalysis a now => snd (createSeoAnalysis a now st)
  | CreateScheduledScan i now1 now2 => snd (createScheduledScan i now1 now2 st)
  | DeleteScheduledScan id userEmail => snd (deleteScheduledScan id userEmail st)
  | MarkAlertAsRead id userEmail => snd (markAlertAsRead id userEmail st)
  end.

(** The storages a server can be in: [empty] after any calls. *)
Definition reachable `{Calendar} (st : t) : Prop :=
  exists calls, st = fold_left perform calls empty.

(** The keys of a map are the ids [1 .. next - 1] in order, each value
    carrying its key. *)
Definition sequential {V} (id_of : V -> Z) (next : Z) (m : JsMap.t V) : Prop :=
  1 <= next /\
  JsMap.keys m = map Z.of_nat (seq 1 (Z.to_nat (next - 1))) /\
  Forall (fun kv => id_of (snd kv) = fst kv) m.

Definition invariant (st : t) : Prop :=
  sequential User.id (currentUserId st) (users st) /\
  sequential SeoAnalysis.id (currentAnalysisId st) (seoAnalyses st) /\
  sequential ScheduledScan.id (currentScanId st) (scheduledScans st) /\
  scanAlerts st = [] /\
  currentAlertId st = 1.

End MemStorage.

(** ** The server: routes and scheduler over the network and the storage *)

(** As for the analyzer, one handler is followed from its start to its
    answer, with no other handler running in between. *)

Record Server `{Platform} := mkServer {
  net : Net;
  storage : MemStorage.t;
  isRunning : bool
}.
Arguments mkServer {_} net storage isRunning.

Definition App `{Platform} (A : Type) : Type := Server -> Outcome A * Server.

(** What a route answers: the status and the JSON body. *)
Inductive Reply :=
| Analyzed (data : SEOAnalysisResult.t) (analysisId : Z)
| Failed (error : string).

Module HttpReply.
Record t := mk { status : Z; body : Reply }.
End HttpReply.

Section ServerMethods.
Context `{Platform}.

(** [await seoAnalyzer.analyzeWebsite(url)] inside the server. *)
Definition run_analysis (url : string) : App SEOAnalysisResult.t :=
  fun sv =>
    let '(o, n) := analyzeWebsite url (net sv) in
    (o, mkServer n (storage sv) (isRunning sv)).

(** [await storage.createSeoAnalysis(...)], dated by the clock. *)
Definition store_analysis (insertAnalysis : InsertSeoAnalysis.t) : App SeoAnalysis.t :=
  fun sv =>
    let '(a, st) :=
      MemStorage.createSeoAnalysis insertAnalysis (Date_now (world (net sv))) (storage sv) in
    (Ok a, mkServer (net sv) st (isRunning sv)).

(** [error instanceof Error ? error.message : "Analysis failed"]. *)
Definition analysis_error (error : Thrown) : string :=
  match error with
  | ErrorObj m => m
  | NonError => "Analysis failed"
  end.

(** The handler of [POST /api/analyze]; [parsed] is the outcome of
    [urlAnalysisSchema.parse(req.body)]. *)
Definition post_analyze (parsed : Outcome string) (sv : Server) : HttpReply.t * Server :=
  match parsed with
  | Throw error => (HttpReply.mk 400 (Failed (analysis_error error)), sv)
  | Ok url =>
      match run_analysis url sv with
      | (Throw error, sv1) => (HttpReply.mk 400 (Failed (analysis_error error)), sv1)
      | (Ok analysisResult, sv1) =>
          match store_analysis
                  (InsertSeoAnalysis.mk (SEOAnalysisResult.url analysisResult) analysisResult)
                  sv1 with
          | (Ok storedAnalysis, sv2) =>
              (HttpReply.mk 200 (Analyzed analysisResult (SeoAnalysis.id storedAnalysis)),
               sv2)
          | (Throw error, sv2) => (HttpReply.mk 400 (Failed (analysis_error error)), sv2)
          end
      end
  end.

(** [ScheduledScannerService]: the console is not modelled, so
    [checkForChanges] and [updateScheduledScan], which only log, do nothing. *)
Definition getAllActiveScans : App (list ScheduledScan.t) := fun sv => (Ok [], sv).

Definition shouldRunScan (scan : ScheduledScan.t) (sv : Server) : bool :=
  ScheduledScan.nextScan scan <=? Date_now (world (net sv)).

Definition checkForChanges (scan : ScheduledScan.t) (newResults : SEOAnalysisResult.t)
  : App unit := fun sv => (Ok tt, sv).

Definition updateScheduledScan (scan : ScheduledScan.t) (results : SEOAnalysisResult.t)
  : App unit := fun sv => (Ok tt, sv).

Definition runScheduledScan (scan : ScheduledScan.t) (sv : Server) : Server :=
  match run_analysis (ScheduledScan.url scan) sv with
  | (Throw _, sv1) => sv1
  | (Ok analysisResult, sv1) =>
      match store_analysis (InsertSeoAnalysis.mk (ScheduledScan.url scan) analysisResult)
                           sv1 with
      | (Throw _, sv2) => sv2
      | (Ok _, sv2) =>
          let sv3 :=
            if is_defined (ScheduledScan.lastResults scan)
            then snd (checkForChanges scan analysisResult sv2) else sv2 in
          snd (updateScheduledScan scan analysisResult sv3)
      end
  end.

(** The loop of [checkScheduledScans] over the scans. *)
Fixpoint run_due (scans : list ScheduledScan.t) (sv : Server) : Server :=
  match scans with
  | [] => sv
  | scan :: rest =>
      run_due rest (if shouldRunScan scan sv then runScheduledScan scan sv else sv)
  end.

Definition checkScheduledScans (sv : Server) : Server :=
  if isRunning sv then sv
  else
    let sv1 := mkServer (net sv) (storage sv) true in
    let sv2 :=
      match getAllActiveScans sv1 with
      | (Ok scans, sv') => run_due scans sv'
      | (Throw _, sv') => sv'
      end in
    mkServer (net sv2) (storage sv2) false.

End ServerMethods.


(** ** A scripted server *)

Module DemoServer.

(** The calendar of UTC: a day is 86 400 000 ms. *)
#[local] Instance calendar : Calendar := {| add_days := fun t n => t + n * 86400000 |}.

Definition result : SEOAnalysisResult.t :=
  SEOAnalysisResult.mk Demo.example_data 79 1 1 7 false None
                       (Some "https://example.com/article") None.

Definition scan_of (userEmail : string) : InsertScheduledScan.t :=
  InsertScheduledScan.mk "example.com/article" userEmail (Some "daily") None None None.

(** Two scans of Ann, one of Bob, one stored analysis and one user. *)
Definition calls : list MemStorage.Call :=
  [MemStorage.CreateScheduledScan (scan_of "ann@example.com") 10 11;
   MemStorage.CreateScheduledScan (scan_of "bob@example.com") 20 21;
   MemStorage.CreateScheduledScan (scan_of "ann@example.com") 30 31;
   MemStorage.CreateSeoAnalysis
     (InsertSeoAnalysis.mk "https://example.com/article" result) 40;
   MemStorage.CreateUser (InsertUser.mk "ann" "secret")].

Definition busy : MemStorage.t := fold_left MemStorage.perform calls MemStorage.empty.

Definition server : @Server Demo.platform :=
  @mkServer Demo.platform Demo.start MemStorage.empty false.

End DemoServer.
(** * Properties *)

(** ** Scorer *)


Lemma earn_nonneg pts t : nonneg_tallies t -> nonneg_tallies (earn pts t).
Proof. unfold nonneg_tallies, earn; simpl; lia. Qed.

Lemma warn_nonneg pts t : nonneg_tallies t -> nonneg_tallies (warn pts t).
Proof. unfold nonneg_tallies, warn; simpl; lia. Qed.

Lemma issue_nonneg n t : 0 <= n -> nonneg_tallies t -> nonneg_tallies (issue n t).
Proof. unfold nonneg_tallies, issue; simpl; lia. Qed.

Lemma rubric_nonneg data : nonneg_tallies (rubric data).
Proof.
  unfold rubric.
  repeat match goal with
         | |- context [if ?b then _ else _] => destruct b
         end;
    repeat first [ apply earn_nonneg | apply warn_nonneg | apply issue_nonneg; [lia|] ];
    unfold nonneg_tallies, tally0; simpl; lia.
Qed.

(** On every raw total the rubric can reach, the binary64 computation of
    [normalize] is the exact rounding of 100 * points / 70 to the nearest
    integer. *)
Lemma normalize_exact :
  forallb (fun points => normalize points =? (200 * points + 70) / 140)
          (map (fun k => 5 * Z.of_nat k) (seq 0 15)) = true.
Proof. vm_compute. reflexivity. Qed.

(** C3: for every fact bundle the score of [calculateScore] lies in
    [0,100] and the issues, warnings and passed counts are not negative. *)
Theorem calculateScore_bounds (data : AnalysisData.t) :
  0 <= Scores.score (calculateScore data) <= 100 /\
  0 <= Scores.issues (calculateScore data) /\
  0 <= Scores.warnings (calculateScore data) /\
  0 <= Scores.passed (calculateScore data).
Proof.
  split.
  - unfold calculateScore; simpl. lia.
  - exact (rubric_nonneg data).
Qed.


(** C2, as amended: on the scoring example the rubric earns 55 points, so
    [calculateScore] returns score 79 with one issue, one warning and seven
    passed checks. *)
Theorem calculateScore_example (data : AnalysisData.t) :
  scoring_example data ->
  calculateScore data = Scores.mk 79 1 1 7.
Proof.
  unfold scoring_example; cbv zeta.
  intros (Ht & Hl & Hd & Hc & Hm & Hr & Hv & Hh & Hs & Hx & Hb & Hc').
  unfold calculateScore, rubric.
  rewrite Ht, Hl, Hd, Hc, Hm, Hr, Hv, Hh, Hs, Hx, Hb, Hc'.
  vm_compute. reflexivity.
Qed.

Lemma calculateScore_example_witness :
  scoring_example Demo.example_data /\
  calculateScore Demo.example_data = Scores.mk 79 1 1 7.
Proof.
  assert (H : scoring_example Demo.example_data).
  { unfold scoring_example; cbv zeta; simpl. repeat split; reflexivity. }
  split; [exact H | exact (calculateScore_example Demo.example_data H)].
Defined.

(** C2, as stated, fails on the example bundle: the score is not 86 and the
    passed count is not 6. *)
Lemma scoring_example_as_stated_fails :
  scoring_example Demo.example_data /\
  Scores.score (calculateScore Demo.example_data) <> 86 /\
  Scores.passed (calculateScore Demo.example_data) <> 6 /\
  calculateScore Demo.example_data <> Scores.mk 86 1 1 6.
Proof.
  split.
  - unfold scoring_example; cbv zeta; simpl. repeat split; reflexivity.
  - repeat split; vm_compute; discriminate.
Qed.

(** ** robots.txt rules *)

Section SplitJoin.
Variable sep : ascii.

Lemma split_not_nil (s : string) : Js.split sep s <> [].
Proof.
  induction s as [|c t IH]; simpl; [discriminate|].
  destruct (Ascii.eqb c sep); [discriminate|].
  destruct (Js.split sep t); discriminate.
Qed.

Lemma concat_cons (x : string) (xs : list string) :
  xs <> [] ->
  String.concat (String sep "") (x :: xs)
  = (x ++ String sep (String.concat (String sep "") xs))%string.
Proof.
  destruct xs as [|y ys]; [congruence|]. intros _. reflexivity.
Qed.

Lemma concat_push (c : ascii) (h : string) (r : list string) :
  String.concat (String sep "") (String c h :: r)
  = String c (String.concat (String sep "") (h :: r)).
Proof. destruct r; reflexivity. Qed.

(** Joining the pieces of a split with the separator gives the string back. *)
Lemma join_split (s : string) : Js.join (String sep "") (Js.split sep s) = s.
Proof.
  unfold Js.join.
  induction s as [|c t IH]; simpl; [reflexivity|].
  destruct (Ascii.eqb_spec c sep) as [->|Hne].
  - rewrite concat_cons by apply split_not_nil. simpl. now rewrite IH.
  - pose proof (split_not_nil t) as Hnil.
    destruct (Js.split sep t) as [|h r]; [congruence|].
    rewrite concat_push. now rewrite IH.
Qed.

End SplitJoin.

(** [split(':')] followed by [join(':')] of the tail cuts at the first colon. *)
Lemma split_colon (s : string) :
  exists directive pathParts,
    Js.split ":" s = directive :: pathParts /\
    directive = before_first_colon s /\
    Js.join ":" pathParts = after_first_colon s.
Proof.
  induction s as [|c t IH]; simpl.
  - exists "", []. repeat split.
  - destruct (Ascii.eqb c ":") eqn:E.
    + exists "", (Js.split ":" t). repeat split. apply (join_split ":").
    + destruct IH as (d & p & Hs & Hd & Hp). rewrite Hs.
      exists (String c d), p. repeat split; congruence.
Qed.

Lemma parse_line_policy (currentUserAgent : string) (rules : list Rule.t) (line : string) :
  parse_line (currentUserAgent, rules) line =
  if ignored_line line then (currentUserAgent, rules)
  else
    let key := Js.toLowerCase (before_first_colon (Js.trim line)) in
    let value := Js.trim (after_first_colon (Js.trim line)) in
    if (key =? "user-agent")%string then (value, rules)
    else if Js.array_includes recognised key
    then (currentUserAgent, rules ++ [Rule.mk currentUserAgent key value])
    else (currentUserAgent, rules).
Proof.
  unfold parse_line, ignored_line.
  destruct ((Js.trim line =? "")%string || Js.startsWith (Js.trim line) "#"); [reflexivity|].
  destruct (split_colon (Js.trim line)) as (d & p & Hs & Hd & Hp).
  rewrite Hs, Hp, Hd. reflexivity.
Qed.

Lemma fold_parse_line (lines : list string) (group : string) (rules : list Rule.t) :
  snd (fold_left parse_line lines (group, rules)) = rules ++ policy_rules group lines.
Proof.
  revert group rules.
  induction lines as [|l rest IH]; intros group rules; cbn [fold_left policy_rules].
  - simpl. now rewrite app_nil_r.
  - rewrite parse_line_policy.
    destruct (ignored_line l); [apply IH|]. cbv zeta.
    destruct (Js.toLowerCase (before_first_colon (Js.trim l)) =? "user-agent")%string;
      [apply IH|].
    destruct (Js.array_includes recognised _); [|apply IH].
    rewrite IH, <- app_assoc. reflexivity.
Qed.

(** C4: [parseRobotsTxt] follows the line-oriented policy (blank and [#]
    lines ignored, each other line cut at its first colon, [user-agent]
    lines setting the group that starts as [*], allow, disallow and sitemap
    lines appended in file order with the directive lowercased, other
    directives ignored), and on the three-line example it returns the
    disallow rule and then the sitemap rule, both of group [*]. *)
Theorem parseRobotsTxt_policy :
  (forall content : string,
      parseRobotsTxt content = policy_rules "*" (Js.split "010" content)) /\
  parseRobotsTxt
    ("User-agent: *" ++ String "010" "Disallow: /admin"
                     ++ String "010" "Sitemap: /sitemap.xml")%string
  = [Rule.mk "*" "disallow" "/admin"; Rule.mk "*" "sitemap" "/sitemap.xml"].
Proof.
  split.
  - intros content. unfold parseRobotsTxt.
    destruct (String.eqb_spec content "") as [->|_]; [reflexivity|].
    now rewrite fold_parse_line.
  - vm_compute. reflexivity.
Qed.


(** ** More on the ECMAScript helpers *)

Lemma trimStart_idem (s : string) : Js.trimStart (Js.trimStart s) = Js.trimStart s.
Proof.
  induction s as [|c t IH]; simpl; [reflexivity|].
  destruct (Js.isWhiteSpace c) eqn:E; [exact IH|]. simpl. now rewrite E.
Qed.

Lemma trimEnd_idem (s : string) : Js.trimEnd (Js.trimEnd s) = Js.trimEnd s.
Proof.
  induction s as [|c t IH]; simpl; [reflexivity|].
  destruct (Js.trimEnd t) as [|d t'] eqn:Et.
  - destruct (Js.isWhiteSpace c) eqn:E; simpl; [reflexivity|]. now rewrite E.
  - change (Js.trimEnd (String c (String d t')) = String c (String d t')).
    cbn [Js.trimEnd] in *. now rewrite IH.
Qed.

(** Trimming the end keeps a first character that is not white space. *)
Lemma trimStart_trimEnd (s : string) :
  Js.trimStart s = s -> Js.trimStart (Js.trimEnd s) = Js.trimEnd s.
Proof.
  destruct s as [|c t]; [reflexivity|]. simpl.
  destruct (Js.isWhiteSpace c) eqn:E.
  - intros Hs. exfalso.
    assert (Hlen : forall u, (String.length (Js.trimStart u) <= String.length u)%nat).
    { induction u as [|d u IH]; simpl; [lia|].
      destruct (Js.isWhiteSpace d); simpl; lia. }
    specialize (Hlen t). rewrite Hs in Hlen. simpl in Hlen. lia.
  - intros _. destruct (Js.trimEnd t); simpl; now rewrite E.
Qed.

(** [trim] is idempotent: a trimmed string has nothing left to trim. *)
Lemma trim_idem (s : string) : Js.trim (Js.trim s) = Js.trim s.
Proof.
  unfold Js.trim.
  rewrite (trimStart_trimEnd (Js.trimStart s)) by apply trimStart_idem.
  apply trimEnd_idem.
Qed.

Lemma prefix_split (p s : string) :
  String.prefix p s = true -> exists r, s = (p ++ r)%string.
Proof.
  revert s. induction p as [|c p IH]; intros s.
  - intros _. now exists s.
  - destruct s as [|d s]; simpl; [discriminate|].
    destruct (Ascii.ascii_dec c d) as [->|]; [|discriminate].
    intros Hp. destruct (IH _ Hp) as [r ->]. now exists r.
Qed.

Lemma prefix_append (p r : string) : String.prefix p (p ++ r) = true.
Proof.
  induction p as [|c p IH]; simpl; [now destruct r|].
  destruct (Ascii.ascii_dec c c); [exact IH|congruence].
Qed.

Lemma includes_unfold (s needle : string) :
  Js.includes s needle =
  String.prefix needle s ||
  match s with
  | EmptyString => false
  | String _ t => Js.includes t needle
  end.
Proof. destruct s; reflexivity. Qed.

(** [includes] finds exactly the needles that occur somewhere in the string. *)
Lemma includes_iff (s needle : string) :
  Js.includes s needle = true <-> exists a b, s = (a ++ needle ++ b)%string.
Proof.
  split.
  - induction s as [|c t IH]; rewrite includes_unfold; intros Hi;
      apply orb_true_iff in Hi; destruct Hi as [Hp|Hi]; try discriminate.
    + destruct (prefix_split _ _ Hp) as [r ->]. now exists "", r.
    + destruct (prefix_split _ _ Hp) as [r ->]. now exists "", r.
    + destruct (IH Hi) as (a & b & ->). now exists (String c a), b.
  - intros (a & b & ->). induction a as [|c a IH].
    + rewrite includes_unfold. simpl. now rewrite prefix_append.
    + change ((String c a ++ needle ++ b)%string)
        with (String c (a ++ needle ++ b)%string).
      rewrite includes_unfold, IH. apply orb_true_r.
Qed.

(** ** More on the scorer *)

(** [rubric] is its nine rules applied in turn. *)
Lemma rubric_rules (data : AnalysisData.t) :
  rubric data =
  rule_breadcrumbs data (rule_broken data (rule_robotsTxt data (rule_schema data
    (rule_htmlLang data (rule_robots data (rule_canonical data
      (rule_description data (rule_title data tally0)))))))).
Proof. reflexivity. Qed.

Lemma broken_count_nonneg (data : AnalysisData.t) : 0 <= broken_count data.
Proof. unfold broken_count. lia. Qed.

(** Split on the tests of the rule in the goal or in a hypothesis. *)
Ltac rule_cases :=
  unfold rule_title, rule_description, rule_canonical, rule_robots, rule_htmlLang,
    rule_schema, rule_robotsTxt, rule_broken, rule_breadcrumbs in *;
  cbv zeta in *;
  repeat match goal with
         | |- context [?a =? 0] => destruct (Z.eqb_spec a 0)
         | |- context [if ?b then _ else _] => destruct b
         end.

Ltac tally_simpl :=
  unfold earn, warn, issue, tally0 in *;
  cbn [Scores.score Scores.issues Scores.warnings Scores.passed] in *.

Ltac step_earn := left; reflexivity.
Ltac step_warn q j := right; left; exists q, j; repeat split; lia.
Ltac step_issue n := right; right; exists n; split; [lia|reflexivity].

Lemma step_title data t : rule_step 10 t (rule_title data t).
Proof. rule_cases; [step_earn|step_warn 5 1|step_issue 1]. Qed.

Lemma step_description data t : rule_step 10 t (rule_description data t).
Proof. rule_cases; [step_earn|step_warn 5 1|step_issue 1]. Qed.

Lemma step_canonical data t : rule_step 5 t (rule_canonical data t).
Proof. rule_cases; [step_earn|step_warn 0 0|step_warn 0 0]. Qed.

Lemma step_robots data t : rule_step 5 t (rule_robots data t).
Proof. rule_cases; [step_earn|step_warn 0 0]. Qed.

Lemma step_htmlLang data t : rule_step 5 t (rule_htmlLang data t).
Proof. rule_cases; [step_earn|step_warn 0 0]. Qed.

Lemma step_schema data t : rule_step 15 t (rule_schema data t).
Proof. rule_cases; [step_earn|step_issue 1]. Qed.

Lemma step_robotsTxt data t : rule_step 5 t (rule_robotsTxt data t).
Proof. rule_cases; [step_earn|step_warn 0 0]. Qed.

Lemma step_broken data t : rule_step 10 t (rule_broken data t).
Proof.
  pose proof (broken_count_nonneg data).
  rule_cases; [step_earn|step_issue (broken_count data)].
Qed.

Lemma step_breadcrumbs data t : rule_step 5 t (rule_breadcrumbs data t).
Proof. rule_cases; [step_earn|step_warn 0 0]. Qed.

(** A rule keeps the invariant of the tally. *)
Lemma tally_inv_step (k M points : Z) (t t' : Scores.t) :
  0 < points -> (exists j, points = 5 * j) ->
  tally_inv k M t -> rule_step points t t' -> tally_inv (k + 1) (M + points) t'.
Proof.
  intros Hp (jp & Hjp) (Hs & (j & Hj) & Hpa & Hi & Hw & Hsp & Hpz) Hstep.
  unfold tally_inv.
  assert (Hp9 : Scores.passed t = k -> Scores.score t = M) by apply Hsp.
  assert (Hs9 : Scores.score t = M -> Scores.passed t = k) by apply Hsp.
  assert (Hz1 : Scores.passed t = k -> Scores.issues t = 0 /\ Scores.warnings t = 0)
    by apply Hpz.
  assert (Hz2 : Scores.issues t = 0 /\ Scores.warnings t = 0 -> Scores.passed t = k)
    by apply Hpz.
  clear Hsp Hpz.
  destruct Hstep as [->|[(q & jq & Hq & Hjq & ->)|(n & Hn & ->)]]; tally_simpl.
  - split; [lia|]. split; [exists (j + jp); lia|].
    split; [lia|]. split; [lia|]. split; [lia|].
    split; split; intros.
    + assert (Scores.passed t = k) by (apply Hs9; lia). lia.
    + assert (Scores.score t = M) by (apply Hp9; lia). lia.
    + apply Hz1. lia.
    + assert (Scores.passed t = k) by (apply Hz2; assumption). lia.
  - split; [lia|]. split; [exists (j + jq); lia|].
    split; [lia|]. split; [lia|]. split; [lia|].
    split; split; intros; lia.
  - split; [lia|]. split; [exists j; lia|].
    split; [lia|]. split; [lia|]. split; [lia|].
    split; split; intros; lia.
Qed.

Lemma tally_inv_0 : tally_inv 0 0 tally0.
Proof.
  unfold tally_inv, tally0; cbn. repeat split; try lia. now exists 0.
Qed.

Lemma rubric_inv (data : AnalysisData.t) : tally_inv 9 70 (rubric data).
Proof.
  rewrite rubric_rules.
  assert (H5 : exists j, 5 = 5 * j) by (now exists 1).
  assert (H10 : exists j, 10 = 5 * j) by (now exists 2).
  assert (H15 : exists j, 15 = 5 * j) by (now exists 3).
  pose proof tally_inv_0 as I0.
  pose proof (tally_inv_step _ _ 10 _ _ ltac:(lia) H10 I0 (step_title data tally0)) as I1.
  pose proof (tally_inv_step _ _ 10 _ _ ltac:(lia) H10 I1 (step_description data _)) as I2.
  pose proof (tally_inv_step _ _ 5 _ _ ltac:(lia) H5 I2 (step_canonical data _)) as I3.
  pose proof (tally_inv_step _ _ 5 _ _ ltac:(lia) H5 I3 (step_robots data _)) as I4.
  pose proof (tally_inv_step _ _ 5 _ _ ltac:(lia) H5 I4 (step_htmlLang data _)) as I5.
  pose proof (tally_inv_step _ _ 15 _ _ ltac:(lia) H15 I5 (step_schema data _)) as I6.
  pose proof (tally_inv_step _ _ 5 _ _ ltac:(lia) H5 I6 (step_robotsTxt data _)) as I7.
  pose proof (tally_inv_step _ _ 10 _ _ ltac:(lia) H10 I7 (step_broken data _)) as I8.
  exact (tally_inv_step _ _ 5 _ _ ltac:(lia) H5 I8 (step_breadcrumbs data _)).
Qed.

(** The binary64 normalisation of each raw total, by evaluation. *)
Lemma normalize_table (j : Z) :
  0 <= j <= 14 -> normalize (5 * j) = nth (Z.to_nat j) score_values 0.
Proof.
  intros Hj.
  assert (Hc : j = 0 \/ j = 1 \/ j = 2 \/ j = 3 \/ j = 4 \/ j = 5 \/ j = 6 \/ j = 7 \/
               j = 8 \/ j = 9 \/ j = 10 \/ j = 11 \/ j = 12 \/ j = 13 \/ j = 14) by lia.
  repeat (destruct Hc as [->|Hc]); try subst j; vm_compute; reflexivity.
Qed.

Lemma raw_total (data : AnalysisData.t) :
  exists j, 0 <= j <= 14 /\ Scores.score (rubric data) = 5 * j.
Proof.
  destruct (rubric_inv data) as (Hs & (j & Hj) & _). exists j. split; [lia|exact Hj].
Qed.

(** Each of the nine rules moves exactly one tally, by one, except that
    broken links count one issue each. *)
Theorem calculateScore_tallies (data : AnalysisData.t) :
  let s := calculateScore data in
  Scores.passed s + Scores.warnings s + Scores.issues s
  = 8 + Z.max 1 (Z.of_nat (List.length (Links.broken (AnalysisData.links data)))).
Proof.
  cbv zeta. unfold calculateScore.
  cbn [Scores.passed Scores.warnings Scores.issues]. rewrite rubric_rules.
  fold (broken_count data). pose proof (broken_count_nonneg data).
  set (total := fun t => Scores.passed t + Scores.warnings t + Scores.issues t).
  assert (H1 : forall t, total (rule_title data t) = total t + 1)
    by (intros t; subst total; rule_cases; tally_simpl; lia).
  assert (H2 : forall t, total (rule_description data t) = total t + 1)
    by (intros t; subst total; rule_cases; tally_simpl; lia).
  assert (H3 : forall t, total (rule_canonical data t) = total t + 1)
    by (intros t; subst total; rule_cases; tally_simpl; lia).
  assert (H4 : forall t, total (rule_robots data t) = total t + 1)
    by (intros t; subst total; rule_cases; tally_simpl; lia).
  assert (H5 : forall t, total (rule_htmlLang data t) = total t + 1)
    by (intros t; subst total; rule_cases; tally_simpl; lia).
  assert (H6 : forall t, total (rule_schema data t) = total t + 1)
    by (intros t; subst total; rule_cases; tally_simpl; lia).
  assert (H7 : forall t, total (rule_robotsTxt data t) = total t + 1)
    by (intros t; subst total; rule_cases; tally_simpl; lia).
  assert (H8 : forall t, total (rule_broken data t) = total t + Z.max 1 (broken_count data))
    by (intros t; subst total; rule_cases; tally_simpl; lia).
  assert (H9 : forall t, total (rule_breadcrumbs data t) = total t + 1)
    by (intros t; subst total; rule_cases; tally_simpl; lia).
  match goal with |- ?p + ?w + ?i = _ =>
    match p with Scores.passed ?t => change (total t = 8 + Z.max 1 (broken_count data)) end
  end.
  rewrite H9, H8, H7, H6, H5, H4, H3, H2, H1. subst total. cbv beta.
  tally_simpl. lia.
Qed.

(** The score is one of fifteen values, the exact roundings of the
    multiples of 5 out of 70; the clamp never changes it. *)
Theorem calculateScore_values (data : AnalysisData.t) :
  In (Scores.score (calculateScore data)) score_values /\
  Scores.score (calculateScore data) = normalize (Scores.score (rubric data)) /\
  exists k, 0 <= k <= 14 /\ Scores.score (rubric data) = 5 * k /\
            Scores.score (calculateScore data) = (200 * (5 * k) + 70) / 140.
Proof.
  destruct (raw_total data) as (k & Hk & Hr).
  unfold calculateScore; cbn [Scores.score]. rewrite Hr, (normalize_table k Hk).
  assert (Hc : k = 0 \/ k = 1 \/ k = 2 \/ k = 3 \/ k = 4 \/ k = 5 \/ k = 6 \/ k = 7 \/
               k = 8 \/ k = 9 \/ k = 10 \/ k = 11 \/ k = 12 \/ k = 13 \/ k = 14) by lia.
  repeat (destruct Hc as [->|Hc]); try subst k;
    (split; [vm_compute; tauto|split; [vm_compute; reflexivity|]];
     eexists; split; [|split; [reflexivity|vm_compute; reflexivity]]; lia).
Qed.

(** The score is 100 exactly when all nine checks pass, that is when there
    is neither an issue nor a warning. *)
Theorem calculateScore_perfect (data : AnalysisData.t) :
  let s := calculateScore data in
  (Scores.score s = 100 <-> Scores.passed s = 9) /\
  (Scores.passed s = 9 <-> Scores.issues s = 0 /\ Scores.warnings s = 0).
Proof.
  cbv zeta. destruct (rubric_inv data) as (Hs & (j & Hj) & Hp & Hi & Hw & Hsp & Hpz).
  unfold calculateScore. cbn [Scores.score Scores.passed Scores.issues Scores.warnings].
  split; [|exact Hpz].
  rewrite <- Hsp, Hj, (normalize_table j) by lia.
  assert (Hc : j = 0 \/ j = 1 \/ j = 2 \/ j = 3 \/ j = 4 \/ j = 5 \/ j = 6 \/ j = 7 \/
               j = 8 \/ j = 9 \/ j = 10 \/ j = 11 \/ j = 12 \/ j = 13 \/ j = 14) by lia.
  repeat (destruct Hc as [->|Hc]); try subst j; vm_compute; split; congruence.
Qed.

(** At most three issues besides the broken links, seven warnings and
    nine passed checks. *)
Lemma calculateScore_tally_bounds (data : AnalysisData.t) :
  let s := calculateScore data in
  Scores.issues s <= 3 + Z.of_nat (List.length (Links.broken (AnalysisData.links data))) /\
  Scores.warnings s <= 7 /\
  Scores.passed s <= 9.
Proof.
  cbv zeta. unfold calculateScore.
  cbn [Scores.passed Scores.warnings Scores.issues].
  destruct (rubric_inv data) as (_ & _ & Hp & _).
  split; [|split; [|lia]]; rewrite rubric_rules;
    fold (broken_count data); pose proof (broken_count_nonneg data).
  - assert (H1 : forall t, Scores.issues (rule_title data t) <= Scores.issues t + 1)
      by (intros t; rule_cases; tally_simpl; lia).
    assert (H2 : forall t, Scores.issues (rule_description data t) <= Scores.issues t + 1)
      by (intros t; rule_cases; tally_simpl; lia).
    assert (H3 : forall t, Scores.issues (rule_canonical data t) = Scores.issues t)
      by (intros t; rule_cases; tally_simpl; lia).
    assert (H4 : forall t, Scores.issues (rule_robots data t) = Scores.issues t)
      by (intros t; rule_cases; tally_simpl; lia).
    assert (H5 : forall t, Scores.issues (rule_htmlLang data t) = Scores.issues t)
      by (intros t; rule_cases; tally_simpl; lia).
    assert (H6 : forall t, Scores.issues (rule_schema data t) <= Scores.issues t + 1)
      by (intros t; rule_cases; tally_simpl; lia).
    assert (H7 : forall t, Scores.issues (rule_robotsTxt data t) = Scores.issues t)
      by (intros t; rule_cases; tally_simpl; lia).
    assert (H8 : forall t, Scores.issues (rule_broken data t)
                           <= Scores.issues t + broken_count data)
      by (intros t; rule_cases; tally_simpl; lia).
    assert (H9 : forall t, Scores.issues (rule_breadcrumbs data t) = Scores.issues t)
      by (intros t; rule_cases; tally_simpl; lia).
    rewrite H9. etransitivity; [apply H8|]. rewrite H7.
    pose proof (H6 (rule_htmlLang data (rule_robots data (rule_canonical data
                  (rule_description data (rule_title data tally0)))))) as G6.
    rewrite H5, H4, H3 in G6.
    pose proof (H2 (rule_title data tally0)) as G2. pose proof (H1 tally0) as G1.
    cbn in G1. lia.
  - assert (H1 : forall t, Scores.warnings (rule_title data t) <= Scores.warnings t + 1)
      by (intros t; rule_cases; tally_simpl; lia).
    assert (H2 : forall t, Scores.warnings (rule_description data t) <= Scores.warnings t + 1)
      by (intros t; rule_cases; tally_simpl; lia).
    assert (H3 : forall t, Scores.warnings (rule_canonical data t) <= Scores.warnings t + 1)
      by (intros t; rule_cases; tally_simpl; lia).
    assert (H4 : forall t, Scores.warnings (rule_robots data t) <= Scores.warnings t + 1)
      by (intros t; rule_cases; tally_simpl; lia).
    assert (H5 : forall t, Scores.warnings (rule_htmlLang data t) <= Scores.warnings t + 1)
      by (intros t; rule_cases; tally_simpl; lia).
    assert (H6 : forall t, Scores.warnings (rule_schema data t) = Scores.warnings t)
      by (intros t; rule_cases; tally_simpl; lia).
    assert (H7 : forall t, Scores.warnings (rule_robotsTxt data t) <= Scores.warnings t + 1)
      by (intros t; rule_cases; tally_simpl; lia).
    assert (H8 : forall t, Scores.warnings (rule_broken data t) = Scores.warnings t)
      by (intros t; rule_cases; tally_simpl; lia).
    assert (H9 : forall t, Scores.warnings (rule_breadcrumbs data t) <= Scores.warnings t + 1)
      by (intros t; rule_cases; tally_simpl; lia).
    etransitivity; [apply H9|]. rewrite H8.
    pose proof (H7 (rule_schema data (rule_htmlLang data (rule_robots data
                  (rule_canonical data (rule_description data (rule_title data tally0)))))))
      as G7.
    rewrite H6 in G7.
    pose proof (H5 (rule_robots data (rule_canonical data
                  (rule_description data (rule_title data tally0))))) as G5.
    pose proof (H4 (rule_canonical data (rule_description data (rule_title data tally0))))
      as G4.
    pose proof (H3 (rule_description data (rule_title data tally0))) as G3.
    pose proof (H2 (rule_title data tally0)) as G2. pose proof (H1 tally0) as G1.
    cbn in G1. lia.
Qed.

Lemma rule_step_bounds (points : Z) (a b : Scores.t) :
  rule_step points a b ->
  0 <= points ->
  Scores.score a <= Scores.score b <= Scores.score a + points /\
  Scores.warnings a <= Scores.warnings b.
Proof.
  intros [->|[(q & jq & Hq & _ & ->)|(n & Hn & ->)]] Hp; tally_simpl; lia.
Qed.

(** Without a robots.txt and with no broken link, as when the two sides of
    an AMP comparison are scored, the score lies between 14 and 93 and
    there are at most three issues and at least one warning. *)
Lemma score_without_robots_and_links (data : AnalysisData.t) :
  RobotsTxt.found (AnalysisData.robotsTxt data) = false ->
  Links.broken (AnalysisData.links data) = [] ->
  let s := calculateScore data in
  14 <= Scores.score s <= 93 /\ 0 <= Scores.issues s <= 3 /\ 1 <= Scores.warnings s.
Proof.
  intros Hr Hb. cbv zeta.
  pose proof (calculateScore_tally_bounds data) as (Hi & _). rewrite Hb in Hi.
  cbn [List.length Z.of_nat] in Hi.
  pose proof (rubric_nonneg data) as (Hi0 & _).
  destruct (raw_total data) as (j & Hj & Hraw).
  unfold calculateScore in *.
  cbn [Scores.score Scores.issues Scores.warnings] in *.
  (* the raw total lies between 10 and 65, and robots.txt warns *)
  assert (Hbounds : 10 <= Scores.score (rubric data) <= 65 /\
                    1 <= Scores.warnings (rubric data)).
  { rewrite rubric_rules.
    set (t1 := rule_title data tally0).
    set (t2 := rule_description data t1).
    set (t3 := rule_canonical data t2).
    set (t4 := rule_robots data t3).
    set (t5 := rule_htmlLang data t4).
    set (t6 := rule_schema data t5).
    pose proof (rule_step_bounds _ _ _ (step_title data tally0)) as G1.
    pose proof (rule_step_bounds _ _ _ (step_description data t1)) as G2.
    pose proof (rule_step_bounds _ _ _ (step_canonical data t2)) as G3.
    pose proof (rule_step_bounds _ _ _ (step_robots data t3)) as G4.
    pose proof (rule_step_bounds _ _ _ (step_htmlLang data t4)) as G5.
    pose proof (rule_step_bounds _ _ _ (step_schema data t5)) as G6.
    fold t1 in G1, G2. fold t2 in G2, G3. fold t3 in G3, G4. fold t4 in G4, G5.
    fold t5 in G5, G6. fold t6 in G6.
    unfold tally0 in G1. cbn [Scores.score Scores.warnings] in G1.
    unfold rule_breadcrumbs, rule_broken, rule_robotsTxt, broken_count.
    rewrite Hr, Hb. cbn [List.length Z.of_nat Z.eqb].
    destruct (Breadcrumbs.found _); tally_simpl; lia. }
  destruct Hbounds as (Hraw' & Hw).
  split; [|split; [lia|exact Hw]].
  rewrite Hraw, (normalize_table j Hj).
  assert (Hc : j = 2 \/ j = 3 \/ j = 4 \/ j = 5 \/ j = 6 \/ j = 7 \/
               j = 8 \/ j = 9 \/ j = 10 \/ j = 11 \/ j = 12 \/ j = 13) by lia.
  repeat (destruct Hc as [->|Hc]); try subst j; vm_compute; split; discriminate.
Qed.

(** ** More on robots.txt rules *)

Lemma parseRobotsTxt_lines (content : string) :
  parseRobotsTxt content = policy_rules "*" (Js.split "010" content).
Proof.
  unfold parseRobotsTxt.
  destruct (String.eqb_spec content "") as [->|_]; [reflexivity|].
  now rewrite fold_parse_line.
Qed.

Lemma policy_rules_wf (lines : list string) :
  forall group,
    Js.trim group = group ->
    Forall rule_wf (policy_rules group lines) /\
    (List.length (policy_rules group lines) <= List.length lines)%nat.
Proof.
  induction lines as [|l rest IH]; intros group Hg; cbn [policy_rules].
  - split; [constructor|simpl; lia].
  - destruct (ignored_line l).
    { destruct (IH group Hg). split; [assumption|simpl; lia]. }
    cbv zeta.
    destruct (Js.toLowerCase (before_first_colon (Js.trim l)) =? "user-agent")%string.
    { destruct (IH _ (trim_idem (after_first_colon (Js.trim l)))).
      split; [assumption|simpl; lia]. }
    destruct (Js.array_includes recognised _) eqn:Ei.
    + destruct (IH group Hg) as [Hf Hl]. split; [|simpl; lia].
      constructor; [|exact Hf]. repeat split; cbn.
      * unfold Js.array_includes in Ei. apply existsb_exists in Ei.
        destruct Ei as (x & Hin & Hx). apply String.eqb_eq in Hx. now subst.
      * apply trim_idem.
      * exact Hg.
    + destruct (IH group Hg). split; [assumption|simpl; lia].
Qed.

Lemma parseRobotsTxt_wf (content : string) : Forall rule_wf (parseRobotsTxt content).
Proof. rewrite parseRobotsTxt_lines. now apply policy_rules_wf. Qed.

(** Every rule [parseRobotsTxt] returns has one of the three recognised
    directives, in lower case, and a trimmed path and user agent; there
    are never more rules than lines. *)
Theorem parseRobotsTxt_rules (content : string) :
  Forall rule_wf (parseRobotsTxt content) /\
  (List.length (parseRobotsTxt content) <= List.length (Js.split "010" content))%nat.
Proof.
  rewrite parseRobotsTxt_lines. apply policy_rules_wf. reflexivity.
Qed.


Lemma append_assoc (a b c : string) : ((a ++ b) ++ c = a ++ (b ++ c))%string.
Proof. induction a as [|x a IH]; simpl; [reflexivity|now rewrite IH]. Qed.

(** A string that contains [noindex] contains [index]. *)
Lemma includes_noindex (s : string) :
  Js.includes s "noindex" = true -> Js.includes s "index" = true.
Proof.
  intros Hn. apply includes_iff in Hn. destruct Hn as (a & b & ->).
  apply includes_iff. exists (a ++ "no")%string, b.
  now rewrite append_assoc.
Qed.

Lemma or_null_clean (v : option string) :
  (forall s, v = Some s -> Js.trim s = s) -> clean_text (Js.or_null v).
Proof.
  intros Ht. unfold Js.or_null. destruct v as [s|]; simpl; [|exact I].
  destruct (String.eqb_spec s ""); simpl; [exact I|]. split; [assumption|now apply Ht].
Qed.

Lemma trimmed_or_null_clean (v : option string) : clean_text (trimmed_or_null v).
Proof.
  unfold trimmed_or_null. apply or_null_clean.
  destruct v as [x|]; simpl; [|discriminate]. intros s [= <-]. apply trim_idem.
Qed.

Lemma or_null_not_empty (v : option string) : Js.or_null v <> Some "".
Proof.
  unfold Js.or_null. destruct v as [s|]; simpl; [|discriminate].
  destruct (String.eqb_spec s ""); simpl; congruence.
Qed.

Lemma clean_text_truthy (v : option string) :
  clean_text v -> Js.truthy v = is_defined v.
Proof.
  destruct v as [s|]; simpl; [|reflexivity]. intros [Hn _].
  destruct (String.eqb_spec s ""); [contradiction|reflexivity].
Qed.

Lemma length_or_0_spec (v : option string) :
  clean_text v ->
  length_or_0 v = match v with Some s => Z.of_nat (String.length s) | None => 0 end /\
  (v = None <-> length_or_0 v = 0).
Proof.
  intros Hc. unfold length_or_0. rewrite (clean_text_truthy v Hc).
  destruct v as [s|]; simpl; [|tauto]. split; [reflexivity|].
  destruct Hc as [Hn _]. destruct s; [contradiction|]. simpl. split; [discriminate|lia].
Qed.

(** A null entry met before any breadcrumb list makes the scan throw. *)
Lemma some_BreadcrumbList_null (before rest : list Json) :
  Forall (fun item => exists t, at_type item = Ok t /\ is_BreadcrumbList t = false) before ->
  exists e, some_BreadcrumbList (before ++ JNull :: rest) = Throw e.
Proof.
  induction 1 as [|item before (t & Ht & Hb) _ IH]; simpl.
  - eexists. reflexivity.
  - rewrite Ht. simpl. rewrite Hb. exact IH.
Qed.

Lemma push_typed_truthy (schemas : list Json) :
  forall types,
    Forall (fun t => json_truthy (Some (SchemaType.type t)) = true) types ->
    Forall (fun t => json_truthy (Some (SchemaType.type t)) = true)
           (push_typed schemas types).
Proof.
  induction schemas as [|schema rest IH]; intros types Ht; simpl; [exact Ht|].
  destruct (at_type schema) as [t|e]; [|exact Ht].
  destruct (json_truthy t) eqn:E; [|now apply IH].
  apply IH. apply Forall_app. split; [exact Ht|]. constructor; [|constructor].
  cbn. destruct t as [v|]; [exact E|discriminate].
Qed.

Lemma push_typed_grows (schemas : list Json) :
  forall types, (List.length types <= List.length (push_typed schemas types))%nat.
Proof.
  induction schemas as [|schema rest IH]; intros types; simpl; [lia|].
  destruct (at_type schema) as [t|e]; [|lia].
  destruct (json_truthy t); [|apply IH].
  etransitivity; [|apply IH]. rewrite length_app. simpl. lia.
Qed.
(** ** The methods over an arbitrary platform *)

Section AnalyzerFacts.
Context `{Platform}.

(** *** Running the monad *)

Lemma axios_any (req : Request.t) (s : Net) :
  (forall status, Request.validateStatus req status = true) ->
  axios req s =
  match transport req (world s) with
  | (inl resp, w) => (Ok resp, mkNet w (sent s ++ [req]))
  | (inr e, w) => (Throw e, mkNet w (sent s ++ [req]))
  end.
Proof.
  intros Hv. unfold axios. simpl.
  destruct (transport req (world s)) as [[resp|e] w]; [|reflexivity].
  now rewrite Hv.
Qed.

Lemma axios_sent (req : Request.t) (s : Net) :
  sent (snd (axios req s)) = sent s ++ [req].
Proof.
  unfold axios. simpl.
  destruct (transport req (world s)) as [[resp|e] w]; [|reflexivity].
  destruct (Request.validateStatus req (Response.status resp)); reflexivity.
Qed.

(** *** Fetcher *)

Lemma fetchPage_run (url : string) (s : Net) :
  fetchPage url s =
  match transport (page_request url) (world s) with
  | (inl resp, w) =>
      if 400 <=? Response.status resp
      then (Throw (ErrorObj ("Failed to fetch page: HTTP "
                             ++ Js.string_of_Z (Response.status resp) ++ ": "
                             ++ Response.statusText resp)%string),
            mkNet w (sent s ++ [page_request url]))
      else (Ok (FetchOutcome.mk (Response.data resp)
                  (performance_of url resp (Date_now w - Date_now (world s)))),
            mkNet w (sent s ++ [page_request url]))
  | (inr e, w) =>
      (Throw (ErrorObj ("Failed to fetch page: " ++ message_of e)%string),
       mkNet w (sent s ++ [page_request url]))
  end.
Proof.
  unfold fetchPage, try_catch, bind, now.
  rewrite axios_any by reflexivity.
  cbn [world].
  destruct (transport (page_request url) (world s)) as [[resp|e] w]; [|reflexivity].
  cbn [world]. unfold performance_of.
  destruct (400 <=? Response.status resp); reflexivity.
Qed.


(** A successful fetch answers a response of status below 400. *)
Lemma fetchPage_ok (url : string) (s s' : Net) (page : FetchOutcome.t) :
  fetchPage url s = (Ok page, s') ->
  exists resp w,
    transport (page_request url) (world s) = (inl resp, w) /\
    Response.status resp < 400 /\
    page = FetchOutcome.mk (Response.data resp)
             (performance_of url resp (Date_now w - Date_now (world s))) /\
    s' = mkNet w (sent s ++ [page_request url]).
Proof.
  rewrite fetchPage_run.
  destruct (transport (page_request url) (world s)) as [[resp|e] w]; [|discriminate].
  destruct (Z.leb_spec 400 (Response.status resp)); [discriminate|].
  intros [= <- <-]. exists resp, w. repeat split. assumption.
Qed.

Lemma differs_iff (responseUrl : option string) (url : string) :
  differs responseUrl url = true <-> responseUrl <> Some url.
Proof.
  destruct responseUrl as [u|]; simpl.
  - destruct (String.eqb_spec u url) as [->|Hne]; simpl; split;
      congruence.
  - split; [discriminate|reflexivity].
Qed.

(** C10: after a successful fetch the redirects field is 0 or 1, it is 1
    exactly when the final response URL differs from the requested URL, and
    it is not the number of redirects followed when more than one was,
    although the request allows five. *)
Theorem fetchPage_redirects (url : string) (s s' : Net) (page : FetchOutcome.t) :
  fetchPage url s = (Ok page, s') ->
  exists resp w,
    transport (page_request url) (world s) = (inl resp, w) /\
    Request.maxRedirects (page_request url) = Some 5 /\
    let redirects := Performance.redirects (FetchOutcome.performance page) in
    (redirects = 0 \/ redirects = 1) /\
    (redirects = 1 <-> Response.responseUrl resp <> Some url) /\
    ((1 < Response.redirectCount resp)%nat ->
     redirects <> Z.of_nat (Response.redirectCount resp)).
Proof.
  intros Hf. destruct (fetchPage_ok _ _ _ _ Hf) as (resp & w & Ht & _ & -> & _).
  exists resp, w. split; [exact Ht|]. split; [reflexivity|].
  cbn. pose proof (differs_iff (Response.responseUrl resp) url) as Hd.
  destruct (differs (Response.responseUrl resp) url).
  - split; [now right|]. split; [|lia].
    split; [intros _; now apply Hd|reflexivity].
  - split; [now left|]. split; [|lia].
    split; [discriminate|]. intros Hne. apply Hd in Hne. discriminate.
Qed.

(** *** Link analyzer *)

Lemma checkLinkStatus_run (url : string) (s : Net) :
  checkLinkStatus url s =
  (Ok (result_of (fst (transport (probe_request url) (world s)))),
   mkNet (snd (transport (probe_request url) (world s)))
         (sent s ++ [probe_request url])).
Proof.
  unfold checkLinkStatus, try_catch, bind.
  rewrite axios_any by reflexivity.
  destruct (transport (probe_request url) (world s)) as [[resp|e] w]; reflexivity.
Qed.

Lemma check_links_run (links : list LinkInfo.t) :
  forall (broken : list BrokenLink.t) (s : Net),
    check_links links broken s =
    (Ok (broken ++ pushed_all links (fst (probe_answers links (world s)))),
     mkNet (snd (probe_answers links (world s)))
           (sent s ++ map (fun link => probe_request (LinkInfo.url link)) links)).
Proof.
  induction links as [|link rest IH]; intros broken s.
  - simpl. unfold ret. rewrite !app_nil_r. destruct s; reflexivity.
  - cbn [check_links probe_answers map]. unfold bind at 1.
    rewrite checkLinkStatus_run.
    destruct (transport (probe_request (LinkInfo.url link)) (world s)) as [answer w1].
    cbn [fst snd].
    destruct (probe_answers rest w1) as [answers w2] eqn:Ea.
    cbn [fst snd pushed_all]. unfold pushed.
    destruct (is_broken (result_of answer)); rewrite IH; cbn [world sent];
      rewrite Ea; cbn [fst snd]; rewrite <- !app_assoc; reflexivity.
Qed.

Lemma pushed_recorded (link : LinkInfo.t) (answer : Response.t + Thrown) :
  (forall resp, answer = inl resp -> 100 <= Response.status resp <= 999) ->
  pushed link answer = recorded link answer.
Proof.
  intros Hv. unfold pushed, recorded, is_broken.
  destruct answer as [resp|e]; simpl; [|reflexivity].
  specialize (Hv resp eq_refl).
  destruct (Z.leb_spec 400 (Response.status resp)); simpl; [reflexivity|].
  destruct (Z.eqb_spec (Response.status resp) 0); [lia|reflexivity].
Qed.

Lemma pushed_all_recorded (links : list LinkInfo.t) :
  http_statuses ->
  forall w, pushed_all links (fst (probe_answers links w))
            = recorded_all links (fst (probe_answers links w)).
Proof.
  intros Hv. induction links as [|link rest IH]; intros w; [reflexivity|].
  cbn [probe_answers].
  destruct (transport (probe_request (LinkInfo.url link)) w) as [answer w1] eqn:Et.
  specialize (IH w1).
  destruct (probe_answers rest w1) as [answers w2].
  cbn [fst pushed_all recorded_all] in *. rewrite IH. f_equal.
  apply pushed_recorded. intros resp ->. exact (Hv _ _ _ _ Et).
Qed.

(** C6: [checkLinkStatus] never throws, and a checked link is pushed to the
    broken list exactly when its probe answered an HTTP status of 400 or
    more (pushed with that status and no error) or failed at the transport
    layer (pushed with status 0 and the error message); the broken list of
    [analyzeLinks] is made of these entries for the links it checks. *)
Theorem broken_link_accounting :
  http_statuses ->
  (forall url, total (checkLinkStatus url)) /\
  (forall link answer,
      recorded link answer <> [] <->
      (exists resp, answer = inl resp /\ 400 <= Response.status resp) \/
      (exists e, answer = inr e)) /\
  (forall links broken s,
      exists s',
        check_links links broken s =
        (Ok (broken ++ recorded_all links (fst (probe_answers links (world s)))), s')) /\
  (forall allLinks s,
      let checked := firstn 20 (linksToCheck allLinks) in
      exists links s',
        analyze_collected allLinks s = (Ok links, s') /\
        Links.broken links = recorded_all checked (fst (probe_answers checked (world s)))).
Proof.
  intros Hv. split; [|split; [|split]].
  - intros url s. rewrite checkLinkStatus_run. eauto.
  - intros link answer. split.
    + destruct answer as [resp|e]; simpl.
      * destruct (Z.leb_spec 400 (Response.status resp)).
        -- intros _. left. eauto.
        -- congruence.
      * intros _. right. eauto.
    + intros [(resp & -> & Hs)|(e & ->)]; simpl; [|discriminate].
      destruct (Z.leb_spec 400 (Response.status resp)); [discriminate|lia].
  - intros links broken s. rewrite check_links_run.
    rewrite (pushed_all_recorded links Hv). eauto.
  - intros allLinks s checked.
    unfold analyze_collected, bind, Js.slice0. fold checked.
    rewrite check_links_run. unfold ret. eexists. eexists.
    split; [reflexivity|]. cbn [Links.broken app].
    apply (pushed_all_recorded checked Hv).
Qed.

Lemma pushed_all_checked (links : list LinkInfo.t) :
  forall answers,
    Forall (fun entry =>
              exists link, In link links /\
                           BrokenLink.url entry = LinkInfo.url link /\
                           BrokenLink.text entry = LinkInfo.text link)
           (pushed_all links answers).
Proof.
  induction links as [|link rest IH]; intros [|answer answers]; simpl; try constructor.
  apply Forall_app. split.
  - unfold pushed. destruct (is_broken (result_of answer)); constructor; [|constructor].
    exists link. simpl. auto.
  - eapply Forall_impl; [|apply IH].
    intros entry (l & Hin & Hu & Ht). exists l. simpl. auto.
Qed.

Lemma analyzeLinks_run (html baseUrl : string) (base : Url.t) (s : Net) :
  URL_new baseUrl None = Some base ->
  analyzeLinks html baseUrl s =
  analyze_collected
    (collect_links base baseUrl (select (load html) (having_attr (Some "a") "href"))) s.
Proof.
  intros Hb. unfold analyzeLinks, bind, lift, new_URL. now rewrite Hb.
Qed.

(** C5: [analyzeLinks] probes exactly the first
    min(internal + min(external, 10), 20) links of the list made of all
    internal links followed by the first ten external links; the broken
    list is built from those probes alone, while total, internal and
    external count every link; with 30 internal and 15 external links
    exactly 20 probes are sent. *)
Theorem link_check_cap (html baseUrl : string) (base : Url.t) (s : Net) :
  URL_new baseUrl None = Some base ->
  let allLinks :=
    collect_links base baseUrl (select (load html) (having_attr (Some "a") "href")) in
  let internalLinks := filter (fun link => negb (LinkInfo.isExternal link)) allLinks in
  let externalLinks := filter (fun link => LinkInfo.isExternal link) allLinks in
  let checked := firstn 20 (internalLinks ++ firstn 10 externalLinks) in
  exists links s',
    analyzeLinks html baseUrl s = (Ok links, s') /\
    sent s' = sent s ++ map (fun link => probe_request (LinkInfo.url link)) checked /\
    List.length checked
    = Nat.min (List.length internalLinks + Nat.min (List.length externalLinks) 10) 20 /\
    Links.broken links = pushed_all checked (fst (probe_answers checked (world s))) /\
    Forall (fun entry =>
              exists link, In link checked /\
                           BrokenLink.url entry = LinkInfo.url link /\
                           BrokenLink.text entry = LinkInfo.text link)
           (Links.broken links) /\
    Links.total links = Z.of_nat (List.length allLinks) /\
    Links.internal links = Z.of_nat (List.length internalLinks) /\
    Links.external links = Z.of_nat (List.length externalLinks) /\
    Links.total links = Links.internal links + Links.external links /\
    (List.length internalLinks = 30%nat -> List.length externalLinks = 15%nat ->
     List.length checked = 20%nat).
Proof.
  intros Hb allLinks internalLinks externalLinks checked.
  rewrite (analyzeLinks_run _ _ _ _ Hb). fold allLinks.
  unfold analyze_collected, bind, linksToCheck, Js.slice0.
  fold internalLinks externalLinks. fold checked.
  rewrite check_links_run. cbn [app]. unfold ret.
  assert (Hlen : List.length checked
                 = Nat.min (List.length internalLinks
                            + Nat.min (List.length externalLinks) 10) 20).
  { unfold checked. rewrite length_firstn, length_app, length_firstn. lia. }
  eexists. eexists. split; [reflexivity|]. cbn [sent Links.broken Links.total
    Links.internal Links.external].
  repeat split.
  - exact Hlen.
  - apply pushed_all_checked.
  - pose proof (filter_length (fun link => LinkInfo.isExternal link) allLinks) as Hp.
    cbv beta in Hp. subst internalLinks externalLinks. lia.
  - intros Hi He. rewrite Hlen, Hi, He. reflexivity.
Qed.

(** *** Meta tags *)

Lemma or_null_Some (v : option string) (c : string) :
  Js.or_null v = Some c -> v = Some c /\ Js.truthy (Some c) = true.
Proof.
  unfold Js.or_null. destruct (Js.truthy v) eqn:E; [|discriminate].
  intros ->. auto.
Qed.

Lemma canonical_block_true (c originalUrl : string) :
  or_else (canonical_block c originalUrl) false = true <->
  exists canonicalUrl inputUrl,
    URL_new c (Some originalUrl) = Some canonicalUrl /\
    URL_new originalUrl None = Some inputUrl /\
    Url.href canonicalUrl = Url.href inputUrl.
Proof.
  unfold canonical_block, new_URL, and_then, or_else.
  destruct (URL_new c (Some originalUrl)) as [cu|].
  - destruct (URL_new originalUrl None) as [iu|].
    + split.
      * intros Heq. exists cu, iu. repeat split. now apply String.eqb_eq.
      * intros (cu' & iu' & [= <-] & [= <-] & Heq). now apply String.eqb_eq.
    + split; [discriminate|]. intros (? & ? & _ & [=] & _).
  - split; [discriminate|]. intros (? & ? & [=] & _).
Qed.

(** C8: in [extractMetaTags], [canonicalMatches] is true exactly when the
    canonical href is present and its URL, resolved against the input URL,
    has the href of the resolved input URL; it is false when the canonical
    href is absent, and false, with the TypeError caught, when the canonical
    href does not resolve. *)
Theorem canonicalMatches_iff (html originalUrl : string) :
  let m := extractMetaTags html originalUrl in
  (MetaTags.canonicalMatches m = true <->
   exists c canonicalUrl inputUrl,
     MetaTags.canonical m = Some c /\
     URL_new c (Some originalUrl) = Some canonicalUrl /\
     URL_new originalUrl None = Some inputUrl /\
     Url.href canonicalUrl = Url.href inputUrl) /\
  (MetaTags.canonical m = None -> MetaTags.canonicalMatches m = false) /\
  (forall c,
      MetaTags.canonical m = Some c ->
      URL_new c (Some originalUrl) = None ->
      canonical_block c originalUrl = Throw (ErrorObj "Invalid URL") /\
      MetaTags.canonicalMatches m = false).
Proof.
  unfold extractMetaTags. cbn [MetaTags.canonicalMatches MetaTags.canonical].
  set (canonical :=
         Js.or_null (attr (select (load html) (by_tag_attr "link" "rel" "canonical")) "href")).
  destruct canonical as [c|] eqn:Ec.
  - destruct (or_null_Some _ _ Ec) as [_ Ht]. rewrite Ht. cbn [Js.the].
    split; [|split].
    + rewrite canonical_block_true. split.
      * intros (cu & iu & H1 & H2 & H3). exists c, cu, iu. auto.
      * intros (c' & cu & iu & [= <-] & H1 & H2 & H3). eauto.
    + discriminate.
    + intros c' [= <-] Hn. unfold canonical_block, new_URL. rewrite Hn. auto.
  - cbn [Js.truthy]. split; [|split].
    + split; [discriminate|]. intros (c & ? & ? & [=] & _).
    + reflexivity.
    + intros c [=].
Qed.

(** *** Methods only add to the requests sent *)

Lemma appends_ret {A} (a : A) : appends (ret a).
Proof. intros s. exists []. simpl. now rewrite app_nil_r. Qed.

Lemma appends_throw {A} (e : Thrown) : appends (@throw _ A e).
Proof. intros s. exists []. simpl. now rewrite app_nil_r. Qed.

Lemma appends_lift {A} (o : Outcome A) : appends (lift o).
Proof. intros s. exists []. simpl. now rewrite app_nil_r. Qed.

Lemma appends_now : appends now.
Proof. intros s. exists []. simpl. now rewrite app_nil_r. Qed.

Lemma appends_axios (req : Request.t) : appends (axios req).
Proof. intros s. exists [req]. apply axios_sent. Qed.

Lemma appends_bind {A B} (c : M A) (k : A -> M B) :
  appends c -> (forall a, appends (k a)) -> appends (bind c k).
Proof.
  intros Hc Hk s. unfold bind. destruct (Hc s) as [l Hl].
  destruct (c s) as [[a|e] s1]; simpl in *.
  - destruct (Hk a s1) as [l' Hl']. exists (l ++ l'). now rewrite Hl', Hl, app_assoc.
  - now exists l.
Qed.

Lemma appends_try_catch {A} (c : M A) (handler : Thrown -> M A) :
  appends c -> (forall e, appends (handler e)) -> appends (try_catch c handler).
Proof.
  intros Hc Hh s. unfold try_catch. destruct (Hc s) as [l Hl].
  destruct (c s) as [[a|e] s1]; simpl in *.
  - now exists l.
  - destruct (Hh e s1) as [l' Hl']. exists (l ++ l'). now rewrite Hl', Hl, app_assoc.
Qed.

Lemma appends_both {A B} (c1 : M A) (c2 : M B) :
  appends c1 -> appends c2 -> appends (both c1 c2).
Proof.
  intros H1 H2 s. unfold both. destruct (H1 s) as [l Hl].
  destruct (c1 s) as [o1 s1]. destruct (H2 s1) as [l' Hl'].
  destruct (c2 s1) as [o2 s2]. simpl in *.
  exists (l ++ l'). rewrite app_assoc, <- Hl, <- Hl'.
  destruct o1, o2; reflexivity.
Qed.

Create HintDb appends.
#[local] Hint Resolve appends_ret appends_throw appends_lift appends_now appends_axios : appends.

(** One step of a proof that a method only appends: peel a combinator or
    split on the scrutinee of a conditional. *)
Ltac appends_step :=
  first
    [ solve [auto with appends]
    | apply appends_bind
    | apply appends_try_catch
    | apply appends_both
    | progress cbv zeta
    | match goal with
      | |- forall _, _ => intro
      | |- appends (if ?b then _ else _) => destruct b
      | |- appends (let '(_, _) := ?p in _) => destruct p
      | |- appends (match ?x with _ => _ end) => destruct x
      end ].

Ltac appends_tac := repeat appends_step.

Lemma appends_fetchPage (url : string) : appends (fetchPage url).
Proof. unfold fetchPage. appends_tac. Qed.

Lemma appends_fetchRobotsTxt (baseUrl : string) : appends (fetchRobotsTxt baseUrl).
Proof. unfold fetchRobotsTxt. appends_tac. Qed.

Lemma appends_checkLinkStatus (url : string) : appends (checkLinkStatus url).
Proof. unfold checkLinkStatus. appends_tac. Qed.

#[local] Hint Resolve appends_fetchPage appends_fetchRobotsTxt appends_checkLinkStatus : appends.

Lemma appends_check_links (links : list LinkInfo.t) :
  forall broken, appends (check_links links broken).
Proof.
  induction links as [|link rest IH]; intros broken; cbn [check_links]; appends_tac.
Qed.

Lemma appends_probe_patterns (patterns : list string) : appends (probe_patterns patterns).
Proof.
  induction patterns as [|p rest IH]; cbn [probe_patterns]; appends_tac.
Qed.

#[local] Hint Resolve appends_check_links appends_probe_patterns : appends.

Lemma appends_analyzeLinks (html baseUrl : string) : appends (analyzeLinks html baseUrl).
Proof. unfold analyzeLinks, analyze_collected. appends_tac. Qed.

Lemma appends_detectAmpUrl (html originalUrl : string) :
  appends (detectAmpUrl html originalUrl).
Proof. unfold detectAmpUrl. appends_tac. Qed.

Lemma appends_compareAmpAndRegular (ampUrl regularUrl : string) :
  appends (compareAmpAndRegular ampUrl regularUrl).
Proof. unfold compareAmpAndRegular. appends_tac. Qed.

#[local] Hint Resolve appends_analyzeLinks appends_detectAmpUrl
  appends_compareAmpAndRegular : appends.

Lemma appends_resolve_amp (isCurrentAmp : bool) (html normalizedUrl : string) :
  appends (resolve_amp isCurrentAmp html normalizedUrl).
Proof. unfold resolve_amp. appends_tac. Qed.

Lemma appends_compare_step (ampUrl regularUrl : option string) :
  appends (compare_step ampUrl regularUrl).
Proof. unfold compare_step. appends_tac. Qed.

#[local] Hint Resolve appends_resolve_amp appends_compare_step : appends.

(** *** Methods that never throw *)

Lemma bind_ok {A B} (c : M A) (k : A -> M B) (s s1 : Net) (a : A) :
  c s = (Ok a, s1) -> bind c k s = k a s1.
Proof. intros Hc. unfold bind. now rewrite Hc. Qed.

Lemma bind_inv {A B} (c : M A) (k : A -> M B) (s s' : Net) (b : B) :
  bind c k s = (Ok b, s') ->
  exists a s1, c s = (Ok a, s1) /\ k a s1 = (Ok b, s').
Proof.
  unfold bind. destruct (c s) as [[a|e] s1]; [eauto|discriminate].
Qed.

Lemma total_ret {A} (a : A) : total (ret a).
Proof. intros s. unfold ret. eauto. Qed.

Lemma total_bind {A B} (c : M A) (k : A -> M B) :
  total c -> (forall a, total (k a)) -> total (bind c k).
Proof.
  intros Hc Hk s. destruct (Hc s) as (a & s1 & Ha).
  rewrite (bind_ok _ _ _ _ _ Ha). apply Hk.
Qed.

Lemma total_try_catch {A} (c : M A) (handler : Thrown -> M A) :
  (forall e, total (handler e)) -> total (try_catch c handler).
Proof.
  intros Hh s. unfold try_catch. destruct (c s) as [[a|e] s1]; [eauto|apply Hh].
Qed.

Lemma total_check_links (links : list LinkInfo.t) (broken : list BrokenLink.t) :
  total (check_links links broken).
Proof. intros s. rewrite check_links_run. eauto. Qed.

Lemma total_analyze_collected (allLinks : list LinkInfo.t) :
  total (analyze_collected allLinks).
Proof.
  unfold analyze_collected. apply total_bind.
  - apply total_check_links.
  - intros broken. apply total_ret.
Qed.

Lemma total_fetchRobotsTxt (baseUrl : string) : total (fetchRobotsTxt baseUrl).
Proof. apply total_try_catch. intros e. apply total_ret. Qed.

Lemma total_compare_step (ampUrl regularUrl : option string) :
  total (compare_step ampUrl regularUrl).
Proof.
  unfold compare_step.
  destruct (Js.truthy ampUrl && Js.truthy regularUrl
            && negb (Js.the ampUrl =? Js.the regularUrl)%string).
  - apply total_try_catch. intros e. apply total_ret.
  - apply total_ret.
Qed.

(** *** Orchestrator *)

Lemma normalizeUrl_http (url : string) :
  Js.startsWith (normalizeUrl url) "http" = true.
Proof.
  unfold normalizeUrl. destruct (Js.startsWith url "http") eqn:E; [exact E|].
  reflexivity.
Qed.

Lemma normalizeUrl_idem (url : string) :
  normalizeUrl (normalizeUrl url) = normalizeUrl url.
Proof. unfold normalizeUrl at 1. now rewrite normalizeUrl_http. Qed.

Lemma normalizeUrl_truthy (url : string) : Js.or_null (Some (normalizeUrl url)) = Some (normalizeUrl url).
Proof.
  pose proof (normalizeUrl_http url) as Hp.
  unfold Js.or_null, Js.truthy.
  destruct (normalizeUrl url); [discriminate Hp|reflexivity].
Qed.

(** The steps of [analyzeWebsite] after the page is fetched and the AMP
    pair resolved. *)
Lemma analyzeWebsite_run (url : string) (s s1 s2 : Net) (page : FetchOutcome.t)
      (ampUrl regularUrl : option string) (base : Url.t) :
  fetchPage (normalizeUrl url) s = (Ok page, s1) ->
  resolve_amp (html_is_amp (load (FetchOutcome.html page))) (FetchOutcome.html page)
              (normalizeUrl url) s1 = (Ok (ampUrl, regularUrl), s2) ->
  URL_new (normalizeUrl url) None = Some base ->
  exists r s',
    analyzeWebsite url s = (Ok r, s') /\
    SEOAnalysisResult.url r = normalizeUrl url /\
    SEOAnalysisResult.isAmp r = html_is_amp (load (FetchOutcome.html page)) /\
    SEOAnalysisResult.ampUrl r = Js.or_null ampUrl /\
    SEOAnalysisResult.regularUrl r = Js.or_null regularUrl.
Proof.
  intros Hf Hr Hb.
  unfold analyzeWebsite, try_catch. cbv zeta.
  rewrite (bind_ok _ _ _ _ _ Hf).
  unfold isAmpPage at 1. unfold bind at 1, ret at 1.
  rewrite (bind_ok _ _ _ _ _ Hr).
  destruct (total_analyze_collected
              (collect_links base (normalizeUrl url)
                 (select (load (FetchOutcome.html page)) (having_attr (Some "a") "href")))
              s2) as (links & s3 & Hl).
  rewrite <- (analyzeLinks_run _ _ _ _ Hb) in Hl.
  rewrite (bind_ok _ _ _ _ _ Hl).
  destruct (total_fetchRobotsTxt (normalizeUrl url) s3) as (content & s4 & Hc).
  rewrite (bind_ok _ _ _ _ _ Hc).
  destruct (total_compare_step ampUrl regularUrl s4) as (cmp & s5 & Hp).
  rewrite (bind_ok _ _ _ _ _ Hp).
  unfold ret. eexists. eexists. split; [reflexivity|]. repeat split.
Qed.

(** What a returned result says of the steps that produced it. *)
Lemma analyzeWebsite_inv (url : string) (s s' : Net) (r : SEOAnalysisResult.t) :
  analyzeWebsite url s = (Ok r, s') ->
  exists page s1 ampUrl regularUrl s2,
    fetchPage (normalizeUrl url) s = (Ok page, s1) /\
    resolve_amp (html_is_amp (load (FetchOutcome.html page))) (FetchOutcome.html page)
                (normalizeUrl url) s1 = (Ok (ampUrl, regularUrl), s2) /\
    SEOAnalysisResult.url r = normalizeUrl url /\
    SEOAnalysisResult.isAmp r = html_is_amp (load (FetchOutcome.html page)) /\
    SEOAnalysisResult.ampUrl r = Js.or_null ampUrl /\
    SEOAnalysisResult.regularUrl r = Js.or_null regularUrl.
Proof.
  unfold analyzeWebsite, try_catch. cbv zeta.
  match goal with |- context [bind ?c ?k s] => destruct (bind c k s) as [[r0|e] s0] eqn:Hb end;
    [|discriminate].
  intros [= <- <-].
  apply bind_inv in Hb. destruct Hb as (page & s1 & Hf & Hb).
  apply bind_inv in Hb. destruct Hb as (isCurrentAmp & s1' & Hi & Hb).
  unfold isAmpPage, ret in Hi. injection Hi as <- <-.
  apply bind_inv in Hb. destruct Hb as ([ampUrl regularUrl] & s2 & Hr & Hb).
  apply bind_inv in Hb. destruct Hb as (links & s3 & Hl & Hb).
  apply bind_inv in Hb. destruct Hb as (content & s4 & Hc & Hb).
  apply bind_inv in Hb. destruct Hb as (cmp & s5 & Hp & Hb).
  unfold ret in Hb. injection Hb as <- <-.
  exists page, s1, ampUrl, regularUrl, s2. repeat split; assumption.
Qed.

Lemma resolve_amp_current (html normalizedUrl : string) (s : Net) :
  resolve_amp true html normalizedUrl s =
  let canonicalLink :=
    attr (select (load html) (by_tag_attr "link" "rel" "canonical")) "href" in
  if Js.truthy canonicalLink then
    match URL_new (Js.the canonicalLink) (Some normalizedUrl) with
    | Some u => (Ok (Some normalizedUrl, Some (Url.href u)), s)
    | None => (Throw (ErrorObj "Invalid URL"), s)
    end
  else (Ok (Some normalizedUrl, None), s).
Proof.
  unfold resolve_amp. cbv zeta.
  destruct (Js.truthy _); [|reflexivity].
  unfold bind, lift, new_URL. destruct (URL_new _ _); reflexivity.
Qed.

(** The AMP branch where the canonical href is absent or resolves: when
    the fetched document's root element carries an [amp] or a lightning
    attribute, whatever [amphtml] link it has, the result has [isAmp] true
    and [ampUrl] equal to the analyzed URL; [regularUrl] is unset when the
    document has no canonical href, and is the canonical href resolved
    against the analyzed URL when it resolves. *)
Theorem amp_page_result (url : string) (s s1 : Net) (page : FetchOutcome.t) (base : Url.t) :
  let doc := load (FetchOutcome.html page) in
  let canonicalLink := attr (select doc (by_tag_attr "link" "rel" "canonical")) "href" in
  hrefs_not_empty ->
  URL_new (normalizeUrl url) None = Some base ->
  fetchPage (normalizeUrl url) s = (Ok page, s1) ->
  is_defined (attr (select doc (by_tag "html")) "amp") = true \/
  is_defined (attr (select doc (by_tag "html")) lightning) = true ->
  (Js.truthy canonicalLink = false ->
   exists r s',
     analyzeWebsite url s = (Ok r, s') /\
     SEOAnalysisResult.isAmp r = true /\
     SEOAnalysisResult.ampUrl r = Some (normalizeUrl url) /\
     SEOAnalysisResult.regularUrl r = None) /\
  (forall u,
      Js.truthy canonicalLink = true ->
      URL_new (Js.the canonicalLink) (Some (normalizeUrl url)) = Some u ->
      exists r s',
        analyzeWebsite url s = (Ok r, s') /\
        SEOAnalysisResult.isAmp r = true /\
        SEOAnalysisResult.ampUrl r = Some (normalizeUrl url) /\
        SEOAnalysisResult.regularUrl r = Some (Url.href u)).
Proof.
  intros doc canonicalLink Hne Hb Hf Hamp.
  assert (Ha : html_is_amp doc = true).
  { unfold html_is_amp. apply orb_true_iff. exact Hamp. }
  split.
  - intros Hc.
    assert (Hr : resolve_amp (html_is_amp doc) (FetchOutcome.html page) (normalizeUrl url) s1
                 = (Ok (Some (normalizeUrl url), None), s1)).
    { rewrite Ha, resolve_amp_current. cbv zeta. fold doc canonicalLink. now rewrite Hc. }
    destruct (analyzeWebsite_run _ _ _ _ _ _ _ _ Hf Hr Hb) as (r & s' & He & _ & Hi & Hau & Hru).
    exists r, s'. fold doc in Hi. rewrite Hi, Hau, Hru, Ha, normalizeUrl_truthy. auto.
  - intros u Hc Hu.
    assert (Hr : resolve_amp (html_is_amp doc) (FetchOutcome.html page) (normalizeUrl url) s1
                 = (Ok (Some (normalizeUrl url), Some (Url.href u)), s1)).
    { rewrite Ha, resolve_amp_current. cbv zeta. fold doc canonicalLink. now rewrite Hc, Hu. }
    destruct (analyzeWebsite_run _ _ _ _ _ _ _ _ Hf Hr Hb) as (r & s' & He & _ & Hi & Hau & Hru).
    exists r, s'. fold doc in Hi. rewrite Hi, Hau, Hru, Ha, normalizeUrl_truthy.
    repeat split; try assumption.
    unfold Js.or_null, Js.truthy. specialize (Hne _ _ _ Hu).
    destruct (String.eqb_spec (Url.href u) ""); [contradiction|reflexivity].
Qed.

(** An AMP page whose canonical href does not resolve makes the whole
    analysis fail: the resolution is not guarded there. *)
Lemma amp_page_bad_canonical (url : string) (s s1 : Net) (page : FetchOutcome.t) :
  let doc := load (FetchOutcome.html page) in
  let canonicalLink := attr (select doc (by_tag_attr "link" "rel" "canonical")) "href" in
  fetchPage (normalizeUrl url) s = (Ok page, s1) ->
  html_is_amp doc = true ->
  Js.truthy canonicalLink = true ->
  URL_new (Js.the canonicalLink) (Some (normalizeUrl url)) = None ->
  analyzeWebsite url s = (Throw (ErrorObj "SEO analysis failed: Invalid URL"), s1).
Proof.
  intros doc canonicalLink Hf Ha Hc Hu.
  unfold analyzeWebsite, try_catch. cbv zeta.
  rewrite (bind_ok _ _ _ _ _ Hf).
  unfold isAmpPage at 1. unfold bind at 1, ret at 1.
  fold doc. rewrite Ha. unfold bind at 1.
  rewrite resolve_amp_current. cbv zeta. fold doc canonicalLink.
  rewrite Hc, Hu. reflexivity.
Qed.

Lemma sent_after_fetch {A} (url : string) (k : FetchOutcome.t -> M A)
      (handler : Thrown -> Thrown) (s : Net) :
  (forall page, appends (k page)) ->
  exists rest,
    sent (snd (try_catch (bind (fetchPage url) k) (fun e => throw (handler e)) s))
    = sent s ++ page_request url :: rest.
Proof.
  intros Hk. unfold try_catch, bind. rewrite fetchPage_run.
  destruct (transport (page_request url) (world s)) as [[resp|e] w].
  - destruct (400 <=? Response.status resp).
    + exists []. reflexivity.
    + match goal with |- context [k ?p ?st] => destruct (Hk p st) as [l Hl];
                                               destruct (k p st) as [[a|e] s2] end;
        simpl in *; rewrite Hl; exists l; now rewrite <- app_assoc.
  - exists []. reflexivity.
Qed.

(** C9: an input that does not start with [http] is analyzed as [https://]
    followed by the input, and one that does is analyzed unchanged: the
    analysis is that of the normalized URL, its first request is the page
    request for it, and the result's url field is the normalized URL. *)
Theorem analyzeWebsite_normalizes (url : string) (s : Net) :
  (Js.startsWith url "http" = false -> normalizeUrl url = ("https://" ++ url)%string) /\
  (Js.startsWith url "http" = true -> normalizeUrl url = url) /\
  analyzeWebsite url s = analyzeWebsite (normalizeUrl url) s /\
  (exists rest,
      sent (snd (analyzeWebsite url s)) = sent s ++ page_request (normalizeUrl url) :: rest) /\
  (forall r s',
      analyzeWebsite url s = (Ok r, s') ->
      SEOAnalysisResult.url r = normalizeUrl url).
Proof.
  split; [|split; [|split; [|split]]].
  - intros Hp. unfold normalizeUrl. now rewrite Hp.
  - intros Hp. unfold normalizeUrl. now rewrite Hp.
  - unfold analyzeWebsite. cbv zeta. now rewrite normalizeUrl_idem.
  - unfold analyzeWebsite. cbv zeta.
    apply sent_after_fetch with
      (handler := fun error => ErrorObj ("SEO analysis failed: " ++ message_of error)%string).
    intros page. unfold isAmpPage. appends_tac.
  - intros r s' Hr.
    destruct (analyzeWebsite_inv _ _ _ _ Hr) as (? & ? & ? & ? & ? & _ & _ & Hu & _).
    exact Hu.
Qed.

(** *** How many axios calls the methods issue *)

Lemma sends_weaken {A} (n m : nat) (c : M A) :
  (n <= m)%nat -> sends_at_most n c -> sends_at_most m c.
Proof.
  intros Hle Hc s. destruct (Hc s) as (l & Hl & Hn). exists l. split; [exact Hl|lia].
Qed.

Lemma sends_ret {A} (a : A) : sends_at_most 0 (ret a).
Proof. intros s. exists []. simpl. now rewrite app_nil_r. Qed.

Lemma sends_throw {A} (e : Thrown) : sends_at_most 0 (@throw _ A e).
Proof. intros s. exists []. simpl. now rewrite app_nil_r. Qed.

Lemma sends_lift {A} (o : Outcome A) : sends_at_most 0 (lift o).
Proof. intros s. exists []. simpl. now rewrite app_nil_r. Qed.

Lemma sends_axios (req : Request.t) : sends_at_most 1 (axios req).
Proof. intros s. exists [req]. split; [apply axios_sent|simpl; lia]. Qed.

Lemma sends_bind {A B} (n m : nat) (c : M A) (k : A -> M B) :
  sends_at_most n c -> (forall a, sends_at_most m (k a)) ->
  sends_at_most (n + m) (bind c k).
Proof.
  intros Hc Hk s. unfold bind. destruct (Hc s) as (l & Hl & Hn).
  destruct (c s) as [[a|e] s1]; simpl in *.
  - destruct (Hk a s1) as (l' & Hl' & Hn'). exists (l ++ l').
    rewrite Hl', Hl, app_assoc, length_app. split; [reflexivity|lia].
  - exists l. split; [exact Hl|lia].
Qed.

Lemma sends_try_catch {A} (n m : nat) (c : M A) (handler : Thrown -> M A) :
  sends_at_most n c -> (forall e, sends_at_most m (handler e)) ->
  sends_at_most (n + m) (try_catch c handler).
Proof.
  intros Hc Hh s. unfold try_catch. destruct (Hc s) as (l & Hl & Hn).
  destruct (c s) as [[a|e] s1]; simpl in *.
  - exists l. split; [exact Hl|lia].
  - destruct (Hh e s1) as (l' & Hl' & Hn'). exists (l ++ l').
    rewrite Hl', Hl, app_assoc, length_app. split; [reflexivity|lia].
Qed.

Lemma sends_both {A B} (n m : nat) (c1 : M A) (c2 : M B) :
  sends_at_most n c1 -> sends_at_most m c2 -> sends_at_most (n + m) (both c1 c2).
Proof.
  intros H1 H2 s. unfold both. destruct (H1 s) as (l & Hl & Hn).
  destruct (c1 s) as [o1 s1]. destruct (H2 s1) as (l' & Hl' & Hn').
  destruct (c2 s1) as [o2 s2]. simpl in *.
  exists (l ++ l'). rewrite app_assoc, <- Hl, <- Hl', length_app.
  split; [destruct o1, o2; reflexivity|lia].
Qed.

Lemma fetchPage_sent (url : string) (s : Net) :
  sent (snd (fetchPage url s)) = sent s ++ [page_request url].
Proof.
  rewrite fetchPage_run.
  destruct (transport (page_request url) (world s)) as [[resp|e] w]; [|reflexivity].
  destruct (400 <=? Response.status resp); reflexivity.
Qed.

Lemma sends_fetchPage (url : string) : sends_at_most 1 (fetchPage url).
Proof. intros s. exists [page_request url]. split; [apply fetchPage_sent|simpl; lia]. Qed.

Lemma sends_fetchRobotsTxt (baseUrl : string) : sends_at_most 1 (fetchRobotsTxt baseUrl).
Proof.
  unfold fetchRobotsTxt. apply (sends_try_catch 1 0).
  - apply (sends_bind 0 1); [apply sends_lift|]. intros u.
    apply (sends_bind 1 0); [apply sends_axios|]. intros r. apply sends_ret.
  - intros e. apply sends_ret.
Qed.

Lemma sends_probe_patterns (patterns : list string) :
  sends_at_most (List.length patterns) (probe_patterns patterns).
Proof.
  induction patterns as [|p rest IH]; cbn [probe_patterns List.length].
  - apply sends_ret.
  - apply (sends_bind 1 (List.length rest)).
    + apply (sends_try_catch 1 0).
      * apply (sends_bind 1 0); [apply sends_axios|]. intros r. apply sends_ret.
      * intros e. apply sends_ret.
    + intros hit. destruct hit; [|exact IH].
      apply (sends_weaken 0); [lia|apply sends_ret].
Qed.

Lemma sends_detectAmpUrl (html originalUrl : string) :
  sends_at_most 4 (detectAmpUrl html originalUrl).
Proof.
  unfold detectAmpUrl. cbv zeta.
  destruct (Js.truthy _).
  - apply (sends_weaken 0); [lia|].
    apply (sends_bind 0 0); [apply sends_lift|]. intros u. apply sends_ret.
  - destruct (html_is_amp _).
    + apply (sends_weaken 0); [lia|apply sends_ret].
    + apply (sends_bind 0 4); [apply sends_lift|]. intros u.
      apply (sends_probe_patterns (ampPatterns u)).
Qed.

Lemma sends_resolve_amp (isCurrentAmp : bool) (html normalizedUrl : string) :
  sends_at_most 4 (resolve_amp isCurrentAmp html normalizedUrl).
Proof.
  unfold resolve_amp. destruct isCurrentAmp.
  - cbv zeta. apply (sends_weaken 0); [lia|].
    destruct (Js.truthy _); [|apply sends_ret].
    apply (sends_bind 0 0); [apply sends_lift|]. intros u. apply sends_ret.
  - apply (sends_bind 4 0); [apply sends_detectAmpUrl|]. intros a. apply sends_ret.
Qed.

Lemma sends_analyzeLinks (html baseUrl : string) :
  sends_at_most 20 (analyzeLinks html baseUrl).
Proof.
  unfold analyzeLinks. cbv zeta.
  apply (sends_bind 0 20); [apply sends_lift|]. intros base.
  unfold analyze_collected. apply (sends_bind 20 0); [|intros b; apply sends_ret].
  intros s. rewrite check_links_run. cbn [snd sent].
  eexists. split; [reflexivity|].
  rewrite length_map. unfold Js.slice0. apply firstn_le_length.
Qed.

Lemma sends_compareAmpAndRegular (ampUrl regularUrl : string) :
  sends_at_most 2 (compareAmpAndRegular ampUrl regularUrl).
Proof.
  unfold compareAmpAndRegular. apply (sends_try_catch 2 0).
  - apply (sends_bind 2 0).
    + apply (sends_both 1 1); apply sends_fetchPage.
    + intros [a b]. apply sends_ret.
  - intros e. apply sends_throw.
Qed.

Lemma sends_compare_step (ampUrl regularUrl : option string) :
  sends_at_most 2 (compare_step ampUrl regularUrl).
Proof.
  unfold compare_step. destruct (_ && _).
  - apply (sends_try_catch 2 0).
    + apply (sends_bind 2 0); [apply sends_compareAmpAndRegular|].
      intros c. apply sends_ret.
    + intros e. apply sends_ret.
  - apply (sends_weaken 0); [lia|apply sends_ret].
Qed.

(** One analysis issues at most 28 axios calls: the page, four AMP probes,
    twenty link probes, robots.txt and the two pages of the comparison.
    The redirects followed inside a call are not counted. *)
Theorem analyzeWebsite_request_budget (url : string) :
  sends_at_most 28 (analyzeWebsite url).
Proof.
  unfold analyzeWebsite. cbv zeta. apply (sends_try_catch 28 0).
  - apply (sends_bind 1 27); [apply sends_fetchPage|]. intros page.
    apply (sends_bind 0 27); [apply sends_ret|]. intros isCurrentAmp.
    apply (sends_bind 4 23); [apply sends_resolve_amp|]. intros [ampUrl regularUrl].
    apply (sends_bind 20 3); [apply sends_analyzeLinks|]. intros links.
    apply (sends_bind 1 2); [apply sends_fetchRobotsTxt|]. intros content.
    apply (sends_bind 2 0); [apply sends_compare_step|]. intros cmp.
    apply sends_ret.
  - intros e. apply sends_throw.
Qed.

(** *** AMP discovery *)

(** The pattern probes never throw; the first candidate whose HEAD answers
    200 wins and the candidates after it are not tried; with no such
    candidate every one is tried and the result is null. *)
Theorem probe_patterns_first_match (patterns : list string) (s : Net) :
  exists r s',
    probe_patterns patterns s = (Ok r, s') /\
    match r with
    | Some u =>
        exists before after resp,
          patterns = before ++ u :: after /\
          sent s' = sent s ++ map amp_probe (before ++ [u]) /\
          Response.status resp = 200 /\
          exists w0, transport (amp_probe u) w0 = (inl resp, world s')
    | None => sent s' = sent s ++ map amp_probe patterns
    end.
Proof.
  revert s. induction patterns as [|p rest IH]; intros s.
  - exists None, s. split; [reflexivity|]. simpl. now rewrite app_nil_r.
  - cbn [probe_patterns]. unfold bind at 1, try_catch, bind at 1.
    fold (amp_probe p). rewrite axios_any by reflexivity.
    destruct (transport (amp_probe p) (world s)) as [[resp|e] w] eqn:Et; unfold ret.
    + destruct (Z.eqb_spec (Response.status resp) 200) as [H200|Hne].
      * exists (Some p). eexists. split; [reflexivity|].
        exists [], rest, resp. repeat split; [exact H200|].
        exists (world s). exact Et.
      * destruct (IH (mkNet w (sent s ++ [amp_probe p]))) as (r & s' & Hr & Hm).
        exists r, s'. split; [exact Hr|]. destruct r as [u|].
        -- destruct Hm as (before & after & resp' & -> & Hs & H200 & Hw).
           exists (p :: before), after, resp'. repeat split; try assumption.
           rewrite Hs. cbn [sent map app]. now rewrite <- app_assoc.
        -- rewrite Hm. cbn [sent map]. now rewrite <- app_assoc.
    + destruct (IH (mkNet w (sent s ++ [amp_probe p]))) as (r & s' & Hr & Hm).
      exists r, s'. split; [exact Hr|]. destruct r as [u|].
      * destruct Hm as (before & after & resp' & -> & Hs & H200 & Hw).
        exists (p :: before), after, resp'. repeat split; try assumption.
        rewrite Hs. cbn [sent map app]. now rewrite <- app_assoc.
      * rewrite Hm. cbn [sent map]. now rewrite <- app_assoc.
Qed.

(** [detectAmpUrl] sends at most four requests, all of them pattern
    probes; an [amphtml] link with a href is returned resolved without
    any request, even on a page that is itself AMP, and a page that is
    itself AMP without such a link is its own AMP URL. *)
Theorem detectAmpUrl_sources (html originalUrl : string) (s : Net) :
  let doc := load html in
  let ampLink := attr (select doc (by_tag_attr "link" "rel" "amphtml")) "href" in
  (exists l, sent (snd (detectAmpUrl html originalUrl s)) = sent s ++ l /\
             (List.length l <= 4)%nat) /\
  (forall u,
      Js.truthy ampLink = true ->
      URL_new (Js.the ampLink) (Some originalUrl) = Some u ->
      detectAmpUrl html originalUrl s = (Ok (Some (Url.href u)), s)) /\
  (Js.truthy ampLink = false ->
   html_is_amp doc = true ->
   detectAmpUrl html originalUrl s = (Ok (Some originalUrl), s)) /\
  (forall url,
      Js.truthy ampLink = false ->
      html_is_amp doc = false ->
      URL_new originalUrl None = Some url ->
      detectAmpUrl html originalUrl s = probe_patterns (ampPatterns url) s).
Proof.
  intros doc ampLink. split; [apply sends_detectAmpUrl|].
  unfold detectAmpUrl. cbv zeta. fold doc. fold ampLink.
  split; [|split].
  - intros u Ht Hu. rewrite Ht. unfold bind, lift, new_URL. now rewrite Hu.
  - intros Ht Ha. now rewrite Ht, Ha.
  - intros url Ht Ha Hu. rewrite Ht, Ha. unfold bind, lift, new_URL. now rewrite Hu.
Qed.

(** *** robots.txt *)

Lemma fetchRobotsTxt_run (baseUrl : string) (s : Net) :
  fetchRobotsTxt baseUrl s =
  match URL_new "/robots.txt" (Some baseUrl) with
  | None => (Ok None, s)
  | Some robotsUrl =>
      match transport (robots_request robotsUrl) (world s) with
      | (inl resp, w) =>
          (Ok (if default_validateStatus (Response.status resp)
               then Some (Response.data resp) else None),
           mkNet w (sent s ++ [robots_request robotsUrl]))
      | (inr e, w) => (Ok None, mkNet w (sent s ++ [robots_request robotsUrl]))
      end
  end.
Proof.
  unfold fetchRobotsTxt, try_catch, bind at 1, lift, new_URL.
  destruct (URL_new "/robots.txt" (Some baseUrl)) as [u|]; [|reflexivity].
  unfold bind, axios. fold (robots_request u). cbn [world sent].
  destruct (transport (robots_request u) (world s)) as [[resp|e] w]; [|reflexivity].
  cbn [Request.validateStatus robots_request].
  destruct (default_validateStatus (Response.status resp)); reflexivity.
Qed.

(** [fetchRobotsTxt] never throws and sends at most one request; it
    returns the body exactly when the robots URL resolves and the answer
    has a 2xx status, and null otherwise: on a 404, on a transport
    failure, or when the base URL is invalid. *)
Theorem fetchRobotsTxt_outcome (baseUrl : string) (s : Net) :
  exists content s',
    fetchRobotsTxt baseUrl s = (Ok content, s') /\
    (forall body,
        content = Some body <->
        exists robotsUrl resp,
          URL_new "/robots.txt" (Some baseUrl) = Some robotsUrl /\
          fst (transport (robots_request robotsUrl) (world s)) = inl resp /\
          200 <= Response.status resp < 300 /\
          body = Response.data resp) /\
    (URL_new "/robots.txt" (Some baseUrl) = None -> s' = s) /\
    (forall robotsUrl,
        URL_new "/robots.txt" (Some baseUrl) = Some robotsUrl ->
        sent s' = sent s ++ [robots_request robotsUrl]).
Proof.
  rewrite fetchRobotsTxt_run.
  destruct (URL_new "/robots.txt" (Some baseUrl)) as [u|].
  - destruct (transport (robots_request u) (world s)) as [[resp|e] w] eqn:Et.
    + eexists. eexists. split; [reflexivity|].
      split; [|split; [discriminate|intros ? [= <-]; reflexivity]].
      intros body. unfold default_validateStatus.
      destruct (Z.leb_spec 200 (Response.status resp));
        destruct (Z.ltb_spec (Response.status resp) 300); cbn [andb]; split;
        try discriminate.
      * intros [= <-]. exists u, resp. rewrite Et. repeat split; assumption.
      * intros (u' & resp' & [= <-] & Hr & _ & ->). rewrite Et in Hr.
        now injection Hr as <-.
      * intros (u' & resp' & [= <-] & Hr & Hs & _). rewrite Et in Hr.
        injection Hr as <-. lia.
      * intros (u' & resp' & [= <-] & Hr & Hs & _). rewrite Et in Hr.
        injection Hr as <-. lia.
      * intros (u' & resp' & [= <-] & Hr & Hs & _). rewrite Et in Hr.
        injection Hr as <-. lia.
    + eexists. eexists. split; [reflexivity|].
      split; [|split; [discriminate|intros ? [= <-]; reflexivity]].
      intros body. split; [discriminate|].
      intros (u' & resp' & [= <-] & Hr & _). rewrite Et in Hr. discriminate.
  - exists None, s. split; [reflexivity|].
    split; [|split; [reflexivity|discriminate]].
    intros body. split; [discriminate|]. intros (? & ? & [=] & _).
Qed.

(** *** Link analyzer, continued *)

Lemma pushed_all_length (links : list LinkInfo.t) :
  forall answers, (List.length (pushed_all links answers) <= List.length links)%nat.
Proof.
  induction links as [|link rest IH]; intros [|answer answers]; simpl; try lia.
  rewrite length_app. specialize (IH answers).
  unfold pushed. destruct (is_broken (result_of answer)); simpl; lia.
Qed.

Lemma analyzeLinks_inv (html baseUrl : string) (s s' : Net) (links : Links.t) :
  analyzeLinks html baseUrl s = (Ok links, s') ->
  exists base,
    URL_new baseUrl None = Some base /\
    analyze_collected
      (collect_links base baseUrl (select (load html) (having_attr (Some "a") "href"))) s
    = (Ok links, s').
Proof.
  unfold analyzeLinks, bind at 1, lift, new_URL. cbv zeta.
  destruct (URL_new baseUrl None) as [base|]; [|discriminate].
  intros Ha. now exists base.
Qed.

Lemma analyze_collected_run (allLinks : list LinkInfo.t) (s : Net) :
  exists checked,
    checked = firstn 20 (linksToCheck allLinks) /\
    analyze_collected allLinks s =
    (Ok (Links.mk
           (Z.of_nat (List.length allLinks))
           (Z.of_nat (List.length
                        (filter (fun link => negb (LinkInfo.isExternal link)) allLinks)))
           (Z.of_nat (List.length (filter (fun link => LinkInfo.isExternal link) allLinks)))
           (pushed_all checked (fst (probe_answers checked (world s))))
           (map (fun link => ExternalLink.mk (LinkInfo.url link) (LinkInfo.text link)
                                             (LinkInfo.nofollow link) 200)
                (filter (fun link => LinkInfo.isExternal link) allLinks))),
     mkNet (snd (probe_answers checked (world s)))
           (sent s ++ map (fun link => probe_request (LinkInfo.url link)) checked)).
Proof.
  exists (firstn 20 (linksToCheck allLinks)). split; [reflexivity|].
  unfold analyze_collected, bind, Js.slice0. rewrite check_links_run. reflexivity.
Qed.

Lemma analyzeLinks_broken_le (html baseUrl : string) (s s' : Net) (links : Links.t) :
  analyzeLinks html baseUrl s = (Ok links, s') ->
  (List.length (Links.broken links) <= 20)%nat.
Proof.
  intros Ha. destruct (analyzeLinks_inv _ _ _ _ _ Ha) as (base & _ & Hc).
  destruct (analyze_collected_run
              (collect_links base baseUrl
                 (select (load html) (having_attr (Some "a") "href"))) s)
    as (checked & Hch & Hrun).
  rewrite Hrun in Hc. injection Hc as <- _. cbn [Links.broken].
  etransitivity; [apply pushed_all_length|]. rewrite Hch. apply firstn_le_length.
Qed.

(** Whatever the probes answer, [analyzeLinks] reports every external
    link, checked or not, with status 200, as many as the external
    count; the broken list has at most twenty entries. *)
Theorem analyzeLinks_report (html baseUrl : string) (s s' : Net) (links : Links.t) :
  analyzeLinks html baseUrl s = (Ok links, s') ->
  Forall (fun link => ExternalLink.status link = 200) (Links.externalLinks links) /\
  Z.of_nat (List.length (Links.externalLinks links)) = Links.external links /\
  (List.length (Links.broken links) <= 20)%nat /\
  Z.of_nat (List.length (Links.broken links)) <= Links.total links.
Proof.
  intros Ha. destruct (analyzeLinks_inv _ _ _ _ _ Ha) as (base & _ & Hc).
  set (allLinks := collect_links base baseUrl _) in Hc.
  destruct (analyze_collected_run allLinks s) as (checked & Hch & Hrun).
  rewrite Hrun in Hc. injection Hc as <- _.
  cbn [Links.externalLinks Links.external Links.broken Links.total].
  split; [|split; [|split]].
  - apply Forall_map, Forall_forall. reflexivity.
  - now rewrite length_map.
  - etransitivity; [apply pushed_all_length|]. rewrite Hch. apply firstn_le_length.
  - apply inj_le. etransitivity; [apply pushed_all_length|].
    rewrite Hch. unfold linksToCheck, Js.slice0.
    rewrite length_firstn, length_app, length_firstn.
    pose proof (filter_length (fun link => LinkInfo.isExternal link) allLinks) as Hp.
    cbv beta in Hp. lia.
Qed.

(** The anchors [analyzeLinks] leaves out: every collected link comes from
    an anchor whose href is not empty, is not a fragment, a [mailto:] or a
    [tel:] link, and resolves against the base URL; it is external exactly
    when its host differs from the base's. *)
Theorem collect_links_sound (base : Url.t) (baseUrl : string) (anchors : list Element.t) :
  (List.length (collect_links base baseUrl anchors) <= List.length anchors)%nat /\
  Forall (fun link =>
            exists anchor href absoluteUrl,
              In anchor anchors /\
              get_attr "href" (Element.attribs anchor) = Some href /\
              href <> "" /\
              Js.startsWith href "#" = false /\
              Js.startsWith href "mailto:" = false /\
              Js.startsWith href "tel:" = false /\
              URL_new href (Some baseUrl) = Some absoluteUrl /\
              LinkInfo.url link = Url.href absoluteUrl /\
              LinkInfo.text link = Js.trim (Element.text anchor) /\
              (LinkInfo.isExternal link = false <->
               Url.hostname absoluteUrl = Url.hostname base))
         (collect_links base baseUrl anchors).
Proof.
  induction anchors as [|a rest [IHl IHf]]; cbn [collect_links].
  - split; [simpl; lia|constructor].
  - assert (Hrest :
              Forall (fun link =>
                        exists anchor href absoluteUrl,
                          In anchor (a :: rest) /\
                          get_attr "href" (Element.attribs anchor) = Some href /\
                          href <> "" /\
                          Js.startsWith href "#" = false /\
                          Js.startsWith href "mailto:" = false /\
                          Js.startsWith href "tel:" = false /\
                          URL_new href (Some baseUrl) = Some absoluteUrl /\
                          LinkInfo.url link = Url.href absoluteUrl /\
                          LinkInfo.text link = Js.trim (Element.text anchor) /\
                          (LinkInfo.isExternal link = false <->
                           Url.hostname absoluteUrl = Url.hostname base))
                     (collect_links base baseUrl rest)).
    { eapply Forall_impl; [|exact IHf].
      intros link (anchor & href & u & Hin & Hrest). exists anchor, href, u.
      split; [now right|exact Hrest]. }
    destruct (collect_link base baseUrl a) as [l|] eqn:El.
    + split; [simpl; lia|]. constructor; [|exact Hrest].
      unfold collect_link in El. cbv zeta in El.
      destruct (get_attr "href" (Element.attribs a)) as [href|] eqn:Eh;
        [|discriminate El].
      cbn [Js.the] in El.
      destruct (Js.truthy (Some href)) eqn:Et; [|discriminate El].
      destruct (Js.startsWith href "#") eqn:E1; [discriminate El|].
      destruct (Js.startsWith href "mailto:") eqn:E2; [discriminate El|].
      destruct (Js.startsWith href "tel:") eqn:E3; [discriminate El|].
      cbn [negb orb] in El. unfold new_URL in El.
      destruct (URL_new href (Some baseUrl)) as [u|] eqn:Eu; [|discriminate El].
      injection El as <-. exists a, href, u. cbn.
      repeat split; try assumption; try (now left).
      * intros ->. discriminate Et.
      * intros Hn. apply negb_false_iff in Hn. now apply String.eqb_eq.
      * intros Hh. apply negb_false_iff. now apply String.eqb_eq.
    + split; [simpl; lia|exact Hrest].
Qed.

(** *** Orchestrator, continued *)

(** When the primary fetch fails, the analysis fails with the fetch error
    wrapped twice, after that single request: nothing else is tried. *)
Theorem analyzeWebsite_fetch_failure (url : string) (s s1 : Net) (e : Thrown) :
  fetchPage (normalizeUrl url) s = (Throw e, s1) ->
  analyzeWebsite url s
  = (Throw (ErrorObj ("SEO analysis failed: " ++ message_of e)%string), s1) /\
  sent s1 = sent s ++ [page_request (normalizeUrl url)] /\
  exists detail, e = ErrorObj ("Failed to fetch page: " ++ detail)%string.
Proof.
  intros Hf. split; [|split].
  - unfold analyzeWebsite, try_catch, bind at 1. cbv zeta. now rewrite Hf.
  - pose proof (fetchPage_sent (normalizeUrl url) s) as Hs. now rewrite Hf in Hs.
  - rewrite fetchPage_run in Hf.
    destruct (transport _ _) as [[resp|e'] w].
    + destruct (400 <=? Response.status resp); [|discriminate].
      injection Hf as <- _. eexists. reflexivity.
    + injection Hf as <- _. eexists. reflexivity.
Qed.

Lemma ret_inv {A} (a b : A) (s s' : Net) :
  ret a s = (Ok b, s') -> b = a /\ s' = s.
Proof. unfold ret. intros [= -> ->]. auto. Qed.

(** Everything a returned result is made of. *)
Lemma analyzeWebsite_inv_full (url : string) (s s' : Net) (r : SEOAnalysisResult.t) :
  analyzeWebsite url s = (Ok r, s') ->
  exists page s1 ampUrl regularUrl s2 links s3 content s4 cmp,
    let html := FetchOutcome.html page in
    let data :=
      AnalysisData.mk (normalizeUrl url)
        (extractMetaTags html (normalizeUrl url)) (extractBreadcrumbs html)
        (extractSchema html)
        (RobotsTxt.mk (Js.truthy content) content
                      (if Js.truthy content then parseRobotsTxt (Js.the content) else []))
        links (FetchOutcome.performance page) in
    fetchPage (normalizeUrl url) s = (Ok page, s1) /\
    resolve_amp (html_is_amp (load html)) html (normalizeUrl url) s1
    = (Ok (ampUrl, regularUrl), s2) /\
    analyzeLinks html (normalizeUrl url) s2 = (Ok links, s3) /\
    fetchRobotsTxt (normalizeUrl url) s3 = (Ok content, s4) /\
    compare_step ampUrl regularUrl s4 = (Ok cmp, s') /\
    r = SEOAnalysisResult.mk data
          (Scores.score (calculateScore data)) (Scores.issues (calculateScore data))
          (Scores.warnings (calculateScore data)) (Scores.passed (calculateScore data))
          (html_is_amp (load html)) (Js.or_null ampUrl) (Js.or_null regularUrl) cmp.
Proof.
  unfold analyzeWebsite, try_catch. cbv zeta.
  match goal with |- context [bind ?c ?k s] => destruct (bind c k s) as [[r0|e] s0] eqn:Hb end;
    [|discriminate].
  intros [= <- <-].
  apply bind_inv in Hb. destruct Hb as (page & s1 & Hf & Hb).
  apply bind_inv in Hb. destruct Hb as (isCurrentAmp & s1' & Hi & Hb).
  unfold isAmpPage, ret in Hi. injection Hi as <- <-.
  apply bind_inv in Hb. destruct Hb as ([ampUrl regularUrl] & s2 & Hr & Hb).
  apply bind_inv in Hb. destruct Hb as (links & s3 & Hl & Hb).
  apply bind_inv in Hb. destruct Hb as (content & s4 & Hc & Hb).
  apply bind_inv in Hb. destruct Hb as (cmp & s5 & Hp & Hb).
  apply ret_inv in Hb. destruct Hb as [-> ->].
  exists page, s1, ampUrl, regularUrl, s2, links, s3, content, s4, cmp.
  cbv zeta. split; [exact Hf|]. split; [exact Hr|]. split; [exact Hl|].
  split; [exact Hc|]. split; [exact Hp|]. reflexivity.
Qed.

(** The four tallies of a returned result are those of [calculateScore] on
    the bundles returned with them; the score is between 0 and 100, and
    since at most twenty links are probed there are at most 23 issues and 7 warnings. *)
Theorem analyzeWebsite_scores (url : string) (s s' : Net) (r : SEOAnalysisResult.t) :
  analyzeWebsite url s = (Ok r, s') ->
  let scores := calculateScore (SEOAnalysisResult.data r) in
  SEOAnalysisResult.overallScore r = Scores.score scores /\
  SEOAnalysisResult.issues r = Scores.issues scores /\
  SEOAnalysisResult.warnings r = Scores.warnings scores /\
  SEOAnalysisResult.passed r = Scores.passed scores /\
  0 <= SEOAnalysisResult.overallScore r <= 100 /\
  0 <= SEOAnalysisResult.issues r <= 23 /\
  0 <= SEOAnalysisResult.warnings r <= 7 /\
  0 <= SEOAnalysisResult.passed r <= 9.
Proof.
  intros Hr.
  destruct (analyzeWebsite_inv_full _ _ _ _ Hr)
    as (page & s1 & a & g & s2 & links & s3 & content & s4 & cmp & Hall).
  cbv zeta in Hall. destruct Hall as (_ & _ & Hl & _ & _ & ->).
  cbn [SEOAnalysisResult.data SEOAnalysisResult.overallScore SEOAnalysisResult.issues
       SEOAnalysisResult.warnings SEOAnalysisResult.passed].
  set (data := AnalysisData.mk _ _ _ _ _ _ _).
  pose proof (rubric_nonneg data) as (Hi & Hw & Hp).
  change (Scores.issues (rubric data)) with (Scores.issues (calculateScore data)) in Hi.
  change (Scores.warnings (rubric data)) with (Scores.warnings (calculateScore data)) in Hw.
  change (Scores.passed (rubric data)) with (Scores.passed (calculateScore data)) in Hp.
  pose proof (calculateScore_tally_bounds data) as (Hi' & Hw' & Hp').
  pose proof (analyzeLinks_broken_le _ _ _ _ _ Hl) as Hb.
  change (Links.broken (AnalysisData.links data)) with (Links.broken links) in Hi'.
  repeat split; try assumption; try lia.
  - unfold calculateScore; cbn [Scores.score]; lia.
  - unfold calculateScore; cbn [Scores.score]; lia.
Qed.

(** The robots.txt bundle of a returned result: found exactly when a
    non-empty body was fetched, with the rules parsed from that body, and
    no rules when nothing was found. *)
Theorem analyzeWebsite_robots (url : string) (s s' : Net) (r : SEOAnalysisResult.t) :
  analyzeWebsite url s = (Ok r, s') ->
  let robotsTxt := AnalysisData.robotsTxt (SEOAnalysisResult.data r) in
  RobotsTxt.found robotsTxt = Js.truthy (RobotsTxt.content robotsTxt) /\
  (RobotsTxt.found robotsTxt = true ->
   RobotsTxt.rules robotsTxt = parseRobotsTxt (Js.the (RobotsTxt.content robotsTxt))) /\
  (RobotsTxt.found robotsTxt = false -> RobotsTxt.rules robotsTxt = []) /\
  Forall rule_wf (RobotsTxt.rules robotsTxt).
Proof.
  intros Hr.
  destruct (analyzeWebsite_inv_full _ _ _ _ Hr)
    as (page & s1 & a & g & s2 & links & s3 & content & s4 & cmp & Hall).
  cbv zeta in Hall. destruct Hall as (_ & _ & _ & _ & _ & ->).
  cbn [SEOAnalysisResult.data AnalysisData.robotsTxt RobotsTxt.found RobotsTxt.content
       RobotsTxt.rules].
  split; [reflexivity|]. destruct (Js.truthy content).
  - repeat split; try discriminate. apply parseRobotsTxt_wf.
  - repeat split; try discriminate. constructor.
Qed.

Lemma or_null_truthy (v : option string) : Js.truthy v = true -> Js.or_null v = v.
Proof. unfold Js.or_null. now intros ->. Qed.

Lemma truthy_the (v : option string) : Js.truthy v = true -> v = Some (Js.the v).
Proof. destruct v; [reflexivity|discriminate]. Qed.

(** The AMP fields of a returned result: a page that is not AMP is its own
    regular URL, an AMP page is its own AMP URL, and a comparison is only
    present when both URLs are set and differ. *)
Theorem analyzeWebsite_amp_fields (url : string) (s s' : Net) (r : SEOAnalysisResult.t) :
  analyzeWebsite url s = (Ok r, s') ->
  (SEOAnalysisResult.isAmp r = false ->
   SEOAnalysisResult.regularUrl r = Some (normalizeUrl url)) /\
  (SEOAnalysisResult.isAmp r = true ->
   SEOAnalysisResult.ampUrl r = Some (normalizeUrl url)) /\
  (SEOAnalysisResult.ampComparison r <> None ->
   exists ampUrl regularUrl,
     SEOAnalysisResult.ampUrl r = Some ampUrl /\
     SEOAnalysisResult.regularUrl r = Some regularUrl /\
     ampUrl <> regularUrl).
Proof.
  intros Hr.
  destruct (analyzeWebsite_inv_full _ _ _ _ Hr)
    as (page & s1 & a & g & s2 & links & s3 & content & s4 & cmp & Hall).
  cbv zeta in Hall. destruct Hall as (_ & Hres & _ & _ & Hcmp & ->).
  cbn [SEOAnalysisResult.isAmp SEOAnalysisResult.regularUrl SEOAnalysisResult.ampUrl
       SEOAnalysisResult.ampComparison].
  split; [|split].
  - intros Ha. rewrite Ha in Hres. unfold resolve_amp in Hres.
    apply bind_inv in Hres. destruct Hres as (a' & s2' & _ & Hret).
    unfold ret in Hret. injection Hret as <- <- <-. apply normalizeUrl_truthy.
  - intros Ha. rewrite Ha, resolve_amp_current in Hres. cbv zeta in Hres.
    match type of Hres with
    | (if ?b then _ else _) = _ => destruct b
    end.
    + match type of Hres with
      | context [URL_new ?x ?y] => destruct (URL_new x y)
      end; [|discriminate].
      injection Hres as <- _ _. apply normalizeUrl_truthy.
    + injection Hres as <- _ _. apply normalizeUrl_truthy.
  - intros Hc. unfold compare_step in Hcmp.
    destruct (Js.truthy a) eqn:Ea; [|unfold ret in Hcmp; cbn in Hcmp; congruence].
    destruct (Js.truthy g) eqn:Eg; [|unfold ret in Hcmp; cbn in Hcmp; congruence].
    destruct (String.eqb_spec (Js.the a) (Js.the g)) as [Heq|Hne];
      [unfold ret in Hcmp; cbn in Hcmp; congruence|].
    exists (Js.the a), (Js.the g).
    rewrite !or_null_truthy by assumption.
    split; [now apply truthy_the|]. split; [now apply truthy_the|exact Hne].
Qed.

(** *** Comparator *)

(** A comparison is returned only when both pages were fetched; each side
    is scored without robots.txt and without links, so both scores lie
    between 14 and 93 with at most three issues, and the differences are
    always load time, page size and schema markup, in that order. *)
Theorem compareAmpAndRegular_result (ampUrl regularUrl : string) (s s' : Net)
        (c : AmpComparison.t) :
  compareAmpAndRegular ampUrl regularUrl s = (Ok c, s') ->
  (exists ampData s1 regularData,
      fetchPage ampUrl s = (Ok ampData, s1) /\
      fetchPage regularUrl s1 = (Ok regularData, s') /\
      AmpComparison.ampScore c
      = Scores.score (calculateScore (side_data ampUrl ampData)) /\
      AmpComparison.regularScore c
      = Scores.score (calculateScore (side_data regularUrl regularData))) /\
  14 <= AmpComparison.ampScore c <= 93 /\
  14 <= AmpComparison.regularScore c <= 93 /\
  0 <= AmpComparison.ampIssues c <= 3 /\
  0 <= AmpComparison.regularIssues c <= 3 /\
  map Difference.category (AmpComparison.differences c)
  = ["Load Time"; "Page Size"; "Schema Markup"] /\
  sent s' = sent s ++ [page_request ampUrl; page_request regularUrl].
Proof.
  unfold compareAmpAndRegular, try_catch.
  match goal with |- context [bind ?b ?k s] => destruct (bind b k s) as [[c0|e] s0] eqn:Hb end;
    [|discriminate].
  intros [= <- <-].
  apply bind_inv in Hb. destruct Hb as ([ampData regularData] & s2 & Hboth & Hret).
  cbv zeta in Hret. apply ret_inv in Hret. destruct Hret as [-> ->].
  unfold both in Hboth.
  pose proof (fetchPage_sent ampUrl s) as Hs1.
  destruct (fetchPage ampUrl s) as [o1 s1] eqn:Hf1.
  pose proof (fetchPage_sent regularUrl s1) as Hs2.
  destruct (fetchPage regularUrl s1) as [o2 s3] eqn:Hf2.
  destruct o1 as [p1|e1]; [|discriminate].
  destruct o2 as [p2|e2]; [|discriminate].
  injection Hboth as <- <- <-.
  cbn [AmpComparison.ampScore AmpComparison.regularScore AmpComparison.ampIssues
       AmpComparison.regularIssues AmpComparison.differences map Difference.category].
  pose proof (score_without_robots_and_links (side_data ampUrl p1) eq_refl eq_refl)
    as (Ha1 & Ha2 & _).
  pose proof (score_without_robots_and_links (side_data regularUrl p2) eq_refl eq_refl)
    as (Hg1 & Hg2 & _).
  split.
  - exists p1, s1, p2. split; [reflexivity|]. split; [exact Hf2|].
    split; reflexivity.
  - split; [exact Ha1|]. split; [exact Hg1|]. split; [exact Ha2|].
    split; [exact Hg2|]. split; [reflexivity|].
    cbn [snd] in Hs1, Hs2. rewrite Hs2, Hs1, <- app_assoc. reflexivity.
Qed.

(** *** Extractors *)

(** The text fields of the meta tags are absent or non-empty and trimmed,
    never the empty string, and each length is 0 exactly when its text is
    absent and the length of the text otherwise. *)
Theorem extractMetaTags_texts (html originalUrl : string) :
  let m := extractMetaTags html originalUrl in
  clean_text (MetaTags.title m) /\
  clean_text (MetaTags.description m) /\
  clean_text (MetaTags.keywords m) /\
  clean_text (MetaTags.robots m) /\
  clean_text (MetaTags.htmlLang m) /\
  MetaTags.canonical m <> Some "" /\
  (MetaTags.title m = None <-> MetaTags.titleLength m = 0) /\
  (MetaTags.description m = None <-> MetaTags.descriptionLength m = 0) /\
  (MetaTags.keywords m = None <-> MetaTags.keywordsLength m = 0) /\
  (forall s, MetaTags.title m = Some s ->
             MetaTags.titleLength m = Z.of_nat (String.length s)) /\
  (forall s, MetaTags.description m = Some s ->
             MetaTags.descriptionLength m = Z.of_nat (String.length s)).
Proof.
  unfold extractMetaTags. cbv zeta.
  cbn [MetaTags.title MetaTags.description MetaTags.keywords MetaTags.robots
       MetaTags.htmlLang MetaTags.canonical MetaTags.titleLength
       MetaTags.descriptionLength MetaTags.keywordsLength].
  set (title := Js.or_null (Some (Js.trim _))).
  set (description := trimmed_or_null (attr (select _ (by_tag_attr "meta" "name" "description")) _)).
  set (keywords := trimmed_or_null (attr (select _ (by_tag_attr "meta" "name" "keywords")) _)).
  assert (Ct : clean_text title).
  { apply or_null_clean. intros s [= <-]. apply trim_idem. }
  assert (Cd : clean_text description) by apply trimmed_or_null_clean.
  assert (Ck : clean_text keywords) by apply trimmed_or_null_clean.
  destruct (length_or_0_spec title Ct) as [Lt Zt].
  destruct (length_or_0_spec description Cd) as [Ld Zd].
  destruct (length_or_0_spec keywords Ck) as [Lk Zk].
  split; [exact Ct|]. split; [exact Cd|]. split; [exact Ck|].
  split; [apply trimmed_or_null_clean|]. split; [apply trimmed_or_null_clean|].
  split; [apply or_null_not_empty|].
  split; [exact Zt|]. split; [exact Zd|]. split; [exact Zk|].
  split; intros s Hs; [rewrite Lt, Hs|rewrite Ld, Hs]; reflexivity.
Qed.

(** [robotsValid] is true exactly when the robots meta is present and
    contains [index]: the test for [noindex] adds nothing, a [noindex]
    page counts as valid; both flags are false without a robots meta. *)
Theorem extractMetaTags_robots (html originalUrl : string) :
  let m := extractMetaTags html originalUrl in
  (MetaTags.robotsValid m = true <->
   exists r, MetaTags.robots m = Some r /\ Js.includes r "index" = true) /\
  (forall r, MetaTags.robots m = Some r ->
             Js.includes r "noindex" = true -> MetaTags.robotsValid m = true) /\
  (MetaTags.maxImagePreview m = true <->
   exists r, MetaTags.robots m = Some r /\
             Js.includes r "max-image-preview:large" = true) /\
  (MetaTags.robots m = None ->
   MetaTags.robotsValid m = false /\ MetaTags.maxImagePreview m = false).
Proof.
  unfold extractMetaTags. cbv zeta.
  cbn [MetaTags.robots MetaTags.robotsValid MetaTags.maxImagePreview].
  set (robots := trimmed_or_null _).
  pose proof (clean_text_truthy robots (trimmed_or_null_clean _)) as Ht.
  rewrite Ht. destruct robots as [r|]; cbn [is_defined Js.the].
  - split; [|split; [|split]].
    + split.
      * intros Hv. exists r. split; [reflexivity|].
        apply orb_true_iff in Hv. destruct Hv as [Hv|Hv]; [exact Hv|].
        now apply includes_noindex.
      * intros (r' & [= <-] & Hi). now rewrite Hi.
    + intros r' [= <-] Hn. rewrite (includes_noindex _ Hn). reflexivity.
    + split; [intros Hm; now exists r|intros (r' & [= <-] & Hi); exact Hi].
    + discriminate.
  - split; [|split; [|split]].
    + split; [discriminate|intros (r & [=] & _)].
    + intros r [=].
    + split; [discriminate|intros (r & [=] & _)].
    + auto.
Qed.

Lemma push_microdata_truthy (elements : list Element.t) :
  forall types,
    Forall (fun t => json_truthy (Some (SchemaType.type t)) = true) types ->
    Forall (fun t => json_truthy (Some (SchemaType.type t)) = true)
           (fold_left push_microdata elements types).
Proof.
  induction elements as [|e rest IH]; intros types Ht; simpl; [exact Ht|].
  apply IH. unfold push_microdata. cbv zeta.
  destruct (Js.truthy (get_attr "itemtype" (Element.attribs e))) eqn:E; [|exact Ht].
  apply Forall_app. split; [exact Ht|]. constructor; [|constructor]. cbn.
  destruct (String.eqb_spec (pop (Js.split "/" (Js.the (get_attr "itemtype" (Element.attribs e))))) "")
    as [He|Hne].
  - destruct (get_attr "itemtype" (Element.attribs e)) as [i|]; [exact E|discriminate].
  - apply negb_true_iff. now apply String.eqb_neq.
Qed.

Lemma push_microdata_grows (elements : list Element.t) :
  forall types,
    (List.length types <= List.length (fold_left push_microdata elements types))%nat /\
    ((exists e, In e elements /\
                Js.truthy (get_attr "itemtype" (Element.attribs e)) = true) ->
     fold_left push_microdata elements types <> []).
Proof.
  induction elements as [|e rest IH]; intros types; simpl.
  - split; [lia|]. intros (e & [] & _).
  - destruct (IH (push_microdata types e)) as [Hl Hn].
    assert (Hg : (List.length types <= List.length (push_microdata types e))%nat).
    { unfold push_microdata. cbv zeta. destruct (Js.truthy _); [|lia].
      rewrite length_app. simpl. lia. }
    split; [lia|]. intros (x & [Heq|Hin] & Hx).
    + subst x.
      assert (Hp : (1 <= List.length (push_microdata types e))%nat).
      { unfold push_microdata. cbv zeta. rewrite Hx. rewrite length_app. simpl. lia. }
      intros Hnil. rewrite Hnil in Hl. simpl in Hl. lia.
    + apply Hn. now exists x.
Qed.

Lemma push_script_truthy (scripts : list Element.t) :
  forall types,
    Forall (fun t => json_truthy (Some (SchemaType.type t)) = true) types ->
    Forall (fun t => json_truthy (Some (SchemaType.type t)) = true)
           (fold_left push_script scripts types).
Proof.
  induction scripts as [|e rest IH]; intros types Ht; simpl; [exact Ht|].
  apply IH. unfold push_script. destruct (JSON_parse _); [|exact Ht].
  now apply push_typed_truthy.
Qed.

(** [extractSchema] reports found exactly when it lists a type; every
    listed type is truthy (a microdata type is a non-empty string), and a
    page with an element carrying a non-empty [itemtype] is always
    reported as having structured data. *)
Theorem extractSchema_types (html : string) :
  let schema := extractSchema html in
  (Schema.found schema = true <-> Schema.types schema <> []) /\
  Forall (fun t => json_truthy (Some (SchemaType.type t)) = true) (Schema.types schema) /\
  ((exists e, In e (load html) /\
              Js.truthy (get_attr "itemtype" (Element.attribs e)) = true) ->
   Schema.found schema = true).
Proof.
  unfold extractSchema. cbv zeta. cbn [Schema.found Schema.types].
  set (types := fold_left push_microdata _ _).
  assert (Hiff : negb (Nat.eqb (List.length types) 0) = true <-> types <> []).
  { destruct types; simpl; split; congruence. }
  split; [exact Hiff|]. split.
  - subst types. apply push_microdata_truthy, push_script_truthy. constructor.
  - intros (e & Hin & He). apply Hiff. subst types.
    apply push_microdata_grows. exists e. split; [|exact He].
    unfold select. apply filter_In. split; [exact Hin|].
    unfold matches, having_attr. cbn.
    destruct (get_attr "itemtype" (Element.attribs e)); [reflexivity|discriminate].
Qed.

Lemma is_breadcrumb_script_parses (script : Element.t) :
  is_breadcrumb_script script = true ->
  exists data, JSON_parse (Element.text script) = Some data.
Proof.
  unfold is_breadcrumb_script. destruct (JSON_parse _) as [d|]; [eauto|discriminate].
Qed.

(** [extractBreadcrumbs] prefers a JSON-LD breadcrumb list to the aria
    label: found is true exactly when a type is reported; a recognised
    script gives the schema.org type, and without one the aria label
    decides, with no data; a [null] entry met before the breadcrumb list
    of a JSON-LD array keeps the script from being recognised. *)
Theorem extractBreadcrumbs_sources (html : string) :
  let doc := load html in
  let b := extractBreadcrumbs html in
  (Breadcrumbs.found b = true <-> Breadcrumbs.type b <> None) /\
  ((exists script, In script (select doc ld_json) /\ is_breadcrumb_script script = true) ->
   Breadcrumbs.found b = true /\
   Breadcrumbs.type b = Some "schema.org/BreadcrumbList") /\
  ((forall script, In script (select doc ld_json) -> is_breadcrumb_script script = false) ->
   b = aria_breadcrumb doc /\ Breadcrumbs.data b = [] /\
   Breadcrumbs.found b
   = negb (Nat.eqb (List.length
                      (select doc (Selector.mk None (Some ("aria-label", Some "breadcrumb")))))
                   0)) /\
  (forall script before rest,
      JSON_parse (Element.text script) = Some (JArr (before ++ JNull :: rest)) ->
      Forall (fun item => exists t, at_type item = Ok t /\ is_BreadcrumbList t = false)
             before ->
      is_breadcrumb_script script = false).
Proof.
  intros doc b.
  assert (Haria : Breadcrumbs.found (aria_breadcrumb doc) = true <->
                  Breadcrumbs.type (aria_breadcrumb doc) <> None).
  { unfold aria_breadcrumb. destruct (negb _); cbn; split; congruence. }
  assert (Hdata : Breadcrumbs.data (aria_breadcrumb doc) = []).
  { unfold aria_breadcrumb. destruct (negb _); reflexivity. }
  subst b. unfold extractBreadcrumbs. cbv zeta. fold doc.
  split; [|split; [|split]].
  - destruct (find is_breadcrumb_script (select doc ld_json)) as [script|];
      [|exact Haria].
    destruct (JSON_parse (Element.text script)); [|exact Haria].
    cbn. split; congruence.
  - intros (script & Hin & Hs).
    destruct (find is_breadcrumb_script (select doc ld_json)) as [found|] eqn:Ef.
    + apply find_some in Ef. destruct Ef as [_ Hf].
      destruct (is_breadcrumb_script_parses _ Hf) as (d & ->). cbn. auto.
    + pose proof (find_none _ _ Ef script Hin). congruence.
  - intros Hnone.
    destruct (find is_breadcrumb_script (select doc ld_json)) as [found|] eqn:Ef.
    + apply find_some in Ef. destruct Ef as [Hin Hf].
      rewrite (Hnone _ Hin) in Hf. discriminate.
    + split; [reflexivity|]. split; [exact Hdata|].
      unfold aria_breadcrumb. destruct (negb _); reflexivity.
  - intros script before rest Hp Hb. unfold is_breadcrumb_script. rewrite Hp.
    cbn [at_type and_then is_BreadcrumbList].
    destruct (some_BreadcrumbList_null before rest Hb) as [e ->]. reflexivity.
Qed.

(** The dates: a published or modified date always comes with its source
    and is never the empty string; the meta property wins over the first
    [time] element, which is only read when the property is absent or
    empty; an empty [datetime] leaves the date null under the source
    [time tag]. *)
Theorem extractDates_sources (html : string) :
  let doc := load html in
  let d := extractDates html in
  let ogPublished :=
    attr (select doc (by_tag_attr "meta" "property" "article:published_time")) "content" in
  let timeTag := first_of (select doc (having_attr (Some "time") "datetime")) in
  (Dates.published d <> None -> Dates.publishedSource d <> None) /\
  (Dates.modified d = None <-> Dates.modifiedSource d = None) /\
  Dates.published d <> Some "" /\
  Dates.modified d <> Some "" /\
  (Js.truthy ogPublished = true ->
   Dates.published d = ogPublished /\
   Dates.publishedSource d = Some "article:published_time meta tag") /\
  (Js.truthy ogPublished = false -> timeTag <> [] ->
   Dates.published d = Js.or_null (attr timeTag "datetime") /\
   Dates.publishedSource d = Some "time tag") /\
  (Js.truthy ogPublished = false -> timeTag = [] ->
   Dates.published d = None /\ Dates.publishedSource d = None).
Proof.
  intros doc d ogPublished timeTag. subst d. unfold extractDates. cbv zeta.
  fold doc. fold ogPublished. fold timeTag.
  set (ogModified := attr (select doc (by_tag_attr "meta" "property" "article:modified_time")) "content").
  assert (Hm : (if Js.truthy ogModified then ogModified else None) <> Some "").
  { destruct ogModified as [m|]; simpl; [|discriminate].
    destruct (String.eqb_spec m ""); simpl; congruence. }
  assert (Hmi : (if Js.truthy ogModified then ogModified else None) = None <->
                (if Js.truthy ogModified
                 then Some "article:modified_time meta tag" else None) = None).
  { destruct ogModified as [m|]; simpl; [|tauto].
    destruct (String.eqb_spec m ""); simpl; split; congruence. }
  destruct (Js.truthy ogPublished) eqn:Eo.
  - rewrite Eo. cbn [negb andb].
    cbn [Dates.published Dates.publishedSource Dates.modified Dates.modifiedSource].
    split; [discriminate|]. split; [exact Hmi|]. split.
    { destruct ogPublished as [p|]; [|discriminate].
      simpl in Eo. destruct (String.eqb_spec p ""); [discriminate|congruence]. }
    split; [exact Hm|]. split; [auto|]. split; discriminate.
  - cbn [Js.truthy negb andb].
    destruct timeTag as [|t ts] eqn:Et; cbn [List.length Nat.eqb negb];
      cbn [Dates.published Dates.publishedSource Dates.modified Dates.modifiedSource].
    + split; [congruence|]. split; [exact Hmi|]. split; [discriminate|].
      split; [exact Hm|]. split; [discriminate|]. split; [congruence|auto].
    + split; [discriminate|]. split; [exact Hmi|]. split; [apply or_null_not_empty|].
      split; [exact Hm|]. split; [discriminate|]. split; [auto|discriminate].
Qed.

(** The author: a name always comes with a source, name and link are never
    empty strings, and the meta tag is only used, unchanged, when the
    [rel=author] element gives no name. *)
Theorem extractAuthor_sources (html : string) :
  let doc := load html in
  let a := extractAuthor html in
  let metaAuthor := attr (select doc (by_tag_attr "meta" "name" "author")) "content" in
  (Author.name a <> None -> Author.source a <> None) /\
  Author.name a <> Some "" /\
  Author.link a <> Some "" /\
  (Author.source a = Some "meta author tag" <->
   Author.name a = metaAuthor /\ Js.truthy metaAuthor = true /\
   Author.source a <> Some ("rel=" ++ quote ++ "author" ++ quote ++ " link")%string) /\
  (select_any doc [by_tag_attr "link" "rel" "author"; by_tag_attr "a" "rel" "author"] = [] ->
   Author.link a = None /\
   Author.name a = (if Js.truthy metaAuthor then metaAuthor else None)).
Proof.
  intros doc a metaAuthor. subst a. unfold extractAuthor. cbv zeta.
  fold doc. fold metaAuthor.
  set (authorLink := first_of (select_any doc _)).
  set (found := negb (Nat.eqb (List.length authorLink) 0)).
  set (name := if found then Js.or_null _ else None).
  set (link := if found then Js.or_null (attr authorLink "href") else None).
  assert (Hname : name <> Some "").
  { subst name. destruct found; [apply or_null_not_empty|discriminate]. }
  assert (Hlink : link <> Some "").
  { subst link. destruct found; [apply or_null_not_empty|discriminate]. }
  assert (Hsrc : name <> None -> found = true).
  { subst name. destruct found; [reflexivity|congruence]. }
  assert (Hmeta : Js.truthy metaAuthor = true -> metaAuthor <> Some "" /\ metaAuthor <> None).
  { destruct metaAuthor as [m|]; simpl; [|discriminate].
    destruct (String.eqb_spec m ""); simpl; [discriminate|]. split; congruence. }
  destruct (negb (Js.truthy name) && Js.truthy metaAuthor) eqn:E;
    cbn [Author.name Author.link Author.source].
  - apply andb_true_iff in E. destruct E as [En Em]. destruct (Hmeta Em) as [M1 M2].
    split; [discriminate|]. split; [exact M1|]. split; [exact Hlink|].
    split; [split; [intros _; repeat split; try assumption; discriminate|reflexivity]|].
    intros Hnil. subst link found authorLink. rewrite Hnil. cbn.
    split; [reflexivity|]. now rewrite Em.
  - split; [|split; [exact Hname|split; [exact Hlink|split]]].
    + intros Hn. rewrite (Hsrc Hn). discriminate.
    + split.
      * destruct found; discriminate.
      * intros (Hn & Hm & Hrel). exfalso.
        destruct (Hmeta Hm) as [_ M2]. rewrite <- Hn in M2.
        rewrite (Hsrc M2) in Hrel. now apply Hrel.
    + intros Hnil. subst link name found authorLink. rewrite Hnil. cbn.
      split; [reflexivity|].
      rewrite Hnil in E. cbn in E. now rewrite E.
Qed.

(** Open Graph and Twitter Card fields are absent or non-empty and
    trimmed: an empty or blank [content] is reported as null. *)
Theorem social_tags_clean (html : string) :
  let og := extractOpenGraph html in
  let tw := extractTwitterCard html in
  clean_text (OpenGraph.title og) /\ clean_text (OpenGraph.description og) /\
  clean_text (OpenGraph.image og) /\ clean_text (OpenGraph.type og) /\
  clean_text (TwitterCard.card tw) /\ clean_text (TwitterCard.title tw) /\
  clean_text (TwitterCard.description tw) /\ clean_text (TwitterCard.image tw).
Proof.
  cbv zeta. unfold extractOpenGraph, extractTwitterCard. cbn.
  repeat split; apply trimmed_or_null_clean.
Qed.

End AnalyzerFacts.

(** ** Storage *)

Section JsMapFacts.
Context {V : Type}.

Lemma get_set_same (k : Z) (v : V) (m : JsMap.t V) :
  JsMap.get k (JsMap.set k v m) = Some v.
Proof.
  induction m as [|[k' v'] rest IH]; simpl.
  - now rewrite Z.eqb_refl.
  - destruct (Z.eqb_spec k' k); simpl.
    + now rewrite Z.eqb_refl.
    + destruct (Z.eqb_spec k' k); [contradiction|exact IH].
Qed.

Lemma get_set_other (k k' : Z) (v : V) (m : JsMap.t V) :
  k <> k' -> JsMap.get k' (JsMap.set k v m) = JsMap.get k' m.
Proof.
  intros Hne. induction m as [|[k0 v0] rest IH]; simpl.
  - destruct (Z.eqb_spec k k'); [contradiction|reflexivity].
  - destruct (Z.eqb_spec k0 k) as [->|]; simpl.
    + destruct (Z.eqb_spec k k'); [contradiction|reflexivity].
    + destruct (Z.eqb_spec k0 k'); [reflexivity|exact IH].
Qed.

Lemma get_None (k : Z) (m : JsMap.t V) :
  JsMap.get k m = None <-> ~ In k (JsMap.keys m).
Proof.
  induction m as [|[k' v'] rest IH]; simpl; [tauto|].
  destruct (Z.eqb_spec k' k); [split; [discriminate|tauto]|].
  rewrite IH. tauto.
Qed.

Lemma set_fresh (k : Z) (v : V) (m : JsMap.t V) :
  JsMap.get k m = None -> JsMap.set k v m = m ++ [(k, v)].
Proof.
  induction m as [|[k' v'] rest IH]; simpl; [reflexivity|].
  destruct (Z.eqb_spec k' k); [discriminate|]. intros Hn. now rewrite IH.
Qed.

Lemma set_existing (k : Z) (v old : V) (m : JsMap.t V) :
  JsMap.get k m = Some old ->
  JsMap.keys (JsMap.set k v m) = JsMap.keys m /\
  exists before after,
    m = before ++ (k, old) :: after /\
    JsMap.set k v m = before ++ (k, v) :: after /\
    ~ In k (JsMap.keys before).
Proof.
  induction m as [|[k' v'] rest IH]; simpl; [discriminate|].
  destruct (Z.eqb_spec k' k) as [->|Hne].
  - intros [= ->]. split; [reflexivity|]. exists [], rest. simpl. auto.
  - intros Hg. destruct (IH Hg) as (Hk & before & after & Hm & Hs & Hnin).
    simpl. rewrite Hk. split; [reflexivity|].
    exists ((k', v') :: before), after. simpl. rewrite Hs, <- Hm.
    repeat split. intros [?|?]; [congruence|contradiction].
Qed.

Lemma get_In (k : Z) (v : V) (m : JsMap.t V) :
  JsMap.get k m = Some v -> In (k, v) m.
Proof.
  induction m as [|[k' v'] rest IH]; simpl; [discriminate|].
  destruct (Z.eqb_spec k' k) as [->|]; [intros [= ->]; now left|].
  intros Hg. right. now apply IH.
Qed.

Variable id_of : V -> Z.

Lemma sequential_fresh (next : Z) (m : JsMap.t V) :
  MemStorage.sequential id_of next m -> JsMap.get next m = None.
Proof.
  intros (Hn & Hk & _). apply get_None. rewrite Hk. intros Hin.
  apply in_map_iff in Hin. destruct Hin as (i & Hi & Hin).
  apply in_seq in Hin. lia.
Qed.

Lemma sequential_bound (next k : Z) (v : V) (m : JsMap.t V) :
  MemStorage.sequential id_of next m ->
  JsMap.get k m = Some v -> id_of v = k /\ 1 <= k < next.
Proof.
  intros (Hn & Hk & Hf) Hg. apply get_In in Hg. split.
  - rewrite Forall_forall in Hf. exact (Hf _ Hg).
  - assert (Hin : In k (JsMap.keys m)).
    { unfold JsMap.keys. apply in_map_iff. now exists (k, v). }
    rewrite Hk in Hin. apply in_map_iff in Hin. destruct Hin as (i & Hi & Hin).
    apply in_seq in Hin. lia.
Qed.

Lemma sequential_present (next k : Z) (m : JsMap.t V) :
  MemStorage.sequential id_of next m ->
  1 <= k < next -> exists v, JsMap.get k m = Some v.
Proof.
  intros (Hn & Hk & _) Hr. destruct (JsMap.get k m) as [v|] eqn:Eg; [eauto|].
  exfalso. apply get_None in Eg. apply Eg. rewrite Hk.
  apply in_map_iff. exists (Z.to_nat k). split; [lia|]. apply in_seq. lia.
Qed.

Lemma sequential_add (next : Z) (v : V) (m : JsMap.t V) :
  MemStorage.sequential id_of next m ->
  id_of v = next ->
  MemStorage.sequential id_of (next + 1) (JsMap.set next v m).
Proof.
  intros Hs Hid. pose proof (sequential_fresh _ _ Hs) as Hf.
  destruct Hs as (Hn & Hk & Hall). rewrite (set_fresh _ _ _ Hf).
  split; [lia|]. split.
  - unfold JsMap.keys in *. rewrite map_app, Hk. simpl.
    replace (Z.to_nat (next + 1 - 1)) with (S (Z.to_nat (next - 1))) by lia.
    rewrite seq_S, map_app. simpl. do 3 f_equal. lia.
  - apply Forall_app. split; [exact Hall|]. constructor; [exact Hid|constructor].
Qed.

Lemma sequential_update (next k : Z) (v old : V) (m : JsMap.t V) :
  MemStorage.sequential id_of next m ->
  JsMap.get k m = Some old ->
  id_of v = k ->
  MemStorage.sequential id_of next (JsMap.set k v m).
Proof.
  intros (Hn & Hk & Hall) Hg Hid.
  destruct (set_existing k v old m Hg) as (Hkeys & before & after & Hm & Hset & _).
  split; [exact Hn|]. split; [now rewrite Hkeys|].
  rewrite Hset. rewrite Hm in Hall.
  apply Forall_app in Hall. destruct Hall as [Hb Ha].
  apply Forall_app. split; [exact Hb|]. inversion Ha as [|? ? _ Ha'].
  constructor; [exact Hid|exact Ha'].
Qed.

End JsMapFacts.

Section StorageFacts.
Context `{Calendar}.

Lemma invariant_empty : MemStorage.invariant MemStorage.empty.
Proof.
  unfold MemStorage.invariant, MemStorage.sequential, MemStorage.empty; cbn.
  refine (conj (conj _ (conj _ _)) (conj (conj _ (conj _ _))
           (conj (conj _ (conj _ _)) (conj _ _))));
    first [lia | reflexivity | constructor].
Qed.

Ltac invariant_parts :=
  unfold MemStorage.invariant;
  cbn [fst snd MemStorage.users MemStorage.seoAnalyses MemStorage.scheduledScans
       MemStorage.scanAlerts MemStorage.currentUserId MemStorage.currentAnalysisId
       MemStorage.currentScanId MemStorage.currentAlertId];
  refine (conj _ (conj _ (conj _ (conj _ _)))); try assumption.

Lemma invariant_perform (st : MemStorage.t) (call : MemStorage.Call) :
  MemStorage.invariant st -> MemStorage.invariant (MemStorage.perform st call).
Proof.
  intros Hinv. pose proof Hinv as (Hu & Ha & Hs & Hal & Hid).
  destruct call; unfold MemStorage.perform.
  - unfold MemStorage.createUser. invariant_parts. now apply sequential_add.
  - unfold MemStorage.createSeoAnalysis. invariant_parts. now apply sequential_add.
  - unfold MemStorage.createScheduledScan. invariant_parts. now apply sequential_add.
  - unfold MemStorage.deleteScheduledScan.
    destruct (JsMap.get id (MemStorage.scheduledScans st)) as [scan|] eqn:Eg;
      [|exact Hinv].
    destruct (ScheduledScan.userEmail scan =? userEmail)%string; [|exact Hinv].
    invariant_parts.
    apply (sequential_update _ _ _ _ scan); try assumption.
    exact (proj1 (sequential_bound _ _ _ _ _ Hs Eg)).
  - unfold MemStorage.markAlertAsRead. rewrite Hal. exact Hinv.
Qed.

Lemma reachable_invariant (st : MemStorage.t) :
  MemStorage.reachable st -> MemStorage.invariant st.
Proof.
  intros (calls & ->). rewrite <- (rev_involutive calls).
  induction (rev calls) as [|call rest IH]; simpl.
  - apply invariant_empty.
  - rewrite fold_left_app. simpl. now apply invariant_perform.
Qed.

Lemma reachable_perform (st : MemStorage.t) (call : MemStorage.Call) :
  MemStorage.reachable st -> MemStorage.reachable (MemStorage.perform st call).
Proof.
  intros (calls & ->). exists (calls ++ [call]). now rewrite fold_left_app.
Qed.

(** Storing an analysis and reading it back: the new id is the counter,
    was free before, and reads back as the stored record, whose score
    columns are null and whose AMP flag is false whatever the analysis
    says; every other id reads as before, and the record is appended to
    the analyses of its URL. *)
Theorem createSeoAnalysis_roundtrip (st : MemStorage.t)
        (insertAnalysis : InsertSeoAnalysis.t) (now : Z) :
  MemStorage.reachable st ->
  let analysis := fst (MemStorage.createSeoAnalysis insertAnalysis now st) in
  let st' := snd (MemStorage.createSeoAnalysis insertAnalysis now st) in
  SeoAnalysis.id analysis = MemStorage.currentAnalysisId st /\
  MemStorage.getSeoAnalysis (SeoAnalysis.id analysis) st = None /\
  MemStorage.getSeoAnalysis (SeoAnalysis.id analysis) st' = Some analysis /\
  (forall id, id <> SeoAnalysis.id analysis ->
              MemStorage.getSeoAnalysis id st' = MemStorage.getSeoAnalysis id st) /\
  SeoAnalysis.analysisData analysis = InsertSeoAnalysis.analysisData insertAnalysis /\
  SeoAnalysis.score analysis = None /\
  SeoAnalysis.isAmp analysis = false /\
  MemStorage.getSeoAnalysesByUrl (InsertSeoAnalysis.url insertAnalysis) st'
  = MemStorage.getSeoAnalysesByUrl (InsertSeoAnalysis.url insertAnalysis) st ++ [analysis] /\
  (forall url, url <> InsertSeoAnalysis.url insertAnalysis ->
               MemStorage.getSeoAnalysesByUrl url st' = MemStorage.getSeoAnalysesByUrl url st).
Proof.
  intros Hr. apply reachable_invariant in Hr. destruct Hr as (_ & Ha & _).
  pose proof (sequential_fresh _ _ _ Ha) as Hf.
  cbv zeta. unfold MemStorage.createSeoAnalysis, MemStorage.getSeoAnalysis,
              MemStorage.getSeoAnalysesByUrl.
  cbn [fst snd SeoAnalysis.id SeoAnalysis.analysisData SeoAnalysis.score
       SeoAnalysis.isAmp MemStorage.seoAnalyses].
  split; [reflexivity|]. split; [exact Hf|]. split; [apply get_set_same|].
  split; [intros id Hne; apply get_set_other; congruence|].
  split; [reflexivity|]. split; [reflexivity|]. split; [reflexivity|].
  rewrite (set_fresh _ _ _ Hf). unfold JsMap.values.
  split.
  - rewrite map_app, filter_app. cbn. now rewrite String.eqb_refl.
  - intros url Hne. rewrite map_app, filter_app. cbn.
    destruct (String.eqb_spec (InsertSeoAnalysis.url insertAnalysis) url);
      [congruence|apply app_nil_r].
Qed.

(** Stored analyses are never changed or removed: whatever call comes
    next, every id below the counter keeps reading the same record, and
    every id from 1 up to the counter is present. *)
Theorem analyses_are_kept (st : MemStorage.t) (call : MemStorage.Call) :
  MemStorage.reachable st ->
  (forall id analysis,
      MemStorage.getSeoAnalysis id st = Some analysis ->
      SeoAnalysis.id analysis = id /\
      1 <= id < MemStorage.currentAnalysisId st /\
      MemStorage.getSeoAnalysis id (MemStorage.perform st call) = Some analysis) /\
  (forall id, 1 <= id < MemStorage.currentAnalysisId st ->
              exists analysis, MemStorage.getSeoAnalysis id st = Some analysis).
Proof.
  intros Hr. apply reachable_invariant in Hr. destruct Hr as (_ & Ha & Hs & Hal & _).
  split.
  - intros id analysis Hg. unfold MemStorage.getSeoAnalysis in *.
    destruct (sequential_bound _ _ _ _ _ Ha Hg) as [Hid Hb].
    split; [exact Hid|]. split; [exact Hb|].
    destruct call as [u|a now|i now1 now2|scanId email|alertId email]; cbn;
      try assumption.
    + rewrite get_set_other by lia. exact Hg.
    + unfold MemStorage.deleteScheduledScan.
      destruct (JsMap.get scanId (MemStorage.scheduledScans st)) as [scan|];
        [|exact Hg].
      destruct (ScheduledScan.userEmail scan =? email)%string; exact Hg.
    + unfold MemStorage.markAlertAsRead. rewrite Hal. exact Hg.
  - intros id Hb. exact (sequential_present _ _ _ _ Ha Hb).
Qed.

Lemma ids_NoDup (start len : nat) : NoDup (map Z.of_nat (seq start len)).
Proof.
  revert start. induction len as [|len IH]; intros start; simpl; constructor.
  - intros Hin. apply in_map_iff in Hin. destruct Hin as (i & Hi & Hin).
    apply in_seq in Hin. lia.
  - apply IH.
Qed.

Lemma filter_other_ids (id : Z) (l : JsMap.t ScheduledScan.t)
      (g : ScheduledScan.t -> bool) :
  Forall (fun kv => ScheduledScan.id (snd kv) = fst kv) l ->
  ~ In id (map fst l) ->
  filter (fun scan => negb (ScheduledScan.id scan =? id)) (filter g (map snd l))
  = filter g (map snd l).
Proof.
  induction l as [|[k v] l IHl]; intros Hf Hn; [reflexivity|].
  inversion Hf as [|? ? Hkv Hf']. cbn [fst snd] in Hkv. cbn [map snd filter].
  assert (k <> id) by (intros ->; apply Hn; now left).
  assert (~ In id (map fst l)) by (intros Hi; apply Hn; now right).
  destruct (g v); cbn [filter].
  - rewrite Hkv. destruct (Z.eqb_spec k id); [contradiction|]. cbn [negb].
    now rewrite IHl.
  - now apply IHl.
Qed.

Lemma filter_update {A} (f : A -> bool) (before after : list A) (old new : A) :
  f new = false ->
  filter f (before ++ new :: after) = filter f before ++ filter f after.
Proof. intros Hn. rewrite filter_app. cbn. now rewrite Hn. Qed.

(** Deleting a scheduled scan is a soft delete guarded by the owner's
    email: it answers true exactly when the scan exists and belongs to
    the user, even if it was already deleted; the scan then stays stored,
    inactive, and leaves the user's list, other scans being untouched; a
    refused deletion changes nothing. *)
Theorem deleteScheduledScan_soft (st : MemStorage.t) (id : Z) (userEmail : string) :
  MemStorage.reachable st ->
  let deleted := fst (MemStorage.deleteScheduledScan id userEmail st) in
  let st' := snd (MemStorage.deleteScheduledScan id userEmail st) in
  (deleted = true <->
   exists scan, JsMap.get id (MemStorage.scheduledScans st) = Some scan /\
                ScheduledScan.userEmail scan = userEmail) /\
  (deleted = false -> st' = st) /\
  (deleted = true ->
   fst (MemStorage.deleteScheduledScan id userEmail st') = true /\
   (exists scan, JsMap.get id (MemStorage.scheduledScans st) = Some scan /\
                 JsMap.get id (MemStorage.scheduledScans st')
                 = Some (ScheduledScan.deactivate scan)) /\
   (forall other, other <> id ->
                  JsMap.get other (MemStorage.scheduledScans st')
                  = JsMap.get other (MemStorage.scheduledScans st)) /\
   (forall email,
       MemStorage.getScheduledScans email st'
       = filter (fun scan => negb (ScheduledScan.id scan =? id))
                (MemStorage.getScheduledScans email st)) /\
   MemStorage.seoAnalyses st' = MemStorage.seoAnalyses st).
Proof.
  intros Hr. apply reachable_invariant in Hr. destruct Hr as (_ & _ & Hs & _).
  cbv zeta. unfold MemStorage.deleteScheduledScan.
  destruct (JsMap.get id (MemStorage.scheduledScans st)) as [scan|] eqn:Eg.
  - destruct (String.eqb_spec (ScheduledScan.userEmail scan) userEmail) as [He|Hne].
    + cbn [fst snd MemStorage.scheduledScans MemStorage.seoAnalyses].
      split; [split; [intros _; now exists scan|reflexivity]|].
      split; [discriminate|]. intros _.
      rewrite get_set_same. cbn [ScheduledScan.deactivate ScheduledScan.userEmail].
      rewrite He, String.eqb_refl. cbn [fst].
      split; [reflexivity|]. split; [now exists scan|].
      split; [intros other Hne; apply get_set_other; congruence|].
      split; [|reflexivity].
      intros email. unfold MemStorage.getScheduledScans.
      cbn [MemStorage.scheduledScans].
      destruct (set_existing id (ScheduledScan.deactivate scan) scan _ Eg)
        as (_ & before & after & Hm & Hset & Hnin).
      destruct Hs as (_ & Hkeys & Hall).
      rewrite Hset, Hm. unfold JsMap.values. rewrite !map_app. cbn [map snd].
      rewrite (filter_update _ _ _ scan (ScheduledScan.deactivate scan))
        by (cbn; apply andb_false_r).
      rewrite !filter_app. cbn [filter].
      (* the ids of the other entries differ from [id] *)
      assert (Hnd : NoDup (JsMap.keys (MemStorage.scheduledScans st))).
      { rewrite Hkeys. apply ids_NoDup. }
      rewrite Hm in Hnd, Hall. unfold JsMap.keys in Hnd. rewrite map_app in Hnd.
      cbn [map fst] in Hnd. apply NoDup_remove_2 in Hnd.
      apply Forall_app in Hall. destruct Hall as [Hb Ha]. inversion Ha as [|? ? Hid Ha'].
      cbn [fst snd] in Hid.
      rewrite (filter_other_ids id before _ Hb) by (intros Hi; apply Hnd, in_or_app; now left).
      destruct ((ScheduledScan.userEmail scan =? email)%string
                && ScheduledScan.isActive scan); cbn [filter].
      * rewrite Hid, Z.eqb_refl. cbn [negb].
        rewrite (filter_other_ids id after _ Ha') by (intros Hi; apply Hnd, in_or_app; now right).
        reflexivity.
      * rewrite (filter_other_ids id after _ Ha') by (intros Hi; apply Hnd, in_or_app; now right).
        reflexivity.
    + cbn [fst snd]. split; [split; [discriminate|]|split; [reflexivity|discriminate]].
      intros (scan' & [= <-] & He). contradiction.
  - cbn [fst snd]. split; [split; [discriminate|]|split; [reflexivity|discriminate]].
    intros (scan' & [=] & _).
Qed.

(** A new scheduled scan gets the counter as id, is active, is due one
    calendar day after the first clock reading, and is appended to its
    owner's list; the lists of the other users do not change. *)
Theorem createScheduledScan_listed (st : MemStorage.t)
        (insertScan : InsertScheduledScan.t) (now1 now2 : Z) :
  MemStorage.reachable st ->
  let scan := fst (MemStorage.createScheduledScan insertScan now1 now2 st) in
  let st' := snd (MemStorage.createScheduledScan insertScan now1 now2 st) in
  ScheduledScan.id scan = MemStorage.currentScanId st /\
  ScheduledScan.isActive scan = true /\
  ScheduledScan.nextScan scan = add_days now1 1 /\
  ScheduledScan.lastResults scan = None /\
  MemStorage.getScheduledScans (InsertScheduledScan.userEmail insertScan) st'
  = MemStorage.getScheduledScans (InsertScheduledScan.userEmail insertScan) st ++ [scan] /\
  (forall email, email <> InsertScheduledScan.userEmail insertScan ->
                 MemStorage.getScheduledScans email st'
                 = MemStorage.getScheduledScans email st).
Proof.
  intros Hr. apply reachable_invariant in Hr. destruct Hr as (_ & _ & Hs & _).
  pose proof (sequential_fresh _ _ _ Hs) as Hf.
  cbv zeta. unfold MemStorage.createScheduledScan, MemStorage.getScheduledScans.
  cbn [fst snd ScheduledScan.id ScheduledScan.isActive ScheduledScan.nextScan
       ScheduledScan.lastResults MemStorage.scheduledScans].
  repeat (split; [reflexivity|]).
  rewrite (set_fresh _ _ _ Hf). unfold JsMap.values. split.
  - rewrite map_app, filter_app. cbn. now rewrite String.eqb_refl.
  - intros email Hne. rewrite map_app, filter_app. cbn.
    destruct (String.eqb_spec (InsertScheduledScan.userEmail insertScan) email);
      [congruence|apply app_nil_r].
Qed.

(** No call ever creates an alert: in every storage a server can reach,
    the alerts of every user are empty and marking an alert as read is
    refused and changes nothing. *)
Theorem alerts_never_exist (st : MemStorage.t) (alertId : Z) (userEmail : string) :
  MemStorage.reachable st ->
  MemStorage.getScanAlerts userEmail st = [] /\
  MemStorage.markAlertAsRead alertId userEmail st = (false, st).
Proof.
  intros Hr. apply reachable_invariant in Hr. destruct Hr as (_ & _ & _ & Hal & _).
  unfold MemStorage.getScanAlerts, MemStorage.markAlertAsRead. rewrite Hal. auto.
Qed.

(** Creating a user reads back by id; user names are not checked for
    uniqueness, and a lookup by name answers the earliest user of that
    name, so a second user with a taken name is never found by name. *)
Theorem createUser_lookup (st : MemStorage.t) (insertUser : InsertUser.t) :
  MemStorage.reachable st ->
  let user := fst (MemStorage.createUser insertUser st) in
  let st' := snd (MemStorage.createUser insertUser st) in
  User.id user = MemStorage.currentUserId st /\
  MemStorage.getUser (User.id user) st' = Some user /\
  MemStorage.getUser (User.id user) st = None /\
  MemStorage.getUserByUsername (InsertUser.username insertUser) st'
  = match MemStorage.getUserByUsername (InsertUser.username insertUser) st with
    | Some earlier => Some earlier
    | None => Some user
    end /\
  (forall name, name <> InsertUser.username insertUser ->
                MemStorage.getUserByUsername name st'
                = MemStorage.getUserByUsername name st).
Proof.
  intros Hr. apply reachable_invariant in Hr. destruct Hr as (Hu & _).
  pose proof (sequential_fresh _ _ _ Hu) as Hf.
  cbv zeta. unfold MemStorage.createUser, MemStorage.getUser, MemStorage.getUserByUsername.
  cbn [fst snd User.id MemStorage.users].
  split; [reflexivity|]. split; [apply get_set_same|]. split; [exact Hf|].
  rewrite (set_fresh _ _ _ Hf). unfold JsMap.values. rewrite map_app. cbn [map snd].
  assert (Hfind : forall (f : User.t -> bool) l x,
             find f (l ++ [x]) = match find f l with
                                 | Some y => Some y
                                 | None => if f x then Some x else None
                                 end).
  { intros f l x. induction l as [|y l IH]; simpl; [reflexivity|].
    destruct (f y); [reflexivity|exact IH]. }
  split.
  - rewrite Hfind. cbn [User.username]. now rewrite String.eqb_refl.
  - intros name Hne. rewrite Hfind. cbn [User.username].
    destruct (String.eqb_spec (InsertUser.username insertUser) name); [congruence|].
    now destruct (find _ _).
Qed.

End StorageFacts.

(** ** Server *)

Section ServerFacts.
Context `{Platform}.

(** [POST /api/analyze] always answers, with 200 or 400: 200 exactly when
    the body parses and the analysis returns; the result is then stored
    once, under its normalized URL and the next id, which is the
    [analysisId] of the answer and reads back from storage; on a 400 the
    storage is unchanged. *)
Theorem post_analyze_reply (parsed : Outcome string) (sv : Server) :
  let reply := fst (post_analyze parsed sv) in
  let sv' := snd (post_analyze parsed sv) in
  (HttpReply.status reply = 200 \/ HttpReply.status reply = 400) /\
  (HttpReply.status reply = 200 <->
   exists url r n, parsed = Ok url /\ analyzeWebsite url (net sv) = (Ok r, n)) /\
  (HttpReply.status reply = 400 ->
   storage sv' = storage sv /\ exists error, HttpReply.body reply = Failed error) /\
  (forall url r n,
      parsed = Ok url -> analyzeWebsite url (net sv) = (Ok r, n) ->
      let id := MemStorage.currentAnalysisId (storage sv) in
      HttpReply.body reply = Analyzed r id /\
      net sv' = n /\
      storage sv'
      = snd (MemStorage.createSeoAnalysis (InsertSeoAnalysis.mk (normalizeUrl url) r)
                                          (Date_now (world n)) (storage sv)) /\
      exists stored,
        MemStorage.getSeoAnalysis id (storage sv') = Some stored /\
        SeoAnalysis.url stored = normalizeUrl url /\
        SeoAnalysis.analysisData stored = r) /\
  isRunning sv' = isRunning sv.
Proof.
  cbv zeta. unfold post_analyze.
  destruct parsed as [url|e].
  - unfold run_analysis.
    destruct (analyzeWebsite url (net sv)) as [[r|e] n] eqn:Ea.
    + pose proof (analyzeWebsite_inv _ _ _ _ Ea) as (? & ? & ? & ? & ? & _ & _ & Hu & _).
      unfold store_analysis, MemStorage.createSeoAnalysis.
      cbn [fst snd HttpReply.status HttpReply.body net storage isRunning SeoAnalysis.id].
      split; [now left|]. split; [split; [intros _; now exists url, r, n|reflexivity]|].
      split; [discriminate|]. split; [|reflexivity].
      intros url' r' n' [= <-] Hr. rewrite Ea in Hr. injection Hr as <- <-.
      cbv zeta.
      split; [reflexivity|]. split; [reflexivity|].
      rewrite Hu. split; [reflexivity|].
      eexists. unfold MemStorage.getSeoAnalysis. cbn [MemStorage.seoAnalyses].
      rewrite get_set_same. repeat split.
    + cbn [fst snd HttpReply.status HttpReply.body net storage isRunning].
      split; [now right|].
      split; [split; [discriminate|intros (u & r & n' & [= <-] & Hr); congruence]|].
      split; [intros _; split; [reflexivity|eauto]|].
      split; [|reflexivity]. intros url' r' n' [= <-] Hr. congruence.
  - cbn [fst snd HttpReply.status HttpReply.body].
    split; [now right|].
    split; [split; [discriminate|intros (u & r & n' & [=] & _)]|].
    split; [intros _; split; [reflexivity|eauto]|].
    split; [|reflexivity]. intros url' r' n' [=].
Qed.

(** A scheduled scan that is run stores its result under the scan's own
    URL, not the normalized one, or stores nothing when the analysis
    fails; it never updates the scan itself, so its next run time, last
    scan and last results stay as created; and as [getAllActiveScans]
    answers no scan, the periodic check leaves the server as it was. *)
Theorem scheduler_effects (scan : ScheduledScan.t) (sv : Server) :
  let sv' := runScheduledScan scan sv in
  MemStorage.scheduledScans (storage sv') = MemStorage.scheduledScans (storage sv) /\
  MemStorage.scanAlerts (storage sv') = MemStorage.scanAlerts (storage sv) /\
  net sv' = snd (analyzeWebsite (ScheduledScan.url scan) (net sv)) /\
  (forall r n,
      analyzeWebsite (ScheduledScan.url scan) (net sv) = (Ok r, n) ->
      storage sv'
      = snd (MemStorage.createSeoAnalysis (InsertSeoAnalysis.mk (ScheduledScan.url scan) r)
                                          (Date_now (world n)) (storage sv))) /\
  (forall e n,
      analyzeWebsite (ScheduledScan.url scan) (net sv) = (Throw e, n) ->
      storage sv' = storage sv) /\
  checkScheduledScans sv = sv.
Proof.
  cbv zeta. unfold runScheduledScan, run_analysis.
  destruct (analyzeWebsite (ScheduledScan.url scan) (net sv)) as [[r|e] n] eqn:Ea.
  - unfold store_analysis, MemStorage.createSeoAnalysis, checkForChanges,
      updateScheduledScan.
    cbn [fst snd net storage isRunning].
    assert (Hc : checkScheduledScans sv = sv).
    { unfold checkScheduledScans, getAllActiveScans. destruct sv as [n0 st0 [|]]; reflexivity. }
    destruct (is_defined (ScheduledScan.lastResults scan));
      cbn [fst snd net storage MemStorage.scheduledScans MemStorage.scanAlerts];
      (split; [reflexivity|]); (split; [reflexivity|]); (split; [reflexivity|]);
      (split; [intros r' n' [= <- <-]; reflexivity|]);
      (split; [intros e' n' [=]|exact Hc]).
  - cbn [fst snd net storage].
    split; [reflexivity|]. split; [reflexivity|]. split; [reflexivity|].
    split; [intros r' n' [=]|]. split; [reflexivity|].
    unfold checkScheduledScans, getAllActiveScans. destruct sv as [n0 st0 [|]]; reflexivity.
Qed.

End ServerFacts.

(** ** The scripted platform satisfies the assumptions *)

Lemma demo_http_statuses : @http_statuses Demo.platform.
Proof.
  intros req w resp w' Ht. simpl in Ht. injection Ht as Hs _.
  unfold Demo.serve, Demo.ok in Hs.
  repeat match type of Hs with
         | (if ?b then _ else _) = _ => destruct b
         end;
    try discriminate; injection Hs as <-; simpl; lia.
Qed.

Lemma demo_hrefs_not_empty : @hrefs_not_empty Demo.platform.
Proof.
  intros input base u. simpl. unfold Demo.resolve.
  destruct (input =? "http://")%string; [discriminate|].
  destruct (Js.startsWith input "http://" || Js.startsWith input "https://") eqn:E.
  - intros [= <-]. simpl. intros ->. discriminate E.
  - destruct (Js.startsWith input "/"); [|discriminate].
    destruct base; [|discriminate]. intros [= <-]. discriminate.
Qed.

(** ** Runs on the scripted platform *)



Lemma fetchPage_redirects_witness :
  exists page s',
    @fetchPage Demo.platform "https://example.com/moved" Demo.start = (Ok page, s') /\
    Performance.redirects (FetchOutcome.performance page) = 1.
Proof.
  pose (page := FetchOutcome.mk "article" (Performance.mk 1 1 1 true (Some 7))).
  pose (s' := @mkNet Demo.platform 1 [page_request "https://example.com/moved"]).
  assert (Hf : @fetchPage Demo.platform "https://example.com/moved" Demo.start = (Ok page, s'))
    by reflexivity.
  exists page, s'. split; [exact Hf|].
  destruct (@fetchPage_redirects Demo.platform _ _ _ _ Hf)
    as (resp & w & Ht & _ & _ & Hiff & _).
  apply Hiff. injection Ht as <- _. discriminate.
Defined.

Lemma broken_link_accounting_witness :
  @http_statuses Demo.platform /\
  exists s',
    @check_links Demo.platform
      [LinkInfo.mk "https://example.com/missing" "gone" false false;
       LinkInfo.mk "https://example.com/down" "slow" false false;
       LinkInfo.mk "https://example.com/article" "fine" false false]
      [] Demo.start
    = (Ok [BrokenLink.mk "https://example.com/missing" "gone" 404 None;
           BrokenLink.mk "https://example.com/down" "slow" 0
                         (Some "timeout of 5000ms exceeded")],
       s').
Proof.
  split; [exact demo_http_statuses|].
  destruct (@broken_link_accounting Demo.platform demo_http_statuses) as (_ & _ & Hc & _).
  destruct (Hc [LinkInfo.mk "https://example.com/missing" "gone" false false;
                LinkInfo.mk "https://example.com/down" "slow" false false;
                LinkInfo.mk "https://example.com/article" "fine" false false]
               [] Demo.start) as [s' Hs].
  exists s'. exact Hs.
Defined.

Lemma link_check_cap_witness :
  @URL_new Demo.platform "https://example.com/hub" None
  = Some (Demo.absolute "https://example.com/hub") /\
  exists links s',
    @analyzeLinks Demo.platform "hub" "https://example.com/hub" Demo.start = (Ok links, s') /\
    List.length (sent s') = 20%nat /\
    Links.total links = 45 /\
    Links.internal links = 30 /\
    Links.external links = 15.
Proof.
  split; [reflexivity|].
  destruct (@link_check_cap Demo.platform "hub" "https://example.com/hub"
                            (Demo.absolute "https://example.com/hub") Demo.start eq_refl)
    as (links & s' & Ha & Hs & _ & _ & _ & Ht & Hi & He & _ & _).
  exists links, s'. split; [exact Ha|].
  rewrite Hs, Ht, Hi, He. vm_compute. repeat split.
Defined.

Lemma amp_page_result_witness :
  exists r s',
    @analyzeWebsite Demo.platform "example.com/amp" Demo.start = (Ok r, s') /\
    SEOAnalysisResult.isAmp r = true /\
    SEOAnalysisResult.ampUrl r = Some "https://example.com/amp" /\
    SEOAnalysisResult.regularUrl r = Some "https://example.com/article".
Proof.
  pose (page := FetchOutcome.mk "amp" (Performance.mk 1 1 0 true (Some 3))).
  pose (s1 := @mkNet Demo.platform 1 [page_request "https://example.com/amp"]).
  assert (Hf : @fetchPage Demo.platform (normalizeUrl "example.com/amp") Demo.start
               = (Ok page, s1)) by reflexivity.
  destruct (@amp_page_result Demo.platform "example.com/amp" Demo.start s1 page
                             (Demo.absolute "https://example.com/amp")
                             demo_hrefs_not_empty eq_refl Hf (or_introl eq_refl))
    as [_ Hc].
  exact (Hc (Demo.absolute "https://example.com/article") eq_refl eq_refl).
Defined.

Lemma canonicalMatches_iff_witness :
  MetaTags.canonicalMatches
    (@extractMetaTags Demo.platform "article" "https://example.com/article") = true /\
  MetaTags.canonicalMatches
    (@extractMetaTags Demo.platform "amp-bad" "https://example.com/amp-bad") = false.
Proof.
  split.
  - apply (proj2 (proj1 (@canonicalMatches_iff Demo.platform "article"
                                                "https://example.com/article"))).
    exists "/article", (Demo.absolute "https://example.com/article"),
      (Demo.absolute "https://example.com/article").
    repeat split.
  - apply (proj2 (proj2 (@canonicalMatches_iff Demo.platform "amp-bad"
                                                "https://example.com/amp-bad"))
                 "http://" eq_refl eq_refl).
Defined.

Lemma analyzeWebsite_normalizes_witness :
  Js.startsWith "example.com/article" "http" = false /\
  normalizeUrl "example.com/article" = "https://example.com/article" /\
  exists r s',
    @analyzeWebsite Demo.platform "example.com/article" Demo.start = (Ok r, s') /\
    SEOAnalysisResult.url r = "https://example.com/article".
Proof.
  pose proof (@analyzeWebsite_normalizes Demo.platform "example.com/article" Demo.start)
    as (H1 & _ & _ & _ & H5).
  split; [reflexivity|]. split; [exact (H1 eq_refl)|].
  destruct (@analyzeWebsite Demo.platform "example.com/article" Demo.start)
    as [[r|e] s'] eqn:E.
  - exists r, s'. split; [reflexivity|]. exact (H5 r s' eq_refl).
  - vm_compute in E. discriminate E.
Defined.

(** C7, at the failing input: the page is fetched, its root element
    carries [amp], and it has a canonical link whose href does not resolve.
    [extractMetaTags] guards the same resolution and answers
    [canonicalMatches] false; the AMP branch of [analyzeWebsite] does not,
    so the analysis throws and no result, AMP or not, is returned. *)
Theorem amp_canonical_unguarded :
  let url := "https://example.com/amp-bad" in
  let doc := @load Demo.platform "amp-bad" in
  (exists performance s1,
      @fetchPage Demo.platform url Demo.start
      = (Ok (FetchOutcome.mk "amp-bad" performance), s1)) /\
  is_defined (attr (select doc (by_tag "html")) "amp") = true /\
  attr (select doc (by_tag_attr "link" "rel" "canonical")) "href" = Some "http://" /\
  @URL_new Demo.platform "http://" (Some url) = None /\
  MetaTags.canonicalMatches (@extractMetaTags Demo.platform "amp-bad" url) = false /\
  fst (@analyzeWebsite Demo.platform url Demo.start)
  = Throw (ErrorObj "SEO analysis failed: Invalid URL") /\
  List.length (sent (snd (@analyzeWebsite Demo.platform url Demo.start))) = 1%nat /\
  forall r s', @analyzeWebsite Demo.platform url Demo.start <> (Ok r, s').
Proof.
  cbv zeta.
  split; [eexists; eexists; reflexivity|].
  split; [reflexivity|]. split; [reflexivity|]. split; [reflexivity|].
  split; [reflexivity|].
  assert (Hrun : @analyzeWebsite Demo.platform "https://example.com/amp-bad" Demo.start
                 = (Throw (ErrorObj "SEO analysis failed: Invalid URL"),
                    @mkNet Demo.platform 1 [page_request "https://example.com/amp-bad"])).
  { apply (@amp_page_bad_canonical Demo.platform "https://example.com/amp-bad" Demo.start
             (@mkNet Demo.platform 1 [page_request "https://example.com/amp-bad"])
             (FetchOutcome.mk "amp-bad" (Performance.mk 1 1 0 true (Some 7))));
      reflexivity. }
  rewrite Hrun. split; [reflexivity|]. split; [reflexivity|].
  intros r s'. discriminate.
Qed.

(** The analysis of the AMP page with the unresolvable canonical href fails. *)
Example amp_bad_canonical_run :
  fst (@analyzeWebsite Demo.platform "example.com/amp-bad" Demo.start)
  = Throw (ErrorObj "SEO analysis failed: Invalid URL").
Proof. vm_compute. reflexivity. Qed.

(** ** More runs on the scripted platform *)

Lemma analyzeLinks_report_witness :
  exists links s',
    @analyzeLinks Demo.platform "article" "https://example.com/article" Demo.start
    = (Ok links, s') /\
    Forall (fun link => ExternalLink.status link = 200) (Links.externalLinks links) /\
    (List.length (Links.broken links) <= 20)%nat.
Proof.
  destruct (@analyzeLinks Demo.platform "article" "https://example.com/article" Demo.start)
    as [[links|e] s'] eqn:E.
  - exists links, s'. split; [reflexivity|].
    destruct (@analyzeLinks_report Demo.platform _ _ _ _ _ E) as (Hs & _ & Hb & _).
    split; [exact Hs|exact Hb].
  - vm_compute in E. discriminate E.
Defined.

Lemma analyzeWebsite_fetch_failure_witness :
  @analyzeWebsite Demo.platform "https://example.com/missing" Demo.start
  = (Throw (ErrorObj "SEO analysis failed: Failed to fetch page: HTTP 404: Not Found"),
     @mkNet Demo.platform 1 [page_request "https://example.com/missing"]).
Proof.
  exact (proj1 (@analyzeWebsite_fetch_failure Demo.platform
                  "https://example.com/missing" Demo.start
                  (@mkNet Demo.platform 1 [page_request "https://example.com/missing"])
                  (ErrorObj "Failed to fetch page: HTTP 404: Not Found") eq_refl)).
Defined.

Lemma analyzeWebsite_scores_witness :
  exists r s',
    @analyzeWebsite Demo.platform "example.com/article" Demo.start = (Ok r, s') /\
    0 <= SEOAnalysisResult.overallScore r <= 100 /\
    0 <= SEOAnalysisResult.issues r <= 23 /\
    0 <= SEOAnalysisResult.warnings r <= 7.
Proof.
  destruct (@analyzeWebsite Demo.platform "example.com/article" Demo.start)
    as [[r|e] s'] eqn:E.
  - exists r, s'. split; [reflexivity|].
    destruct (@analyzeWebsite_scores Demo.platform _ _ _ _ E)
      as (_ & _ & _ & _ & Hs & Hi & Hw & _).
    split; [exact Hs|]. split; [exact Hi|exact Hw].
  - vm_compute in E. discriminate E.
Defined.

Lemma analyzeWebsite_robots_witness :
  exists r s',
    @analyzeWebsite Demo.platform "example.com/article" Demo.start = (Ok r, s') /\
    Forall rule_wf (RobotsTxt.rules (AnalysisData.robotsTxt (SEOAnalysisResult.data r))).
Proof.
  destruct (@analyzeWebsite Demo.platform "example.com/article" Demo.start)
    as [[r|e] s'] eqn:E.
  - exists r, s'. split; [reflexivity|].
    exact (proj2 (proj2 (proj2 (@analyzeWebsite_robots Demo.platform _ _ _ _ E)))).
  - vm_compute in E. discriminate E.
Defined.

Lemma analyzeWebsite_amp_fields_witness :
  exists r s',
    @analyzeWebsite Demo.platform "example.com/amp" Demo.start = (Ok r, s') /\
    (SEOAnalysisResult.isAmp r = true ->
     SEOAnalysisResult.ampUrl r = Some "https://example.com/amp").
Proof.
  destruct (@analyzeWebsite Demo.platform "example.com/amp" Demo.start)
    as [[r|e] s'] eqn:E.
  - exists r, s'. split; [reflexivity|].
    exact (proj1 (proj2 (@analyzeWebsite_amp_fields Demo.platform _ _ _ _ E))).
  - vm_compute in E. discriminate E.
Defined.

Lemma compareAmpAndRegular_result_witness :
  exists c s',
    @compareAmpAndRegular Demo.platform "https://example.com/amp"
                          "https://example.com/article" Demo.start = (Ok c, s') /\
    14 <= AmpComparison.ampScore c <= 93 /\
    sent s' = [page_request "https://example.com/amp";
               page_request "https://example.com/article"].
Proof.
  destruct (@compareAmpAndRegular Demo.platform "https://example.com/amp"
                                  "https://example.com/article" Demo.start)
    as [[c|e] s'] eqn:E.
  - exists c, s'. split; [reflexivity|].
    destruct (@compareAmpAndRegular_result Demo.platform _ _ _ _ _ E)
      as (_ & Ha & _ & _ & _ & _ & Hs).
    split; [exact Ha|exact Hs].
  - vm_compute in E. discriminate E.
Defined.

Lemma demo_busy_reachable : @MemStorage.reachable DemoServer.calendar DemoServer.busy.
Proof. exists DemoServer.calls. reflexivity. Qed.

Lemma createSeoAnalysis_roundtrip_witness :
  @MemStorage.reachable DemoServer.calendar DemoServer.busy /\
  let insertAnalysis := InsertSeoAnalysis.mk "https://example.com/article" DemoServer.result in
  let analysis := fst (MemStorage.createSeoAnalysis insertAnalysis 50 DemoServer.busy) in
  let st' := snd (MemStorage.createSeoAnalysis insertAnalysis 50 DemoServer.busy) in
  SeoAnalysis.id analysis = 2 /\
  MemStorage.getSeoAnalysis 2 DemoServer.busy = None /\
  MemStorage.getSeoAnalysis 2 st' = Some analysis /\
  List.length (MemStorage.getSeoAnalysesByUrl "https://example.com/article" st') = 2%nat.
Proof.
  split; [exact demo_busy_reachable|].
  destruct (@createSeoAnalysis_roundtrip DemoServer.calendar DemoServer.busy
              (InsertSeoAnalysis.mk "https://example.com/article" DemoServer.result) 50
              demo_busy_reachable)
    as (Hid & Hfree & Hget & _ & _ & _ & _ & Hurl & _).
  cbv zeta. split; [exact Hid|]. split; [exact Hfree|]. split; [exact Hget|].
  cbn [InsertSeoAnalysis.url] in Hurl. rewrite Hurl. reflexivity.
Defined.

Lemma analyses_are_kept_witness :
  @MemStorage.reachable DemoServer.calendar DemoServer.busy /\
  exists analysis,
    MemStorage.getSeoAnalysis 1 DemoServer.busy = Some analysis /\
    MemStorage.getSeoAnalysis 1
      (@MemStorage.perform DemoServer.calendar DemoServer.busy
         (MemStorage.CreateSeoAnalysis
            (InsertSeoAnalysis.mk "https://example.com/other" DemoServer.result) 60))
    = Some analysis.
Proof.
  split; [exact demo_busy_reachable|].
  destruct (@analyses_are_kept DemoServer.calendar DemoServer.busy
              (MemStorage.CreateSeoAnalysis
                 (InsertSeoAnalysis.mk "https://example.com/other" DemoServer.result) 60)
              demo_busy_reachable) as [Hkeep Hall].
  destruct (Hall 1 ltac:(vm_compute; split; [discriminate|reflexivity])) as [analysis Hg].
  exists analysis. split; [exact Hg|]. exact (proj2 (proj2 (Hkeep 1 analysis Hg))).
Defined.

Lemma deleteScheduledScan_soft_witness :
  @MemStorage.reachable DemoServer.calendar DemoServer.busy /\
  fst (MemStorage.deleteScheduledScan 1 "ann@example.com" DemoServer.busy) = true /\
  fst (MemStorage.deleteScheduledScan 2 "ann@example.com" DemoServer.busy) = false /\
  map ScheduledScan.id
      (MemStorage.getScheduledScans "ann@example.com"
         (snd (MemStorage.deleteScheduledScan 1 "ann@example.com" DemoServer.busy)))
  = [3].
Proof.
  split; [exact demo_busy_reachable|].
  destruct (@deleteScheduledScan_soft DemoServer.calendar DemoServer.busy 1
              "ann@example.com" demo_busy_reachable) as (Hiff & _ & Htrue).
  assert (Hd : fst (MemStorage.deleteScheduledScan 1 "ann@example.com" DemoServer.busy)
               = true).
  { apply Hiff. eexists. split; reflexivity. }
  split; [exact Hd|]. split; [reflexivity|].
  destruct (Htrue Hd) as (_ & _ & _ & Hlist & _). rewrite Hlist. reflexivity.
Defined.

Lemma createScheduledScan_listed_witness :
  @MemStorage.reachable DemoServer.calendar DemoServer.busy /\
  let scan := fst (@MemStorage.createScheduledScan DemoServer.calendar
                     (DemoServer.scan_of "bob@example.com") 100 101 DemoServer.busy) in
  let st' := snd (@MemStorage.createScheduledScan DemoServer.calendar
                    (DemoServer.scan_of "bob@example.com") 100 101 DemoServer.busy) in
  ScheduledScan.id scan = 4 /\
  ScheduledScan.nextScan scan = 86400100 /\
  map ScheduledScan.id (MemStorage.getScheduledScans "bob@example.com" st') = [2; 4].
Proof.
  split; [exact demo_busy_reachable|].
  destruct (@createScheduledScan_listed DemoServer.calendar DemoServer.busy
              (DemoServer.scan_of "bob@example.com") 100 101 demo_busy_reachable)
    as (Hid & _ & Hnext & _ & Hlist & _).
  cbv zeta. split; [exact Hid|]. split; [exact Hnext|].
  cbn [DemoServer.scan_of InsertScheduledScan.userEmail] in Hlist.
  rewrite Hlist. reflexivity.
Defined.

Lemma alerts_never_exist_witness :
  @MemStorage.reachable DemoServer.calendar DemoServer.busy /\
  MemStorage.getScanAlerts "ann@example.com" DemoServer.busy = [] /\
  MemStorage.markAlertAsRead 1 "ann@example.com" DemoServer.busy = (false, DemoServer.busy).
Proof.
  split; [exact demo_busy_reachable|].
  exact (@alerts_never_exist DemoServer.calendar DemoServer.busy 1 "ann@example.com"
           demo_busy_reachable).
Defined.

Lemma createUser_lookup_witness :
  @MemStorage.reachable DemoServer.calendar DemoServer.busy /\
  let user := fst (MemStorage.createUser (InsertUser.mk "ann" "other") DemoServer.busy) in
  let st' := snd (MemStorage.createUser (InsertUser.mk "ann" "other") DemoServer.busy) in
  User.id user = 2 /\
  MemStorage.getUser 2 st' = Some user /\
  MemStorage.getUserByUsername "ann" st' = Some (User.mk 1 "ann" "secret").
Proof.
  split; [exact demo_busy_reachable|].
  destruct (@createUser_lookup DemoServer.calendar DemoServer.busy
              (InsertUser.mk "ann" "other") demo_busy_reachable)
    as (Hid & Hget & _ & Hname & _).
  cbv zeta. split; [exact Hid|]. split; [exact Hget|].
  cbn [InsertUser.username] in Hname. rewrite Hname. reflexivity.
Defined.

(** The route on the scripted server: the article is analysed and stored
    under id 1, the missing page is answered with 400. *)
Example post_analyze_run :
  HttpReply.status (fst (@post_analyze Demo.platform (Ok "example.com/article")
                                       DemoServer.server)) = 200 /\
  option_map SeoAnalysis.url
    (MemStorage.getSeoAnalysis 1
       (storage (snd (@post_analyze Demo.platform (Ok "example.com/article")
                                    DemoServer.server))))
  = Some "https://example.com/article" /\
  fst (@post_analyze Demo.platform (Ok "example.com/missing") DemoServer.server)
  = HttpReply.mk 400
      (Failed "SEO analysis failed: Failed to fetch page: HTTP 404: Not Found").
Proof. vm_compute. repeat split. Qed.
